(** * AI-OCR: the extraction route and the page

    A shallow embedding of [src/app/api/extract-text/route.ts] and of the
    component of [src/app/page.tsx]: [preprocessToPngDataUrl], the handlers
    of the selection, [extractText] and the badge.

    - JavaScript strings are sequences of UTF-16 code units ([list N]).
    - JavaScript numbers are IEEE 754 binary64 values: the kernel's
      primitive [float], specified by [SpecFloat] through [FloatAxioms].
      Lengths and counters, which are integers below 2^53, are kept in [Z]
      and converted with [Number] where the source divides them.
    - The hosted model is an oracle; the handler runs in a small monad that
      threads the trace of calls and waits, and carries thrown values.
    - The page is a state machine: the values of its [useState] hooks, the
      calls of [extractText] under way, and the actions that change them.
    - Logging ([console.log], [console.warn], [console.error]) and the
      variable [usedModel], which is assigned and never read, are left out.
      What the browser decodes, draws and encodes ([Image], [drawImage],
      [toDataURL]) is a parameter; that [getImageData] throws on an empty
      rectangle is part of the model.

    The definitions come first; the properties follow. *)

From Stdlib Require Import ZArith NArith List String Ascii Strings.Byte Bool Lia.
From Stdlib Require Import Floats Uint63 Reals Lra.
Import ListNotations.

Set Warnings "-inexact-float".
Local Open Scope Z_scope.

(** ** JavaScript strings *)

Module JS.

Definition char := N.
Definition jsstring := list char.

(** A string literal of the source, as code units. *)
Definition str (s : string) : jsstring :=
  map N_of_ascii (list_ascii_of_string s).

(** [s.length] *)
Definition length (s : jsstring) : Z := Z.of_nat (List.length s).

Fixpoint eqb (a b : jsstring) : bool :=
  match a, b with
  | [], [] => true
  | x :: a', y :: b' => N.eqb x y && eqb a' b'
  | _, _ => false
  end.

(** WhiteSpace and LineTerminator code points of ECMAScript: what
    [String.prototype.trim] strips and what [\s] matches. *)
Definition is_white_space (c : char) : bool :=
  match c with
  | 9 | 10 | 11 | 12 | 13 | 32 | 160 | 5760
  | 8192 | 8193 | 8194 | 8195 | 8196 | 8197 | 8198 | 8199 | 8200 | 8201 | 8202
  | 8232 | 8233 | 8239 | 8287 | 12288 | 65279 => true
  | _ => false
  end%N.

Fixpoint trimStart (s : jsstring) : jsstring :=
  match s with
  | [] => []
  | c :: s' => if is_white_space c then trimStart s' else s
  end.

Definition trimEnd (s : jsstring) : jsstring := rev (trimStart (rev s)).

(** [s.trim()] *)
Definition trim (s : jsstring) : jsstring := trimEnd (trimStart s).

(** [s.split(sep)] for a separator of one code unit. *)
Fixpoint split (sep : char) (s : jsstring) : list jsstring :=
  match s with
  | [] => [[]]
  | c :: s' =>
      if N.eqb c sep then [] :: split sep s'
      else match split sep s' with
           | p :: ps => (c :: p) :: ps
           | [] => [[c]]
           end
  end.

(** [s.split(/\s+/)]: the pieces between the maximal runs of white space;
    [in_ws] says that the code unit before [s] belongs to a run. *)
Fixpoint split_ws_from (in_ws : bool) (s : jsstring) : list jsstring :=
  match s with
  | [] => [[]]
  | c :: s' =>
      if is_white_space c then
        if in_ws then split_ws_from true s' else [] :: split_ws_from true s'
      else match split_ws_from false s' with
           | p :: ps => (c :: p) :: ps
           | [] => [[c]]
           end
  end.

Definition split_ws (s : jsstring) : list jsstring := split_ws_from false s.

(** [Boolean(s)] for a string: the empty string is falsy. *)
Definition truthy_string (s : jsstring) : bool :=
  match s with [] => false | _ => true end.

(** Case-insensitive match of one pattern character [p] (an ASCII character)
    against [c], without the [u] flag: both are canonicalized by
    [toUpperCase], and a code unit of 128 or more is never mapped below 128,
    so an ASCII letter matches its two cases only. *)
Definition is_lower (c : char) : bool := (97 <=? c)%N && (c <=? 122)%N.
Definition canonicalize (c : char) : char :=
  if is_lower c then (c - 32)%N else c.
Definition ci_eqb (p c : char) : bool :=
  (c <? 128)%N && N.eqb (canonicalize p) (canonicalize c).

(** The pattern matches at the head of [s]. *)
Fixpoint matches_at (pat s : jsstring) : bool :=
  match pat, s with
  | [], _ => true
  | p :: pat', c :: s' => ci_eqb p c && matches_at pat' s'
  | _ :: _, [] => false
  end.

(** [(s.match(/pat/gi) || []).length] for a literal pattern: the scan goes
    left to right and resumes after the end of each match; [skip] is the
    number of code units still covered by the last match. *)
Fixpoint count_matches_from (pat : jsstring) (skip : nat) (s : jsstring) : Z :=
  match s with
  | [] => 0
  | _ :: s' =>
      match skip with
      | S k => count_matches_from pat k s'
      | O =>
          if matches_at pat s
          then 1 + count_matches_from pat (Nat.pred (List.length pat)) s'
          else count_matches_from pat O s'
      end
  end.

Definition count_matches (pat s : jsstring) : Z := count_matches_from pat O s.

(** [s.includes(sub)] *)
Fixpoint starts_with (sub s : jsstring) : bool :=
  match sub, s with
  | [], _ => true
  | p :: sub', c :: s' => N.eqb p c && starts_with sub' s'
  | _ :: _, [] => false
  end.

Fixpoint includes (s sub : jsstring) : bool :=
  starts_with sub s ||
  match s with
  | [] => false
  | _ :: s' => includes s' sub
  end.

(** [Number(n)] of an integer below 2^63, rounded to binary64. *)
Definition Number (n : Z) : float := PrimFloat.of_uint63 (Uint63.of_Z n).

(** [Math.max] and [Math.min]: NaN if an argument is NaN, and [-0 < +0]. *)
Definition is_neg_zero (x : float) : bool :=
  PrimFloat.is_zero x && PrimFloat.get_sign x.

Definition Math_max (a b : float) : float :=
  if PrimFloat.is_nan a || PrimFloat.is_nan b then PrimFloat.nan
  else if PrimFloat.ltb a b then b
  else if PrimFloat.ltb b a then a
  else if is_neg_zero a then b else a.

Definition Math_min (a b : float) : float :=
  if PrimFloat.is_nan a || PrimFloat.is_nan b then PrimFloat.nan
  else if PrimFloat.ltb a b then a
  else if PrimFloat.ltb b a then b
  else if is_neg_zero a then a else b.

End JS.

(** ** The confidence estimator ([route.ts], [calculateConfidence]) *)

Module Route.
Import JS.

Definition NO_TEXT : jsstring := str "No text detected".
Definition ILLEGIBLE : jsstring := str "[illegible]".
Definition LF : char := 10%N.

(** [text.split(/\s+/).filter(Boolean)] *)
Definition words_of (text : jsstring) : list jsstring :=
  filter truthy_string (split_ws text).

(** [text.split("\n").filter((l) => l.trim().length > 0)] *)
Definition lines_of (text : jsstring) : list jsstring :=
  filter (fun l => 0 <? length (trim l)) (split LF text).

(** [(text.match(/\[illegible\]/gi) || []).length] *)
Definition illegible_of (text : jsstring) : Z := count_matches ILLEGIBLE text.

Definition len {A} (l : list A) : Z := Z.of_nat (List.length l).

Definition calculateConfidence (text : jsstring) : float :=
  if negb (truthy_string text) || JS.eqb text NO_TEXT || (length (trim text) =? 0)
  then 0.05%float
  else
    let words := words_of text in
    let lines := lines_of text in
    let c := 0.25%float in
    let c := if length text >? 40 then (c + 0.15)%float else c in
    let c := if length text >? 200 then (c + 0.1)%float else c in
    let c := if len lines >? 2 then (c + 0.08)%float else c in
    let c := if len words >? 20 then (c + 0.07)%float else c in
    let illegible := illegible_of text in
    let c :=
      if illegible >? 0
      then (c - Math_min 0.2 ((Number illegible / Number (Z.max (len words) 1)) * 0.5))%float
      else c in
    Math_min 0.98 (Math_max 0.05 c).


(** ** The model invoker and the request handler ([route.ts], [POST]) *)

(** A value that may be thrown or caught: an [Error] object with its message,
    a string, [null] or [undefined]. *)
Inductive jsval :=
| VError (message : jsstring)
| VString (s : jsstring)
| VNull
| VUndefined.

(** [Boolean(v)] *)
Definition truthy (v : jsval) : bool :=
  match v with
  | VError _ => true
  | VString s => truthy_string s
  | VNull | VUndefined => false
  end.

(** [typeof err?.message === "string" ? err.message : String(err)] *)
Definition message_of (err : jsval) : jsstring :=
  match err with
  | VError m => m
  | VString s => s
  | VNull => str "null"
  | VUndefined => str "undefined"
  end.

(** The argument of [generateText]. *)
Record gen_request := {
  model : jsstring;
  system : jsstring;
  user_text : jsstring;
  user_image : jsstring;
  temperature : Z;
  maxTokens : Z
}.

(** What one call of [generateText] does: it resolves with a [text] (absent
    when the field is null or undefined) or rejects with a thrown value. *)
Inductive outcome :=
| Resolves (text : option jsstring)
| Rejects (err : jsval).

(** The observable steps of a request: calls of the model and waits. *)
Inductive event :=
| Call (req : gen_request)
| Sleep (ms : Z).

Definition is_call (ev : event) : bool :=
  match ev with Call _ => true | Sleep _ => false end.

Definition calls_of (m : jsstring) (tr : list event) : list event :=
  filter (fun ev => match ev with Call r => JS.eqb (model r) m | Sleep _ => false end) tr.

Definition sleeps_of (tr : list event) : list Z :=
  flat_map (fun ev => match ev with Sleep ms => [ms] | Call _ => [] end) tr.

(** A computation either completes with a value or throws; it extends the
    trace of what happened so far. *)
Inductive completion (A : Type) :=
| Normal (a : A)
| Throw (e : jsval).
Arguments Normal {A} a.
Arguments Throw {A} e.

Definition M (A : Type) := list event -> completion A * list event.

Definition ret {A} (a : A) : M A := fun tr => (Normal a, tr).

Definition bind {A B} (m : M A) (k : A -> M B) : M B :=
  fun tr =>
    match m tr with
    | (Normal a, tr') => k a tr'
    | (Throw e, tr') => (Throw e, tr')
    end.

Definition throw {A} (e : jsval) : M A := fun tr => (Throw e, tr).

(** [try { m } catch (e) { handler e }] *)
Definition try_catch {A} (m : M A) (handler : jsval -> M A) : M A :=
  fun tr =>
    match m tr with
    | (Normal a, tr') => (Normal a, tr')
    | (Throw e, tr') => handler e tr'
    end.

Notation "x <- m ;; k" := (bind m (fun x => k))
  (at level 61, m at next level, right associativity).
Notation "m ;;; k" := (bind m (fun _ => k))
  (at level 61, right associativity).

Definition PRIMARY_MODEL : jsstring := str "meta-llama/llama-4-maverick-17b-128e-instruct".
Definition FALLBACK_MODEL : jsstring := str "meta-llama/llama-4-scout-17b-16e-instruct".

(** [s] between the typographic quotes U+2018 and U+2019. *)
Definition quoted (s : string) : jsstring := [8216%N] ++ str s ++ [8217%N].

Definition systemPrompt : jsstring :=
  str "You are a production-grade OCR engine." ++ [LF] ++
  str "Extract ALL visible text exactly as written. Maintain reading order and line breaks." ++ [LF] ++
  str "Handle cursive and connected handwriting carefully: distinguish " ++
    quoted "rn" ++ str " vs " ++ quoted "m" ++ str ", " ++
    quoted "cl" ++ str " vs " ++ quoted "d" ++ str ", " ++
    quoted "o" ++ str " vs " ++ quoted "a" ++ str ", " ++
    quoted "0" ++ str " vs " ++ quoted "O" ++ str ", " ++
    quoted "1" ++ str " vs " ++ quoted "l" ++ str " vs " ++ quoted "I" ++ str ", " ++
    quoted "5" ++ str " vs " ++ quoted "S" ++ str ", " ++
    quoted "2" ++ str " vs " ++ quoted "Z" ++ str "." ++ [LF] ++
  str "Prefer literal transcription over normalization; do not expand abbreviations. If a token is unreadable, use [illegible]." ++ [LF] ++
  str "Avoid hallucinations. Output only what is truly present in the image.".

Definition userText : jsstring :=
  str "Output: Plain text only with original line breaks. If no text is present, output exactly: No text detected.".

(** [Buffer.from(bytes).toString("base64")] *)
Definition base64_alphabet : jsstring :=
  str "ABCDEFGHIJKLMNOPQRSTUVWXYZabcdefghijklmnopqrstuvwxyz0123456789+/".

Definition base64_digit (n : N) : char := nth (N.to_nat n) base64_alphabet 61%N.

Fixpoint base64 (bytes : list Byte.byte) : jsstring :=
  match bytes with
  | [] => []
  | [a] =>
      let a := Byte.to_N a in
      [base64_digit (N.shiftr a 2); base64_digit (N.shiftl (N.land a 3) 4); 61%N; 61%N]
  | [a; b] =>
      let a := Byte.to_N a in
      let b := Byte.to_N b in
      [base64_digit (N.shiftr a 2);
       base64_digit (N.lor (N.shiftl (N.land a 3) 4) (N.shiftr b 4));
       base64_digit (N.shiftl (N.land b 15) 2); 61%N]
  | a :: b :: c :: rest =>
      let a := Byte.to_N a in
      let b := Byte.to_N b in
      let c := Byte.to_N c in
      base64_digit (N.shiftr a 2) ::
      base64_digit (N.lor (N.shiftl (N.land a 3) 4) (N.shiftr b 4)) ::
      base64_digit (N.lor (N.shiftl (N.land b 15) 2) (N.shiftr c 6)) ::
      base64_digit (N.land c 63) :: base64 rest
  end.

(** The uploaded [File] of the form field [image]. *)
Record File := {
  file_name : jsstring;
  file_type : jsstring;
  file_bytes : list Byte.byte
}.

(** The JSON bodies the handler sends. *)
Inductive body :=
| NoImage (error : jsstring)
| Extracted (text : jsstring) (confidence : float)
| Failed (error : jsstring) (details : jsstring).

Record response := { status : Z; json : body }.

Section Handler.

(** The hosted model: what the call number [n] (counted from 0 within the
    request) of [generateText] does when given [req]. *)
Variable generateText : nat -> gen_request -> outcome.

Definition call_generateText (req : gen_request) : M (option jsstring) :=
  fun tr =>
    let tr' := tr ++ [Call req] in
    match generateText (List.length (filter is_call tr)) req with
    | Resolves text => (Normal text, tr')
    | Rejects err => (Throw err, tr')
    end.

(** [await new Promise((r) => setTimeout(r, ms))] *)
Definition sleep (ms : Z) : M unit := fun tr => (Normal tt, tr ++ [Sleep ms]).

Section Invoker.

Variable dataUrl : jsstring.

Definition request_for (modelId : jsstring) : gen_request :=
  {| model := modelId; system := systemPrompt; user_text := userText;
     user_image := dataUrl; temperature := 0; maxTokens := 7000 |}.

Definition is_permanent (message : jsstring) : bool :=
  includes message (str "does not exist") || includes message (str "do not have access").

(** The [for] loop of [callModelWithRetries] with [remaining] iterations to
    go, followed by [throw lastError]. *)
Fixpoint retry_loop (modelId : jsstring) (remaining : nat) (attempt : Z)
    (lastError : jsval) : M (option jsstring) :=
  match remaining with
  | O => throw lastError
  | S remaining' =>
      try_catch (call_generateText (request_for modelId))
        (fun err =>
           let lastError := err in
           let message := message_of err in
           if is_permanent message
           then throw lastError
           else sleep (300 * attempt) ;;;
                retry_loop modelId remaining' (attempt + 1) lastError)
  end.

Definition callModelWithRetries (modelId : jsstring) (maxAttempts : Z)
    : M (option jsstring) :=
  retry_loop modelId (Z.to_nat maxAttempts) 1 VNull.

(** Lines 78 to 91: the primary model, then the fallback. *)
Definition invoke_models : M (option jsstring) :=
  try_catch (callModelWithRetries PRIMARY_MODEL 3)
    (fun primaryErr =>
       try_catch (callModelWithRetries FALLBACK_MODEL 3)
         (fun fallbackErr =>
            throw (if truthy primaryErr then primaryErr else fallbackErr))).

End Invoker.

(** [!text] for [text : string | null] *)
Definition falsy_text (text : option jsstring) : bool :=
  match text with
  | None => true
  | Some t => negb (truthy_string t)
  end.

Definition dataUrl_of (image : File) : jsstring :=
  let base64 := base64 (file_bytes image) in
  let mimeType := if truthy_string (file_type image) then file_type image else str "image/png" in
  str "data:" ++ mimeType ++ str ";base64," ++ base64.

(** The handler; [image] is [formData.get("image")].  The outer [catch]
    turns whatever is thrown into the 500 response. *)
Definition POST (image : option File) : M response :=
  try_catch
    (match image with
     | None => ret {| status := 400; json := NoImage (str "No image provided") |}
     | Some image =>
         text <- invoke_models (dataUrl_of image) ;;
         if falsy_text text
         then throw (VError (str "Groq returned empty response"))
         else
           let text := match text with Some t => t | None => [] end in
           let confidence := calculateConfidence text in
           ret {| status := 200; json := Extracted (trim text) confidence |}
     end)
    (fun error =>
       ret {| status := 500;
              json := Failed (str "Failed to extract text from image")
                        (match error with
                         | VError m => m
                         | _ => str "Unknown error"
                         end) |}).

End Handler.

End Route.

(** ** The image normalizer ([page.tsx], [preprocessToPngDataUrl]) *)

Module Page.
Import JS.

(** [Math.round]: the integer nearest to [x], the larger one at a tie; zeros,
    infinities, NaN and integral values are returned as they are.  A finite
    [x] is [m * 2^e] exactly, so the integer is computed exactly. *)
Definition Math_round (x : float) : float :=
  match Prim2SF x with
  | S754_finite s m e =>
      if 0 <=? e then x
      else
        let n := Z.shiftr (2 * cond_Zopp s (Zpos m) + Z.shiftl 1 (- e)) (1 - e) in
        if n =? 0 then (if s then neg_zero else zero)
        else if n <? 0 then (- Number (- n))%float else Number n
  | _ => x
  end.

(** The conversion of a number stored in a [Uint8ClampedArray]: NaN gives 0,
    the value is clamped to [0, 255] and rounded to the nearest integer, to
    the even one at a tie. *)
Definition ToUint8Clamp (x : float) : Z :=
  match Prim2SF x with
  | S754_nan | S754_zero _ => 0
  | S754_infinity s => if s then 0 else 255
  | S754_finite s m e =>
      if s then 0
      else if 0 <=? e then Z.min 255 (Z.shiftl (Zpos m) e)
      else
        let f := Z.shiftr (Zpos m) (- e) in
        let r := Zpos m - Z.shiftl f (- e) in
        if 255 <=? f then 255
        else match 2 * r ?= Z.shiftl 1 (- e) with
             | Lt => f
             | Gt => f + 1
             | Eq => if Z.even f then f else f + 1
             end
  end.

(** The conversion of a number assigned to [canvas.width] or
    [canvas.height] (an [unsigned long]). *)
Definition ToUint32 (x : float) : Z :=
  match Prim2SF x with
  | S754_finite s m e =>
      (cond_Zopp s (if 0 <=? e then Z.shiftl (Zpos m) e else Z.shiftr (Zpos m) (- e)))
        mod 4294967296
  | _ => 0
  end.

Definition maxDim : float := 2000.

(** [Math.min(1, maxDim / Math.max(img.naturalWidth, img.naturalHeight))] *)
Definition scale_of (naturalWidth naturalHeight : Z) : float :=
  Math_min 1 (maxDim / Number (Z.max naturalWidth naturalHeight)).

(** The numbers [w] and [h] of the source. *)
Definition scaled_size (naturalWidth naturalHeight : Z) : float * float :=
  let scale := scale_of naturalWidth naturalHeight in
  let w := Math_round (Number naturalWidth * scale) in
  let h := Math_round (Number naturalHeight * scale) in
  (w, h).

(** The size of the canvas after [canvas.width = w; canvas.height = h]. *)
Definition canvas_size (naturalWidth naturalHeight : Z) : Z * Z :=
  let '(w, h) := scaled_size naturalWidth naturalHeight in
  (ToUint32 w, ToUint32 h).

Definition contrast : float := 1.15.

(** One turn of the pixel loop on the numbers read at [d[i]], [d[i + 1]] and
    [d[i + 2]]: the numbers assigned back to the three slots. *)
Definition adjust (r g b : float) : float * float * float :=
  let gray := (0.299 * r + 0.587 * g + 0.114 * b)%float in
  let r := gray in
  let g := gray in
  let b := gray in
  let r := ((r - 128) * contrast + 128)%float in
  let g := ((g - 128) * contrast + 128)%float in
  let b := ((b - 128) * contrast + 128)%float in
  (Math_max 0 (Math_min 255 r), Math_max 0 (Math_min 255 g), Math_max 0 (Math_min 255 b)).

(** A slot of the [Uint8ClampedArray] read as a number; a missing slot reads
    as [undefined], which arithmetic turns into NaN. *)
Definition read (slot : option Z) : float :=
  match slot with
  | Some v => Number v
  | None => nan
  end.

(** The loop [for (i = 0; i < d.length; i += 4)] over the pixel data: each
    turn rewrites the slots [i], [i + 1] and [i + 2] that exist and leaves
    the slot [i + 3] alone. *)
Fixpoint grayscale_contrast (d : list Z) : list Z :=
  match d with
  | [] => []
  | [r] =>
      let '(r', _, _) := adjust (read (Some r)) (read None) (read None) in
      [ToUint8Clamp r']
  | [r; g] =>
      let '(r', g', _) := adjust (read (Some r)) (read (Some g)) (read None) in
      [ToUint8Clamp r'; ToUint8Clamp g']
  | [r; g; b] =>
      let '(r', g', b') := adjust (read (Some r)) (read (Some g)) (read (Some b)) in
      [ToUint8Clamp r'; ToUint8Clamp g'; ToUint8Clamp b']
  | r :: g :: b :: a :: rest =>
      let '(r', g', b') := adjust (read (Some r)) (read (Some g)) (read (Some b)) in
      ToUint8Clamp r' :: ToUint8Clamp g' :: ToUint8Clamp b' :: a :: grayscale_contrast rest
  end.

(** The value the loop stores for a pixel of channels [r], [g] and [b]: the
    luminance, then the contrast map, then the clamp to [0, 255], then the
    rounding of the array. *)
Definition gray_level (r g b : Z) : Z :=
  let gray := (0.299 * Number r + 0.587 * Number g + 0.114 * Number b)%float in
  ToUint8Clamp (Math_max 0 (Math_min 255 ((gray - 128) * 1.15 + 128)%float)).

(** [f] holds of the integers from 0 to [n - 1]. *)
Fixpoint all_below (n : nat) (f : Z -> bool) : bool :=
  match n with
  | O => true
  | S k => f (Z.of_nat k) && all_below k f
  end.

End Page.

(** ** The estimator as the specification words it *)

Module Reference.
Import JS Route.

(** The penalty: the number of markers divided by the number of words, times
    0.5, capped at 0.20. *)
Definition penalty (illegible words : Z) : float :=
  Math_min 0.2 ((Number illegible / Number words) * 0.5)%float.

(** The score of a text that is not answered by the floor: the base 0.25, the
    four increments in their order, the penalty (nothing is subtracted when
    no marker occurs), and the clamp to [0.05, 0.98]. *)
Definition score (text : jsstring) : float :=
  let c := 0.25%float in
  let c := if length text >? 40 then (c + 0.15)%float else c in
  let c := if length text >? 200 then (c + 0.1)%float else c in
  let c := if len (lines_of text) >? 2 then (c + 0.08)%float else c in
  let c := if len (words_of text) >? 20 then (c + 0.07)%float else c in
  let c :=
    if illegible_of text =? 0 then c
    else (c - penalty (illegible_of text) (len (words_of text)))%float in
  Math_min 0.98 (Math_max 0.05 c).

(** The floor 0.05 for the empty text and for the sentinel, the score
    otherwise. *)
Definition confidence_as_specified (text : jsstring) : float :=
  if JS.eqb text [] || JS.eqb text NO_TEXT then 0.05%float else score text.

(** The same with the floor for a text of white space only. *)
Definition confidence_amended (text : jsstring) : float :=
  if JS.eqb text [] || JS.eqb text NO_TEXT || forallb is_white_space text
  then 0.05%float
  else score text.

End Reference.

(** ** The real value of a number, and rounding *)

Module FloatSpec.

(** [2^e] *)
Definition bpow (e : Z) : R := powerRZ 2 e.

(** The value of the positive number of mantissa [m] and exponent [e]. *)
Definition F2R (m : positive) (e : Z) : R := (IZR (Zpos m) * bpow e)%R.

(** The mantissa of a normal binary64 number has 53 bits. *)
Definition normal (m : positive) (e : Z) : Prop :=
  (2 ^ 52 <= Zpos m < 2 ^ 53) /\ (-1074 <= e <= 971).

(** [x] is the positive normal number [m * 2^e]. *)
Definition fnum (x : float) (m : positive) (e : Z) : Prop :=
  Prim2SF x = S754_finite false m e /\ normal m e.

(** The real value of a finite number. *)
Definition value (x : float) : R :=
  match Prim2SF x with
  | S754_finite s m e => if s then (- F2R m e)%R else F2R m e
  | _ => 0%R
  end.

(** Where the real [x] lies from the integer [m] to [m + 1], as [SpecFloat]
    records it: on [m], below the middle, on it, or above. *)
Definition located (x : R) (m : Z) (l : location) : Prop :=
  match l with
  | loc_Exact => x = IZR m
  | loc_Inexact Lt => (IZR m < x < IZR m + / 2)%R
  | loc_Inexact Eq => x = (IZR m + / 2)%R
  | loc_Inexact Gt => (IZR m + / 2 < x < IZR m + 1)%R
  end.

(** [z] is the positive real [v] rounded to binary64, to the nearest and to
    the even mantissa at a tie, for [v] in the normal range and below the
    last binade. *)
Definition rounds_to (v z : R) : Prop :=
  exists (m : Z) (e : Z) (l : location),
    (2 ^ 52 <= m < 2 ^ 53) /\ (-1074 <= e <= 970) /\
    located (v / bpow e) m l /\
    z = (IZR (round_nearest_even m l) * bpow e)%R.

End FloatSpec.

(** ** The estimator in pieces *)

Module Estimator.
Import JS Route FloatSpec.

(** The score after the four increments, by the four conditions. *)
Definition base (long longer many_lines many_words : bool) : float :=
  let c := 0.25%float in
  let c := if long then (c + 0.15)%float else c in
  let c := if longer then (c + 0.1)%float else c in
  let c := if many_lines then (c + 0.08)%float else c in
  let c := if many_words then (c + 0.07)%float else c in
  c.

Definition base_of (text : jsstring) : float :=
  base (length text >? 40) (length text >? 200)
       (len (lines_of text) >? 2) (len (words_of text) >? 20).

(** [Math.min(0.98, Math.max(0.05, c))] *)
Definition clamp (c : float) : float := Math_min 0.98 (Math_max 0.05 c).

(** [c - Math.min(0.2, (illegible / words) * 0.5)] *)
Definition penalized (c : float) (illegible words : Z) : float :=
  (c - Math_min 0.2 ((Number illegible / Number words) * 0.5))%float.

(** The real value of [penalized c illegible words], for [c] of value [vc]:
    the quotient, the product and the difference are each rounded. *)
Definition penalized_value (vc : R) (illegible words : Z) (vy : R) : Prop :=
  exists vq vh : R,
    rounds_to (IZR illegible / IZR words) vq /\
    rounds_to (vq * value 0.5) vh /\
    rounds_to (vc - Rmin (value 0.2) vh) vy.

(** The real value of [clamp y]. *)
Definition clamp_value (vy : R) : R := Rmin (value 0.98) (Rmax (value 0.05) vy).

(** The number of code units in the pieces of a split. *)
Fixpoint total_length (pieces : list jsstring) : Z :=
  match pieces with
  | [] => 0
  | p :: ps => length p + total_length ps
  end.

(** The guard of the estimator: the texts answered by the floor. *)
Definition floor_guard (text : jsstring) : bool :=
  JS.eqb text [] || JS.eqb text NO_TEXT || forallb is_white_space text.

(** The longest JavaScript string has 2^53 - 1 code units. *)
Definition max_length : Z := 2 ^ 53 - 1.

End Estimator.

(** ** Describing a run of the invoker *)

Module Runs.
Import JS Route.

(** The number of calls of the model in a trace. *)
Definition ncalls (tr : list event) : nat := List.length (filter is_call tr).

(** An attempt that fails with a transient error: the call rejects, and the
    message carries no permanent-error substring. *)
Definition transient (o : outcome) : Prop :=
  match o with
  | Rejects err => is_permanent (message_of err) = false
  | Resolves _ => False
  end.

(** The value a rejected call throws. *)
Definition thrown (o : outcome) : jsval :=
  match o with
  | Rejects err => err
  | Resolves _ => VUndefined
  end.

(** Every call among the events [evs], which follow [n] earlier calls, was
    rejected by the model. *)
Fixpoint all_rejected (gen : nat -> gen_request -> outcome) (n : nat)
    (evs : list event) : Prop :=
  match evs with
  | [] => True
  | Sleep _ :: evs' => all_rejected gen n evs'
  | Call req :: evs' =>
      (exists err, gen n req = Rejects err) /\ all_rejected gen (S n) evs'
  end.

(** What a run from the trace [tr] looks like: it only appends events; if it
    throws, every call it made was rejected; if it returns [text], its last
    event is the one call that resolved, with [text], and every call before
    was rejected. *)
Definition run_shape (gen : nat -> gen_request -> outcome) (tr : list event)
    (r : completion (option jsstring) * list event) : Prop :=
  exists evs, snd r = tr ++ evs /\
    match fst r with
    | Throw _ => all_rejected gen (ncalls tr) evs
    | Normal text =>
        exists evs0 req,
          evs = evs0 ++ [Call req] /\
          all_rejected gen (ncalls tr) evs0 /\
          gen (ncalls tr + ncalls evs0)%nat req = Resolves text
    end.

(** The body of the 500 response for a surfaced error. *)
Definition failure_response (error : jsval) : response :=
  {| status := 500;
     json := Failed (str "Failed to extract text from image")
               (match error with
                | VError m => m
                | _ => str "Unknown error"
                end) |}.

(** The answer of the handler to what the invoker returned or threw. *)
Definition answer (r : completion (option jsstring)) : response :=
  match r with
  | Normal (Some text) =>
      if truthy_string text
      then {| status := 200; json := Extracted (trim text) (calculateConfidence text) |}
      else failure_response (VError (str "Groq returned empty response"))
  | Normal None => failure_response (VError (str "Groq returned empty response"))
  | Throw e => failure_response e
  end.

End Runs.

(** ** Sample requests and models *)

Module Samples.
Import JS Route.

Definition a_png : File :=
  {| file_name := str "scan.png"; file_type := str "image/png";
     file_bytes := ["M"%byte; "a"%byte; "n"%byte] |}.

Definition a_text_file : File :=
  {| file_name := str "notes.txt"; file_type := str "text/plain";
     file_bytes := ["h"%byte; "i"%byte] |}.

(** A model that is rate limited at every call. *)
Definition always_boom (n : nat) (req : gen_request) : outcome :=
  Rejects (VError (str "rate limit reached")).

(** A model that answers every call with the empty text. *)
Definition always_empty (n : nat) (req : gen_request) : outcome :=
  Resolves (Some []).

(** The primary model is gone; the fallback reads [hello]. *)
Definition primary_gone (n : nat) (req : gen_request) : outcome :=
  if JS.eqb (model req) PRIMARY_MODEL
  then Rejects (VError (str "The model `x` does not exist or you do not have access to it."))
  else Resolves (Some (str "hello")).

(** A model that reads [hello] at once. *)
Definition reads_hello (n : nat) (req : gen_request) : outcome :=
  Resolves (Some (str "hello")).

(** A model that times out twice and then reads [hello]. *)
Definition third_time_lucky (n : nat) (req : gen_request) : outcome :=
  if (n <? 2)%nat then Rejects (VError (str "timeout")) else Resolves (Some (str "hello")).

(** A model that reads [a] followed by forty spaces. *)
Definition reads_padded (n : nat) (req : gen_request) : outcome :=
  Resolves (Some (str "a                                        ")).

End Samples.

(** ** The events of a retry loop *)

Module Turns.
Import JS Route.

(** [j] failed turns of the loop of a model, the first with the attempt
    number [attempt]: each is a call followed by the wait of
    [300 * attempt] ms. *)
Fixpoint turns (req : gen_request) (attempt : Z) (j : nat) : list event :=
  match j with
  | O => []
  | S j' => Call req :: Sleep (300 * attempt) :: turns req (attempt + 1) j'
  end.

(** The events a loop of at most [k] turns may leave: fewer than [k] failed
    turns and a last call (which resolved, or failed for good), or [k] failed
    turns. *)
Definition loop_trace (req : gen_request) (attempt : Z) (k : nat)
    (evs : list event) : Prop :=
  (exists j, (j < k)%nat /\ evs = turns req attempt j ++ [Call req]) \/
  evs = turns req attempt k.

(** Every call among the events is the request of the model [m] for the
    image [dataUrl]. *)
Definition calls_only (dataUrl m : jsstring) (evs : list event) : Prop :=
  Forall (fun ev => match ev with
                    | Call req => req = request_for dataUrl m
                    | Sleep _ => True
                    end) evs.

(** The time spent waiting, in ms. *)
Definition total_wait (tr : list event) : Z := fold_right Z.add 0 (sleeps_of tr).

(** The first and the last code unit of a string are not white space. *)
Definition no_outer_space (s : jsstring) : Prop :=
  match s with
  | [] => True
  | c :: _ => is_white_space c = false
  end /\
  match rev s with
  | [] => True
  | c :: _ => is_white_space c = false
  end.

End Turns.

(** ** Signed values of binary64 numbers *)

Module Signed.
Import FloatSpec.

(** The real value of a zero or a finite number, with its sign. *)
Definition sval (x : spec_float) : R :=
  match x with
  | S754_finite s m e => if s then (- F2R m e)%R else F2R m e
  | _ => 0%R
  end.

(** A zero, or a normal number with an exponent from [- B] to [B]. *)
Definition okb (B : Z) (x : spec_float) : Prop :=
  match x with
  | S754_zero _ => True
  | S754_finite _ m e => normal m e /\ - B <= e <= B
  | _ => False
  end.

(** [z] is [v] up to the relative error of one rounding. *)
Definition near (v : R) (z : spec_float) : Prop :=
  (Rabs (sval z - v) <= Rabs v / 9007199254740992)%R.

(** The real value of a number. *)
Definition fv (x : float) : R := sval (Prim2SF x).

End Signed.

(** ** The image normalizer as a whole ([preprocessToPngDataUrl]) *)

Module Normalizer.
Import JS Page.

(** An image that the browser has loaded: its natural size, and what
    [getImageData(0, 0, sw, sh)] reads from the canvas after
    [drawImage(img, 0, 0, w, h)], which is the browser's resampling. *)
Record image := {
  naturalWidth : Z;
  naturalHeight : Z;
  drawn : Z -> Z -> list Z
}.

(** The conversion of an argument of type [long]. *)
Definition ToInt32 (x : float) : Z :=
  let n := ToUint32 x in
  if 2147483648 <=? n then n - 4294967296 else n.

(** [ctx.getImageData(0, 0, w, h).data]: the call throws an
    [IndexSizeError] when [sw] or [sh] is 0. *)
Definition getImageData (img : image) (w h : float) : option (list Z) :=
  let sw := ToInt32 w in
  let sh := ToInt32 h in
  if (sw =? 0) || (sh =? 0) then None else Some (drawn img sw sh).

(** The canvas when [resolve] is called: its size and its pixels. *)
Record canvas := { width : Z; height : Z; data : list Z }.

(** The promise of [preprocessToPngDataUrl], up to the PNG encoding of the
    canvas: [None] when it never resolves.  [loaded] is the image at
    [srcUrl], if the browser can load it: there is no [onerror], so nothing
    happens when it cannot.  What [getImageData] throws leaves [img.onload]
    before [resolve] is reached. *)
Definition preprocessToPngDataUrl (loaded : option image) : option canvas :=
  match loaded with
  | None => None
  | Some img =>
      let '(w, h) := scaled_size (naturalWidth img) (naturalHeight img) in
      match getImageData img w h with
      | None => None
      | Some d =>
          Some {| width := ToUint32 w; height := ToUint32 h;
                  data := grayscale_contrast d |}
      end
  end.

(** An image of 1 by 4001 pixels, whatever the browser draws of it. *)
Definition thin_image (drawn : Z -> Z -> list Z) : image :=
  {| naturalWidth := 1; naturalHeight := 4001; drawn := drawn |}.

End Normalizer.

(** ** The request of the handler *)

Module Request.
Import JS Route Runs.

(** What [formData.get("image")] gives for a field that is there: a [File],
    or the string of a field that is not a file. *)
Inductive field :=
| FieldFile (f : File)
| FieldString (s : jsstring).

(** A request: a body that [request.formData()] rejects, with what it
    rejects with, or a form with its field [image], if it has one. *)
Inductive request :=
| BadBody (err : jsval)
| Form (image : option field).

(** [await request.formData()], then [formData.get("image")] *)
Definition formData_image (r : request) : M (option field) :=
  match r with
  | BadBody err => throw err
  | Form image => ret image
  end.

(** [!image] *)
Definition falsy_field (image : option field) : bool :=
  match image with
  | None => true
  | Some (FieldString s) => negb (truthy_string s)
  | Some (FieldFile _) => false
  end.

(** The message of the [TypeError] of a call of [image.arrayBuffer] on a
    string. *)
Definition not_a_function : jsstring := str "image.arrayBuffer is not a function".

(** [await image.arrayBuffer()] *)
Definition arrayBuffer (image : field) : M (list Byte.byte) :=
  match image with
  | FieldFile f => ret (file_bytes f)
  | FieldString _ => throw (VError not_a_function)
  end.

(** [image.type]: [undefined] for a string. *)
Definition type_of (image : field) : jsstring :=
  match image with
  | FieldFile f => file_type f
  | FieldString _ => []
  end.

Section Handler.

Variable generateText : nat -> gen_request -> outcome.

(** The handler from its first line: [POST] of a [NextRequest]. *)
Definition POST_request (r : request) : M response :=
  try_catch
    (image <- formData_image r ;;
     if falsy_field image
     then ret {| status := 400; json := NoImage (str "No image provided") |}
     else
       match image with
       | None => ret {| status := 400; json := NoImage (str "No image provided") |}
       | Some image =>
           bytes <- arrayBuffer image ;;
           let base64 := base64 bytes in
           let mimeType :=
             if truthy_string (type_of image) then type_of image else str "image/png" in
           let dataUrl := str "data:" ++ mimeType ++ str ";base64," ++ base64 in
           text <- invoke_models generateText dataUrl ;;
           if falsy_text text
           then throw (VError (str "Groq returned empty response"))
           else
             let text := match text with Some t => t | None => [] end in
             let confidence := calculateConfidence text in
             ret {| status := 200; json := Extracted (trim text) confidence |}
       end)
    (fun error => ret (failure_response error)).

End Handler.

End Request.

(** ** The page ([page.tsx]): selection, extraction, display *)

Module Client.
Import JS Route.

(** [\w] *)
Definition is_word_char (c : char) : bool :=
  ((48 <=? c) && (c <=? 57) || (65 <=? c) && (c <=? 90) || (c =? 95) ||
   (97 <=? c) && (c <=? 122))%N.

(** [/\.\w+$/] matches at the head of [s]: a dot, then word characters, one
    at least, up to the end of the string. *)
Definition ext_at (s : jsstring) : bool :=
  match s with
  | [] => false
  | c :: rest => (c =? 46)%N && truthy_string rest && forallb is_word_char rest
  end.

(** [name.replace(/\.\w+$/, "")]: the leftmost match, which ends the string,
    is removed. *)
Fixpoint strip_ext (name : jsstring) : jsstring :=
  match name with
  | [] => []
  | c :: name' => if ext_at name then [] else c :: strip_ext name'
  end.

(** [selectedFile.name.replace(/\.\w+$/, "") + ".png"] *)
Definition png_name (name : jsstring) : jsstring := strip_ext name ++ str ".png".

(** [file.type.startsWith("image/")] *)
Definition is_image (file : File) : bool := starts_with (str "image/") (file_type file).

(** A call of [extractText] that has not returned: the [selectedFile] and the
    [previewUrl] it was called with, and the [idx] of its interval. *)
Record flight := { file : File; url : option jsstring; idx : nat }.

(** The state of the component, the calls of [extractText] under way, and the
    titles of the toasts shown. *)
Record page := {
  selectedFile : option File;
  previewUrl : option jsstring;
  extractedText : jsstring;
  isProcessing : bool;
  confidence : option float;
  processingProgress : Z;
  progressMessage : jsstring;
  flights : list flight;
  toasts : list jsstring
}.

Definition initial : page :=
  {| selectedFile := None; previewUrl := None; extractedText := [];
     isProcessing := false; confidence := None; processingProgress := 0;
     progressMessage := []; flights := []; toasts := [] |}.

Definition toast (title : jsstring) (p : page) : page :=
  {| selectedFile := selectedFile p; previewUrl := previewUrl p;
     extractedText := extractedText p; isProcessing := isProcessing p;
     confidence := confidence p; processingProgress := processingProgress p;
     progressMessage := progressMessage p; flights := flights p;
     toasts := toasts p ++ [title] |}.

(** The JSON of a response, as far as [extractText] reads it. *)
Record data := { data_text : option jsstring; data_confidence : option float }.

(** What the [try] block of [extractText] comes to: the response was [ok]
    and parsed to [data], or something was thrown. *)
Inductive fetched :=
| Fulfilled (d : data)
| Thrown.

Definition data_of (b : body) : data :=
  match b with
  | Extracted text confidence =>
      {| data_text := Some text; data_confidence := Some confidence |}
  | NoImage _ | Failed _ _ => {| data_text := None; data_confidence := None |}
  end.

(** [res.ok] holds of the statuses 200 to 299. *)
Definition fetched_of (res : response) : fetched :=
  if (200 <=? status res) && (status res <=? 299)
  then Fulfilled (data_of (json res))
  else Thrown.

Definition ellipsis : char := 8230%N.

Definition stages : list (Z * jsstring) :=
  [(20, str "Optimizing image" ++ [ellipsis]);
   (55, str "Analyzing text regions" ++ [ellipsis]);
   (85, str "Transcribing text" ++ [ellipsis])].

(** The progress and the message that can be on display. *)
Definition while_processing : list (Z * jsstring) :=
  (0, []) :: (0, str "Optimizing image" ++ [ellipsis]) :: stages.

Definition while_idle : list (Z * jsstring) := [(0, []); (100, str "Completed")].

Section Browser.

(** [URL.createObjectURL] *)
Variable createObjectURL : File -> jsstring.

(** The bytes of the PNG that the canvas gives for the image at a URL
    ([preprocessToPngDataUrl], then [fetch(...).blob()]), where the promise
    resolves; whether it does is [request_file] below. *)
Variable processed_png : jsstring -> list Byte.byte.

(** The six setters of a successful selection. *)
Definition select (f : File) (p : page) : page :=
  {| selectedFile := Some f; previewUrl := Some (createObjectURL f);
     extractedText := []; isProcessing := isProcessing p;
     confidence := None; processingProgress := 0;
     progressMessage := []; flights := flights p; toasts := toasts p |}.

(** [file] is [event.target.files?.[0]]. *)
Definition handleFileSelect (f : option File) (p : page) : page :=
  match f with
  | None => p
  | Some f =>
      if negb (is_image f) then toast (str "Invalid file type") p
      else select f p
  end.

(** [file] is [event.dataTransfer.files?.[0]]. *)
Definition handleDrop (f : option File) (p : page) : page :=
  match f with
  | Some f => if is_image f then select f p else p
  | None => p
  end.

(** [fileToSend], once the awaits before it have resolved. *)
Definition fileToSend (fl : flight) : File :=
  match url fl with
  | Some u =>
      if truthy_string u
      then {| file_name := png_name (file_name (file fl));
              file_type := str "image/png";
              file_bytes := processed_png u |}
      else file fl
  | None => file fl
  end.

(** [extractText] up to its first [await]. *)
Definition extractText (p : page) : page :=
  match selectedFile p with
  | None => p
  | Some f =>
      {| selectedFile := selectedFile p; previewUrl := previewUrl p;
         extractedText := extractedText p; isProcessing := true;
         confidence := confidence p; processingProgress := 0;
         progressMessage := str "Optimizing image" ++ [ellipsis];
         flights := flights p ++ [{| file := f; url := previewUrl p; idx := 0 |}];
         toasts := toasts p |}
  end.

(** [disabled={!selectedFile || isProcessing}] *)
Definition extract_disabled (p : page) : bool :=
  match selectedFile p with
  | None => true
  | Some _ => isProcessing p
  end.

(** A click on the button. *)
Definition click_extract (p : page) : page :=
  if extract_disabled p then p else extractText p.

(** The callback of the interval of the call number [k]. *)
Definition tick (k : nat) (p : page) : page :=
  match nth_error (flights p) k with
  | None => p
  | Some fl =>
      match nth_error stages (idx fl) with
      | None => p
      | Some (pr, m) =>
          {| selectedFile := selectedFile p; previewUrl := previewUrl p;
             extractedText := extractedText p; isProcessing := isProcessing p;
             confidence := confidence p; processingProgress := pr;
             progressMessage := m;
             flights := firstn k (flights p) ++
                        {| file := file fl; url := url fl; idx := S (idx fl) |} ::
                        skipn (S k) (flights p);
             toasts := toasts p |}
      end
  end.

(** The rest of the call number [k] of [extractText], from the end of the
    [try] block: the setters of the success or those of the [catch], then
    the [finally]. *)
Definition settle (k : nat) (r : fetched) (p : page) : page :=
  match nth_error (flights p) k with
  | None => p
  | Some fl =>
      let rest := firstn k (flights p) ++ skipn (S k) (flights p) in
      match r with
      | Fulfilled d =>
          {| selectedFile := selectedFile p; previewUrl := previewUrl p;
             extractedText := match data_text d with Some t => t | None => [] end;
             isProcessing := false;
             confidence := data_confidence d;
             processingProgress := 100;
             progressMessage := str "Completed";
             flights := rest;
             toasts := toasts p ++ [str "Extraction complete"] |}
      | Thrown =>
          {| selectedFile := selectedFile p; previewUrl := previewUrl p;
             extractedText := extractedText p; isProcessing := false;
             confidence := confidence p; processingProgress := 0;
             progressMessage := [];
             flights := rest;
             toasts := toasts p ++ [str "Extraction failed"] |}
      end
  end.

(** The [onChange] of the text area. *)
Definition edit (s : jsstring) (p : page) : page :=
  {| selectedFile := selectedFile p; previewUrl := previewUrl p;
     extractedText := s; isProcessing := isProcessing p;
     confidence := confidence p; processingProgress := processingProgress p;
     progressMessage := progressMessage p; flights := flights p;
     toasts := toasts p |}.

(** What happens to the page. *)
Inductive action :=
| FileSelect (f : option File)
| Drop (f : option File)
| ClickExtract
| Tick (k : nat)
| Settle (k : nat) (r : fetched)
| Edit (s : jsstring).

Definition step (p : page) (a : action) : page :=
  match a with
  | FileSelect f => handleFileSelect f p
  | Drop f => handleDrop f p
  | ClickExtract => click_extract p
  | Tick k => tick k p
  | Settle k r => settle k r p
  | Edit s => edit s p
  end.

Definition run (p : page) (acts : list action) : page := fold_left step acts p.

(** What can happen to the page: a tick needs its interval, and the call
    number [k] of [extractText] leaves its [try] block only if its awaits
    resolve, which [awaits k p] says. *)
Definition possible (awaits : flight -> bool) (p : page) (a : action) : bool :=
  match a with
  | Tick k => match nth_error (flights p) k with Some _ => true | None => false end
  | Settle k _ =>
      match nth_error (flights p) k with
      | Some fl => awaits fl
      | None => false
      end
  | _ => true
  end.

Fixpoint possible_run (awaits : flight -> bool) (p : page) (acts : list action) : bool :=
  match acts with
  | [] => true
  | a :: acts' => possible awaits p a && possible_run awaits (step p a) acts'
  end.

(** What holds of the page after every action. *)
Definition invariant (p : page) : Prop :=
  (forall f, selectedFile p = Some f -> is_image f = true) /\
  previewUrl p = option_map createObjectURL (selectedFile p) /\
  Forall (fun fl => is_image (file fl) = true) (flights p) /\
  (List.length (flights p) <= 1)%nat /\
  isProcessing p = negb (match flights p with [] => true | _ :: _ => false end) /\
  In (processingProgress p, progressMessage p)
     (if isProcessing p then while_processing else while_idle).

End Browser.

Section Awaits.

(** The image the browser loads from a URL, if it can. *)
Variable load : jsstring -> option Normalizer.image.

(** The bytes of the PNG of a canvas ([canvas.toDataURL("image/png")], then
    [fetch(...).blob()]). *)
Variable png_of : Normalizer.canvas -> list Byte.byte.

(** The file in the request of a call of [extractText], if its awaits
    resolve: [None] when [preprocessToPngDataUrl] never resolves. *)
Definition request_file (fl : flight) : option File :=
  match url fl with
  | Some u =>
      if truthy_string u
      then match Normalizer.preprocessToPngDataUrl (load u) with
           | Some c => Some (fileToSend (fun _ => png_of c) fl)
           | None => None
           end
      else Some (file fl)
  | None => Some (file fl)
  end.

Definition awaits_resolve (fl : flight) : bool :=
  match request_file fl with Some _ => true | None => false end.

End Awaits.

(** The class of the badge. *)
Definition emerald : jsstring :=
  str "bg-emerald-100 text-emerald-800 dark:bg-emerald-900 dark:text-emerald-200".
Definition blue : jsstring :=
  str "bg-blue-100 text-blue-800 dark:bg-blue-900 dark:text-blue-200".
Definition yellow : jsstring :=
  str "bg-yellow-100 text-yellow-800 dark:bg-yellow-900 dark:text-yellow-200".
Definition red : jsstring :=
  str "bg-red-100 text-red-800 dark:bg-red-900 dark:text-red-200".

Definition confBadge (conf : float) : jsstring :=
  if (0.85 <=? conf)%float then emerald
  else if (0.7 <=? conf)%float then blue
  else if (0.5 <=? conf)%float then yellow
  else red.

Inductive icon := Sparkles | CheckCircle | AlertCircle.

Definition confIcon (conf : float) : icon :=
  if (0.85 <=? conf)%float then Sparkles
  else if (0.7 <=? conf)%float then CheckCircle
  else AlertCircle.

(** [Math.round(confidence * 100)], the number before the percent sign. *)
Definition percent (conf : float) : float := Page.Math_round (conf * 100)%float.

End Client.

Module MoreSamples.
Import JS Route.

(** A model that reads a space, a line feed and a space. *)
Definition reads_blank (n : nat) (req : gen_request) : outcome :=
  Resolves (Some [32; 10; 32]%N).

Definition a_jpg : File :=
  {| file_name := str "page 2.jpg"; file_type := str "image/jpeg";
     file_bytes := ["J"%byte] |}.

(** An image of 4000 by 2000 pixels that the browser draws black and
    opaque. *)
Definition wide_image : Normalizer.image :=
  {| Normalizer.naturalWidth := 4000; Normalizer.naturalHeight := 2000;
     Normalizer.drawn := fun w h => List.concat (repeat [0; 0; 0; 255] (Z.to_nat (w * h))) |}.

(** A browser whose object URLs are all [blob:1] and whose canvas gives the
    same three bytes for every image. *)
Definition blob_url (f : File) : jsstring := str "blob:1".
Definition canvas_png (u : jsstring) : list Byte.byte := ["P"%byte; "N"%byte; "G"%byte].

(** A canvas of one opaque black pixel, its PNG, and browsers that load an
    image of 1 by 1 or of 1 by 4001 from every URL. *)
Definition small_image : Normalizer.image :=
  {| Normalizer.naturalWidth := 1; Normalizer.naturalHeight := 1;
     Normalizer.drawn := fun w h => [0; 0; 0; 255] |}.
Definition small_canvas : Normalizer.canvas :=
  {| Normalizer.width := 1; Normalizer.height := 1; Normalizer.data := [0; 0; 0; 255] |}.
Definition canvas_bytes (c : Normalizer.canvas) : list Byte.byte :=
  ["P"%byte; "N"%byte; "G"%byte].
Definition loads_small (u : jsstring) : option Normalizer.image := Some small_image.
Definition loads_thin (u : jsstring) : option Normalizer.image :=
  Some (Normalizer.thin_image (fun w h => [])).

End MoreSamples.

(** ** The scores of a text without markers *)

Module Scores.

(** The floor and the ten base scores a text can get. *)
Definition clean_scores : list float :=
  [0.05; 0.25; 0.33; 0.4; 0.47000000000000003; 0.48000000000000004; 0.5; 0.55;
   0.5700000000000001; 0.58; 0.6499999999999999]%float.

(** The text with its ASCII letters in upper case. *)
Definition upper_ascii (s : JS.jsstring) : JS.jsstring := map JS.canonicalize s.

End Scores.

(** * Properties *)

Import JS Route Page Reference Runs Samples FloatSpec.

(** ** The embedding on concrete inputs *)

Example split_ws_example :
  split_ws (str " a  b ") = [[]; str "a"; str "b"; []] /\
  words_of (str " a  b ") = [str "a"; str "b"] /\
  lines_of (str "one
 
two") = [str "one"; str "two"].
Proof. repeat split; reflexivity. Qed.

Example illegible_example :
  illegible_of (str "x [ILLEGIBLE][illegible] y [illegibl]") = 2.
Proof. reflexivity. Qed.

Example base64_example :
  base64 ["M"%byte; "a"%byte; "n"%byte] = str "TWFu" /\
  base64 ["M"%byte; "a"%byte] = str "TWE=" /\
  base64 ["M"%byte] = str "TQ==" /\
  dataUrl_of a_png = str "data:image/png;base64,TWFu".
Proof. repeat split; reflexivity. Qed.

Example confidence_floor_example :
  calculateConfidence [] = 0.05%float /\
  calculateConfidence (str "No text detected") = 0.05%float.
Proof. split; vm_compute; reflexivity. Qed.

Example confidence_example :
  calculateConfidence (str "abc [illegible] foo") = (0.25 - 1 / 3 * 0.5)%float.
Proof. vm_compute. reflexivity. Qed.

Example no_image_example :
  POST always_boom None [] =
    (Normal {| status := 400; json := NoImage (str "No image provided") |}, []).
Proof. reflexivity. Qed.

(** Two transient failures of the primary model, then a text: the third
    attempt's text is returned and the fallback model is not called. *)
Example third_attempt_example :
  let P := request_for (dataUrl_of a_png) PRIMARY_MODEL in
  invoke_models third_time_lucky (dataUrl_of a_png) [] =
    (Normal (Some (str "hello")), [Call P; Sleep 300; Call P; Sleep 600; Call P]).
Proof. reflexivity. Qed.

Example round_example :
  Math_round 2.5 = 3%float /\ Math_round (-2.5) = (-2)%float /\
  Math_round 0.49999999999999994 = 0%float /\
  ToUint8Clamp 2.5 = 2 /\ ToUint8Clamp 3.5 = 4 /\ ToUint8Clamp 300 = 255 /\
  ToUint8Clamp (-1) = 0.
Proof. repeat split; vm_compute; reflexivity. Qed.

Example canvas_example :
  canvas_size 4000 2000 = (2000, 1000) /\
  canvas_size 4001 2333 = (2000, 1166) /\
  grayscale_contrast [100; 150; 200; 9; 255; 255; 255; 7] =
    [143; 143; 143; 9; 255; 255; 255; 7].
Proof. repeat split; vm_compute; reflexivity. Qed.

(** ** Strings *)

Section Strings.

Lemma eqb_eq (a b : jsstring) : JS.eqb a b = true <-> a = b.
Proof.
  revert b; induction a as [|x a IH]; intros [|y b]; simpl; split; intro H;
    try reflexivity; try discriminate.
  - apply andb_true_iff in H as [Hx Hab].
    apply N.eqb_eq in Hx. apply IH in Hab. congruence.
  - injection H as -> ->. rewrite N.eqb_refl. simpl. now apply IH.
Qed.

Lemma trimStart_nil (s : jsstring) :
  trimStart s = [] <-> forallb is_white_space s = true.
Proof.
  induction s as [|c s IH]; simpl.
  - tauto.
  - destruct (is_white_space c); simpl; [exact IH|].
    split; discriminate.
Qed.

Lemma trimStart_blank (s : jsstring) :
  forallb is_white_space (trimStart s) = forallb is_white_space s.
Proof.
  induction s as [|c s IH]; simpl; [reflexivity|].
  destruct (is_white_space c) eqn:E; simpl; [exact IH|].
  now rewrite E.
Qed.

Lemma forallb_rev {A} (f : A -> bool) (l : list A) :
  forallb f (rev l) = forallb f l.
Proof.
  induction l as [|a l IH]; simpl; [reflexivity|].
  rewrite forallb_app, IH. simpl. rewrite andb_true_r. apply andb_comm.
Qed.

(** [text.trim().length === 0] holds of the texts of white space only. *)
Lemma trim_length_0 (s : jsstring) :
  (length (trim s) =? 0) = forallb is_white_space s.
Proof.
  unfold trim, trimEnd, length.
  rewrite length_rev.
  destruct (forallb is_white_space s) eqn:E.
  - assert (H : trimStart (rev (trimStart s)) = []).
    { apply trimStart_nil. now rewrite forallb_rev, trimStart_blank. }
    now rewrite H.
  - destruct (trimStart (rev (trimStart s))) eqn:H.
    + apply trimStart_nil in H.
      rewrite forallb_rev, trimStart_blank in H. congruence.
    + simpl List.length. apply Z.eqb_neq. lia.
Qed.

(** The pieces of [split(/\s+/)]: a text with a code unit that is not white
    space has a word. *)
Lemma split_ws_from_nonempty (b : bool) (s : jsstring) :
  split_ws_from b s <> [].
Proof.
  revert b; induction s as [|c s IH]; intro b; simpl; [discriminate|].
  destruct (is_white_space c).
  - destruct b; [apply IH|discriminate].
  - destruct (split_ws_from false s); discriminate.
Qed.

Lemma words_from_blank (b : bool) (s : jsstring) :
  forallb is_white_space s = true ->
  filter truthy_string (split_ws_from b s) = [].
Proof.
  revert b; induction s as [|c s IH]; intros b H; simpl in *; [reflexivity|].
  apply andb_true_iff in H as [Hc Hs]. rewrite Hc.
  destruct b; simpl; now apply IH.
Qed.

Lemma words_from_not_blank (b : bool) (s : jsstring) :
  forallb is_white_space s = false ->
  filter truthy_string (split_ws_from b s) <> [].
Proof.
  revert b; induction s as [|c s IH]; intros b H; simpl in *; [discriminate|].
  destruct (is_white_space c) eqn:Hc; simpl in H.
  - destruct b; simpl; now apply IH.
  - pose proof (split_ws_from_nonempty false s) as Hne.
    destruct (split_ws_from false s) as [|p ps]; [congruence|].
    simpl. discriminate.
Qed.

Lemma words_of_blank (s : jsstring) :
  forallb is_white_space s = true -> len (words_of s) = 0.
Proof.
  intro H. unfold words_of, split_ws. now rewrite words_from_blank.
Qed.

Lemma words_of_not_blank (s : jsstring) :
  forallb is_white_space s = false -> 1 <= len (words_of s).
Proof.
  intro H. apply (words_from_not_blank false) in H.
  unfold words_of, split_ws, len.
  destruct (filter truthy_string (split_ws_from false s)); [congruence|].
  simpl List.length. lia.
Qed.

Lemma count_matches_from_nonneg (pat : jsstring) (k : nat) (s : jsstring) :
  0 <= count_matches_from pat k s.
Proof.
  revert k; induction s as [|c s IH]; intro k; cbn [count_matches_from]; [lia|].
  destruct k as [|k]; [|apply IH].
  destruct (matches_at pat (c :: s)); [|apply IH].
  specialize (IH (Nat.pred (List.length pat))). lia.
Qed.

Lemma truthy_string_eqb (s : jsstring) : negb (truthy_string s) = JS.eqb s [].
Proof. now destruct s. Qed.

End Strings.

(** ** C1: the estimator against its specification *)

(** C1, as stated, fails: on a text of one space the source answers the floor
    0.05, the specified definition answers the base score 0.25. *)
Lemma C1_counterexample :
  calculateConfidence (str " ") = 0.05%float /\
  confidence_as_specified (str " ") = 0.25%float /\
  calculateConfidence (str " ") <> confidence_as_specified (str " ").
Proof.
  repeat split; try (vm_compute; reflexivity).
  intro H. apply (f_equal Prim2SF) in H. vm_compute in H. discriminate.
Qed.

(** C1 (amended): [calculateConfidence] equals the specified definition once
    the floor 0.05 is also answered for a text of white space only: the base
    0.25, then +0.15, +0.1, +0.08, +0.07 in this order, the penalty, and the
    clamp to [0.05, 0.98]. *)
Theorem C1_confidence_refines (text : jsstring) :
  calculateConfidence text = confidence_amended text.
Proof.
  unfold calculateConfidence, confidence_amended.
  rewrite truthy_string_eqb, trim_length_0.
  destruct (JS.eqb text [] || JS.eqb text NO_TEXT) eqn:Hg; simpl; [reflexivity|].
  destruct (forallb is_white_space text) eqn:Hb; [reflexivity|].
  unfold score, penalty.
  pose proof (words_of_not_blank _ Hb) as Hw.
  replace (Z.max (len (words_of text)) 1) with (len (words_of text)) by lia.
  pose proof (count_matches_from_nonneg ILLEGIBLE 0 text) as Hi.
  fold (count_matches ILLEGIBLE text) in Hi. fold (illegible_of text) in Hi.
  destruct (illegible_of text =? 0) eqn:Hz.
  - apply Z.eqb_eq in Hz. rewrite Hz. reflexivity.
  - apply Z.eqb_neq in Hz.
    replace (illegible_of text >? 0) with true; [reflexivity|].
    symmetry. apply Z.gtb_lt. lia.
Qed.

(** ** The model invoker *)

Section InvokerFacts.

Variable gen : nat -> gen_request -> outcome.
Variable dataUrl : jsstring.

Lemma ncalls_app (a b : list event) : ncalls (a ++ b) = (ncalls a + ncalls b)%nat.
Proof. unfold ncalls. now rewrite filter_app, length_app. Qed.

Lemma all_rejected_app (n : nat) (a b : list event) :
  all_rejected gen n a -> all_rejected gen (n + ncalls a) b ->
  all_rejected gen n (a ++ b).
Proof.
  revert n; induction a as [|[req|ms] a IH]; intros n Ha Hb; simpl in *.
  - now rewrite Nat.add_0_r in Hb.
  - destruct Ha as [He Ha]. split; [exact He|].
    apply IH; [exact Ha|].
    unfold ncalls in *. simpl in Hb. now rewrite <- Nat.add_succ_comm in Hb.
  - apply IH; [exact Ha|exact Hb].
Qed.

(** A rejected call in front of a run. *)
Lemma run_shape_after (tr pre : list event)
    (r : completion (option jsstring) * list event) :
  all_rejected gen (ncalls tr) pre ->
  run_shape gen (tr ++ pre) r -> run_shape gen tr r.
Proof.
  intros Hpre (evs & Htr & Hr). exists (pre ++ evs). split.
  - now rewrite Htr, app_assoc.
  - rewrite ncalls_app in Hr. destruct (fst r) as [text|e].
    + destruct Hr as (evs0 & req & -> & H0 & Hg).
      exists (pre ++ evs0), req. split; [now rewrite app_assoc|]. split.
      * now apply all_rejected_app.
      * now rewrite ncalls_app, Nat.add_assoc.
    + now apply all_rejected_app.
Qed.

Lemma throw_shape (e : jsval) (tr : list event) :
  run_shape gen tr (throw e tr).
Proof. exists []. simpl. now rewrite app_nil_r. Qed.

(** The retry loop of one model. *)
Lemma retry_loop_shape (modelId : jsstring) (remaining : nat) :
  forall (attempt : Z) (lastError : jsval) (tr : list event),
    run_shape gen tr (retry_loop gen dataUrl modelId remaining attempt lastError tr).
Proof.
  induction remaining as [|k IH]; intros attempt lastError tr;
    cbn [retry_loop]; [apply throw_shape|].
  unfold try_catch, call_generateText. fold (ncalls tr).
  destruct (gen (ncalls tr) (request_for dataUrl modelId)) as [text|err] eqn:Hg.
  - exists [Call (request_for dataUrl modelId)]. split; [reflexivity|].
    exists [], (request_for dataUrl modelId). cbn. now rewrite Nat.add_0_r.
  - assert (Hr : all_rejected gen (ncalls tr) [Call (request_for dataUrl modelId)])
      by (cbn; eauto).
    destruct (is_permanent (message_of err)).
    + apply run_shape_after with (pre := [Call (request_for dataUrl modelId)]);
        [exact Hr|apply throw_shape].
    + unfold bind, sleep.
      apply run_shape_after with
        (pre := [Call (request_for dataUrl modelId); Sleep (300 * attempt)]);
        [cbn; eauto|].
      rewrite <- app_assoc. apply IH.
Qed.

Lemma try_catch_shape (m : M (option jsstring)) (h : jsval -> M (option jsstring))
    (tr : list event) :
  run_shape gen tr (m tr) ->
  (forall e tr', run_shape gen tr' (h e tr')) ->
  run_shape gen tr (try_catch m h tr).
Proof.
  intros Hm Hh. unfold try_catch.
  destruct (m tr) as [[text|e] tr'] eqn:E; [exact Hm|].
  destruct Hm as (evs & Htr & Hr). simpl in Htr, Hr. subst tr'.
  apply run_shape_after with (pre := evs); [exact Hr|apply Hh].
Qed.

Lemma invoke_models_shape (tr : list event) :
  run_shape gen tr (invoke_models gen dataUrl tr).
Proof.
  unfold invoke_models, callModelWithRetries.
  apply try_catch_shape; [apply retry_loop_shape|].
  intros primaryErr tr1.
  apply try_catch_shape; [apply retry_loop_shape|].
  intros fallbackErr tr2. apply throw_shape.
Qed.

(** A call that resolved is the last event of a run. *)
Lemma resolved_call_is_last (n : nat) (pre post evs0 : list event) (req req' : gen_request)
    (text : option jsstring) :
  pre ++ Call req :: post = evs0 ++ [Call req'] ->
  all_rejected gen n evs0 ->
  gen (n + ncalls pre)%nat req = Resolves text ->
  post = [] /\ pre = evs0 /\ req = req'.
Proof.
  revert n evs0; induction pre as [|ev pre IH]; intros n evs0 Heq Hrej Hres.
  - destruct evs0 as [|ev0 evs0]; simpl in Heq.
    + injection Heq as -> ->. auto.
    + injection Heq as <- Hpost. simpl in Hrej. destruct Hrej as [[err He] _].
      unfold ncalls in Hres. simpl in Hres. rewrite Nat.add_0_r in Hres. congruence.
  - destruct evs0 as [|ev0 evs0]; simpl in Heq.
    + injection Heq as -> Hnil. destruct pre; discriminate.
    + injection Heq as <- Heq.
      destruct ev as [r|ms]; simpl in Hrej.
      * destruct Hrej as [_ Hrej].
        destruct (IH (S n) evs0 Heq Hrej) as (-> & -> & ->).
        { unfold ncalls in *. simpl in Hres. now rewrite Nat.add_succ_comm. }
        auto.
      * destruct (IH n evs0 Heq Hrej) as (-> & -> & ->); [exact Hres|auto].
Qed.

(** One turn of the retry loop, by what the model does. *)
Lemma retry_turn_resolved (modelId : jsstring) (k : nat) (attempt : Z)
    (lastError : jsval) (tr : list event) (text : option jsstring) :
  gen (ncalls tr) (request_for dataUrl modelId) = Resolves text ->
  retry_loop gen dataUrl modelId (S k) attempt lastError tr =
    (Normal text, tr ++ [Call (request_for dataUrl modelId)]).
Proof.
  intro Hg. cbn [retry_loop]. unfold try_catch, call_generateText.
  fold (ncalls tr). now rewrite Hg.
Qed.

Lemma retry_turn_permanent (modelId : jsstring) (k : nat) (attempt : Z)
    (lastError err : jsval) (tr : list event) :
  gen (ncalls tr) (request_for dataUrl modelId) = Rejects err ->
  is_permanent (message_of err) = true ->
  retry_loop gen dataUrl modelId (S k) attempt lastError tr =
    (Throw err, tr ++ [Call (request_for dataUrl modelId)]).
Proof.
  intros Hg Hp. cbn [retry_loop]. unfold try_catch, call_generateText.
  fold (ncalls tr). now rewrite Hg, Hp.
Qed.

Lemma retry_turn_transient (modelId : jsstring) (k : nat) (attempt : Z)
    (lastError err : jsval) (tr : list event) :
  gen (ncalls tr) (request_for dataUrl modelId) = Rejects err ->
  is_permanent (message_of err) = false ->
  retry_loop gen dataUrl modelId (S k) attempt lastError tr =
    retry_loop gen dataUrl modelId k (attempt + 1) err
      (tr ++ [Call (request_for dataUrl modelId); Sleep (300 * attempt)]).
Proof.
  intros Hg Hp. cbn [retry_loop]. unfold try_catch, call_generateText.
  fold (ncalls tr). rewrite Hg, Hp. unfold bind, sleep.
  now rewrite <- app_assoc.
Qed.

Lemma transient_inv (o : outcome) :
  transient o ->
  o = Rejects (thrown o) /\ is_permanent (message_of (thrown o)) = false.
Proof. destruct o; simpl; [tauto|auto]. Qed.

(** Three transient failures in a row exhaust the loop of a model. *)
Lemma retry_loop_exhausted (modelId : jsstring) (tr : list event) :
  let req := request_for dataUrl modelId in
  (forall i, (i < 3)%nat -> transient (gen (ncalls tr + i) req)) ->
  callModelWithRetries gen dataUrl modelId 3 tr =
    (Throw (thrown (gen (ncalls tr + 2) req)),
     tr ++ [Call req; Sleep 300; Call req; Sleep 600; Call req; Sleep 900]).
Proof.
  intros req H. unfold callModelWithRetries. subst req.
  change (Z.to_nat 3) with 3%nat.
  destruct (transient_inv _ (H 0%nat ltac:(lia))) as [H0 P0].
  destruct (transient_inv _ (H 1%nat ltac:(lia))) as [H1 P1].
  destruct (transient_inv _ (H 2%nat ltac:(lia))) as [H2 P2].
  rewrite Nat.add_0_r in H0, P0.
  set (req := request_for dataUrl modelId).
  rewrite (@retry_turn_transient modelId 2 1 VNull _ tr H0 P0). fold req.
  rewrite (@retry_turn_transient modelId 1 (1 + 1) _ (thrown (gen (ncalls tr + 1) req))
             (tr ++ [Call req; Sleep (300 * 1)])).
  2: { rewrite ncalls_app. exact H1. }
  2: exact P1.
  fold req.
  rewrite (@retry_turn_transient modelId 0 (1 + 1 + 1) _ (thrown (gen (ncalls tr + 2) req))
             ((tr ++ [Call req; Sleep (300 * 1)]) ++ [Call req; Sleep (300 * (1 + 1))])).
  2: { rewrite !ncalls_app. cbn. rewrite <- Nat.add_assoc. exact H2. }
  2: exact P2.
  fold req.
  cbn [retry_loop]. unfold throw. rewrite <- !app_assoc. reflexivity.
Qed.

End InvokerFacts.

(** C2: when the three attempts of the primary model and the three attempts
    of the fallback model all fail with transient errors, the invoker makes
    exactly 3 calls of the primary and then 3 of the fallback, 6 in all, and
    throws the primary's last error, or the fallback's last error when the
    primary's is not a truthy value; the handler answers 500 with it. *)
Theorem C2_all_attempts_transient (gen : nat -> gen_request -> outcome) (image : File) :
  let P := request_for (dataUrl_of image) PRIMARY_MODEL in
  let F := request_for (dataUrl_of image) FALLBACK_MODEL in
  let primaryErr := thrown (gen 2%nat P) in
  let fallbackErr := thrown (gen 5%nat F) in
  let surfaced := if truthy primaryErr then primaryErr else fallbackErr in
  let tr := [Call P; Sleep 300; Call P; Sleep 600; Call P; Sleep 900;
             Call F; Sleep 300; Call F; Sleep 600; Call F; Sleep 900] in
  (forall i, (i < 3)%nat -> transient (gen i P)) ->
  (forall i, (i < 3)%nat -> transient (gen (3 + i)%nat F)) ->
  invoke_models gen (dataUrl_of image) [] = (Throw surfaced, tr) /\
  List.length (calls_of PRIMARY_MODEL tr) = 3%nat /\
  List.length (calls_of FALLBACK_MODEL tr) = 3%nat /\
  ncalls tr = 6%nat /\
  sleeps_of tr = [300; 600; 900; 300; 600; 900] /\
  (forall m, primaryErr = VError m -> surfaced = primaryErr) /\
  POST gen (Some image) [] = (Normal (failure_response surfaced), tr).
Proof.
  intros P F primaryErr fallbackErr surfaced tr HP HF.
  assert (Hinv : invoke_models gen (dataUrl_of image) [] = (Throw surfaced, tr)).
  { subst tr surfaced primaryErr fallbackErr P F.
    unfold invoke_models, try_catch.
    rewrite (@retry_loop_exhausted gen (dataUrl_of image) PRIMARY_MODEL [] HP).
    erewrite (@retry_loop_exhausted gen (dataUrl_of image) FALLBACK_MODEL) by exact HF.
    reflexivity. }
  split; [exact Hinv|].
  split; [reflexivity|]. split; [reflexivity|]. split; [reflexivity|].
  split; [reflexivity|].
  split.
  - intros m Hm. unfold surfaced. now rewrite Hm.
  - unfold POST, try_catch, bind. rewrite Hinv. reflexivity.
Qed.

Lemma C2_witness :
  fst (invoke_models always_boom (dataUrl_of a_png) []) =
    Throw (VError (str "rate limit reached")).
Proof.
  pose proof (C2_all_attempts_transient always_boom a_png) as H.
  cbv zeta in H.
  destruct H as [H _]; [intros i _; reflexivity|intros i _; reflexivity|].
  rewrite H. reflexivity.
Defined.

(** C3: when the first attempt of the primary model fails with a message that
    contains a permanent-error substring, the invoker makes exactly 1 call of
    the primary model, waits for nothing, and goes on with the retry loop of
    the fallback model: the next event is the fallback's first call. *)
Theorem C3_permanent_primary (gen : nat -> gen_request -> outcome)
    (dataUrl : jsstring) (err : jsval) :
  let P := request_for dataUrl PRIMARY_MODEL in
  let F := request_for dataUrl FALLBACK_MODEL in
  gen 0%nat P = Rejects err ->
  is_permanent (message_of err) = true ->
  callModelWithRetries gen dataUrl PRIMARY_MODEL 3 [] = (Throw err, [Call P]) /\
  sleeps_of (snd (callModelWithRetries gen dataUrl PRIMARY_MODEL 3 [])) = [] /\
  invoke_models gen dataUrl [] =
    try_catch (callModelWithRetries gen dataUrl FALLBACK_MODEL 3)
      (fun fallbackErr => throw (if truthy err then err else fallbackErr))
      [Call P] /\
  (exists rest, snd (invoke_models gen dataUrl []) = Call P :: Call F :: rest) /\
  List.length (calls_of PRIMARY_MODEL (snd (invoke_models gen dataUrl []))) = 1%nat.
Proof.
  intros P F Hg Hp.
  assert (H1 : callModelWithRetries gen dataUrl PRIMARY_MODEL 3 [] = (Throw err, [Call P])).
  { unfold callModelWithRetries. change (Z.to_nat 3) with 3%nat.
    now rewrite (@retry_turn_permanent gen dataUrl PRIMARY_MODEL 2 1 VNull err [] Hg Hp). }
  assert (H2 : invoke_models gen dataUrl [] =
    try_catch (callModelWithRetries gen dataUrl FALLBACK_MODEL 3)
      (fun fallbackErr => throw (if truthy err then err else fallbackErr)) [Call P]).
  { unfold invoke_models at 1. unfold try_catch at 1. now rewrite H1. }
  split; [exact H1|]. split; [now rewrite H1|]. split; [exact H2|].
  rewrite H2. unfold try_catch, callModelWithRetries. change (Z.to_nat 3) with 3%nat.
  cbn [retry_loop]. unfold try_catch, call_generateText, bind, sleep, throw. cbn [filter is_call List.length app].
  fold F.
  assert (HPF : JS.eqb (model F) PRIMARY_MODEL = false) by reflexivity.
  assert (HPP : JS.eqb (model P) PRIMARY_MODEL = true) by reflexivity.
  unfold calls_of.
  repeat match goal with
  | |- context [gen ?n F] => destruct (gen n F) as [?t|?e]; cbn [filter is_call List.length app fst snd]
  | |- context [is_permanent (message_of ?e)] =>
      destruct (is_permanent (message_of e)); cbn [filter is_call List.length app fst snd]
  end;
  (split; [eexists; reflexivity|]);
  cbn [filter]; rewrite ?HPF, ?HPP; reflexivity.
Qed.

Lemma C3_witness :
  snd (invoke_models primary_gone (dataUrl_of a_png) []) =
    [Call (request_for (dataUrl_of a_png) PRIMARY_MODEL);
     Call (request_for (dataUrl_of a_png) FALLBACK_MODEL)].
Proof.
  pose proof (@C3_permanent_primary primary_gone (dataUrl_of a_png) _
                eq_refl eq_refl) as (_ & _ & H & _).
  rewrite H. reflexivity.
Defined.

(** ** The handler *)

Section HandlerFacts.

Variable gen : nat -> gen_request -> outcome.

Lemma all_rejected_at (n : nat) (pre post : list event) (req : gen_request) :
  all_rejected gen n (pre ++ Call req :: post) ->
  exists err, gen (n + ncalls pre)%nat req = Rejects err.
Proof.
  revert n; induction pre as [|[r|ms] pre IH]; intros n H; simpl in H.
  - destruct H as [H _]. unfold ncalls. simpl. now rewrite Nat.add_0_r.
  - destruct H as [_ H]. apply IH in H.
    unfold ncalls in *. simpl. now rewrite <- Nat.add_succ_comm.
  - now apply IH in H.
Qed.

Lemma POST_answer (image : File) (tr : list event) :
  POST gen (Some image) tr =
    (Normal (answer (fst (invoke_models gen (dataUrl_of image) tr))),
     snd (invoke_models gen (dataUrl_of image) tr)).
Proof.
  unfold POST, try_catch, bind.
  destruct (invoke_models gen (dataUrl_of image) tr) as [[[text|]|e] tr']; simpl;
    try reflexivity.
  now destruct (truthy_string text).
Qed.

(** What resolved in a run is what the invoker returned, and it is the last
    event of the run. *)
Lemma resolved_in_run (image : File) (pre post : list event) (req : gen_request)
    (text : option jsstring) :
  snd (invoke_models gen (dataUrl_of image) []) = pre ++ Call req :: post ->
  gen (ncalls pre) req = Resolves text ->
  post = [] /\ fst (invoke_models gen (dataUrl_of image) []) = Normal text.
Proof.
  intros Htr Hres.
  destruct (invoke_models_shape gen (dataUrl_of image) []) as (evs & Hevs & Hr).
  simpl in Hevs. rewrite Htr in Hevs.
  destruct (fst (invoke_models gen (dataUrl_of image) [])) as [t|e].
  - destruct Hr as (evs0 & req' & -> & Hrej & Hg).
    destruct (@resolved_call_is_last gen 0 pre post evs0 req req' text Hevs Hrej Hres)
      as (-> & -> & ->).
    simpl in Hg. split; [reflexivity|congruence].
  - rewrite <- Hevs in Hr. apply all_rejected_at in Hr as [err Hr].
    simpl in Hr. congruence.
Qed.

(** The first event of a run is the first call of the primary model. *)
Lemma try_catch_grows (m : M (option jsstring)) (h : jsval -> M (option jsstring))
    (tr tr0 : list event) :
  (exists evs, snd (m tr) = tr0 ++ evs) ->
  (forall e tr', run_shape gen tr' (h e tr')) ->
  exists evs, snd (try_catch m h tr) = tr0 ++ evs.
Proof.
  intros [evs Hm] Hh. unfold try_catch.
  destruct (m tr) as [[t|e] tr1]; simpl in Hm; subst tr1.
  - now exists evs.
  - destruct (Hh e (tr0 ++ evs)) as (evs' & H' & _).
    exists (evs ++ evs'). now rewrite H', app_assoc.
Qed.

Lemma retry_loop_first_call (dataUrl modelId : jsstring) (k : nat) (attempt : Z)
    (lastError : jsval) :
  exists evs,
    snd (retry_loop gen dataUrl modelId (S k) attempt lastError []) =
      [Call (request_for dataUrl modelId)] ++ evs.
Proof.
  destruct (gen (ncalls []) (request_for dataUrl modelId)) as [text|err] eqn:Hg.
  - rewrite (@retry_turn_resolved gen dataUrl modelId k attempt lastError [] text Hg).
    now exists [].
  - destruct (is_permanent (message_of err)) eqn:Hp.
    + rewrite (@retry_turn_permanent gen dataUrl modelId k attempt lastError err [] Hg Hp).
      now exists [].
    + rewrite (@retry_turn_transient gen dataUrl modelId k attempt lastError err [] Hg Hp).
      destruct (retry_loop_shape gen dataUrl modelId k (attempt + 1) err
                  ([] ++ [Call (request_for dataUrl modelId); Sleep (300 * attempt)]))
        as (evs & H & _).
      rewrite H. now exists (Sleep (300 * attempt) :: evs).
Qed.

Lemma invoke_models_first_call (image : File) :
  exists rest,
    snd (invoke_models gen (dataUrl_of image) []) =
      Call (request_for (dataUrl_of image) PRIMARY_MODEL) :: rest.
Proof.
  unfold invoke_models, callModelWithRetries. change (Z.to_nat 3) with 3%nat.
  apply (@try_catch_grows _ _ [] [Call (request_for (dataUrl_of image) PRIMARY_MODEL)]).
  - apply retry_loop_first_call.
  - intros primaryErr tr1.
    apply try_catch_shape; [apply retry_loop_shape|].
    intros fallbackErr tr2. apply throw_shape.
Qed.

End HandlerFacts.

(** C4, as stated, fails: an empty text from the primary model is not treated
    like a transient error.  After a transient error the run goes on to six
    calls; after an empty text it stops at the first call, and the fallback
    model is never tried. *)
Lemma C4_counterexample :
  let P := request_for (dataUrl_of a_png) PRIMARY_MODEL in
  snd (POST always_empty (Some a_png) []) = [Call P] /\
  calls_of FALLBACK_MODEL (snd (POST always_empty (Some a_png) [])) = [] /\
  ncalls (snd (POST always_boom (Some a_png) [])) = 6%nat.
Proof. repeat split; reflexivity. Qed.

(** C4 (amended): a model call that returns an empty or null text ends the
    invocation at once, with no retry, no wait and no fallback after it; the
    handler then answers 500 with the details [Groq returned empty response],
    so an empty model text is never answered as a success. *)
Theorem C4_empty_text_ends_the_run (gen : nat -> gen_request -> outcome)
    (image : File) (resp : response) (pre post : list event)
    (req : gen_request) (text : option jsstring) :
  POST gen (Some image) [] = (Normal resp, pre ++ Call req :: post) ->
  gen (ncalls pre) req = Resolves text ->
  falsy_text text = true ->
  post = [] /\
  resp = failure_response (VError (str "Groq returned empty response")) /\
  status resp = 500.
Proof.
  intros Hpost Hres Hfalsy. rewrite POST_answer in Hpost.
  injection Hpost as Hresp Htr.
  destruct (resolved_in_run gen image pre post req text Htr Hres) as [-> Hfst].
  rewrite Hfst in Hresp. subst resp.
  destruct text as [[|c t]|]; simpl in Hfalsy; try discriminate; auto.
Qed.

Lemma C4_witness :
  status (match fst (POST always_empty (Some a_png) []) with
          | Normal resp => resp
          | Throw _ => {| status := 0; json := NoImage [] |}
          end) = 500.
Proof.
  exact (proj2 (proj2 (@C4_empty_text_ends_the_run always_empty a_png _ [] []
                         (request_for (dataUrl_of a_png) PRIMARY_MODEL) (Some [])
                         eq_refl eq_refl eq_refl))).
Defined.

(** C7, as stated, fails: the confidence is computed on the text as the model
    returned it, not on the trimmed text.  For [a] followed by forty spaces
    the response carries the text [a] with the confidence of the 41 code
    units, 0.4, while the confidence of [a] is 0.25. *)
Lemma C7_counterexample :
  let raw := str "a                                        " in
  fst (POST reads_padded (Some a_png) []) =
    Normal {| status := 200; json := Extracted (str "a") (calculateConfidence raw) |} /\
  trim raw = str "a" /\
  calculateConfidence raw = 0.4%float /\
  calculateConfidence (trim raw) = 0.25%float /\
  calculateConfidence raw <> calculateConfidence (trim raw).
Proof.
  repeat split; try (vm_compute; reflexivity).
  intro H. apply (f_equal Prim2SF) in H. vm_compute in H. discriminate.
Qed.

(** C7 (amended): every request that ends in success carries the trimmed text
    of what the model returned together with the confidence of the text as
    returned, before trimming: the body is [{success: true, text:
    text.trim(), confidence: calculateConfidence(text)}] for the text of the
    call that resolved. *)
Theorem C7_success_response (gen : nat -> gen_request -> outcome)
    (image : File) (resp : response) (tr : list event) :
  POST gen (Some image) [] = (Normal resp, tr) ->
  status resp = 200 ->
  exists (text : jsstring) (pre : list event) (req : gen_request),
    tr = pre ++ [Call req] /\
    gen (ncalls pre) req = Resolves (Some text) /\
    text <> [] /\
    json resp = Extracted (trim text) (calculateConfidence text).
Proof.
  intros Hpost Hok. rewrite POST_answer in Hpost.
  injection Hpost as Hresp Htr.
  destruct (invoke_models_shape gen (dataUrl_of image) []) as (evs & Hevs & Hr).
  simpl in Hevs. rewrite Htr in Hevs. subst evs.
  destruct (fst (invoke_models gen (dataUrl_of image) [])) as [[text|]|e];
    simpl in Hresp; subst resp; try discriminate.
  destruct text as [|c t]; try discriminate.
  destruct Hr as (evs0 & req & -> & _ & Hg).
  exists (c :: t), evs0, req. repeat split; try assumption; discriminate.
Qed.

Lemma C7_witness :
  exists (text : jsstring) (pre : list event) (req : gen_request),
    [Call (request_for (dataUrl_of a_png) PRIMARY_MODEL)] = pre ++ [Call req] /\
    reads_hello (ncalls pre) req = Resolves (Some text) /\
    text <> [] /\
    Extracted (str "hello") 0.25 = Extracted (trim text) (calculateConfidence text).
Proof.
  exact (@C7_success_response reads_hello a_png
           {| status := 200; json := Extracted (str "hello") 0.25 |}
           [Call (request_for (dataUrl_of a_png) PRIMARY_MODEL)]
           eq_refl eq_refl).
Defined.

(** C8, as stated, fails: the handler does not look at the MIME type.  A file
    declared [text/plain] is sent to the model like any other, and the request
    succeeds. *)
Lemma C8_counterexample :
  POST reads_hello (Some a_text_file) [] =
    (Normal {| status := 200; json := Extracted (str "hello") 0.25 |},
     [Call (request_for (str "data:text/plain;base64,aGk=") PRIMARY_MODEL)]).
Proof. vm_compute. reflexivity. Qed.

(** C8 (amended): the handler validates only that an image was supplied.
    Without one it answers 400 with [No image provided] and calls no model.
    With one, whatever its declared MIME type, it calls the primary model
    with the data URL that embeds the declared type ([image/png] when the
    type is empty). *)
Theorem C8_input_validation (gen : nat -> gen_request -> outcome) :
  (forall tr,
     POST gen None tr =
       (Normal {| status := 400; json := NoImage (str "No image provided") |}, tr)) /\
  (forall image : File,
     exists rest,
       snd (POST gen (Some image) []) =
         Call (request_for (dataUrl_of image) PRIMARY_MODEL) :: rest) /\
  (forall image : File,
     dataUrl_of image =
       str "data:" ++
       (if truthy_string (file_type image) then file_type image else str "image/png") ++
       str ";base64," ++ base64 (file_bytes image)).
Proof.
  split; [reflexivity|]. split; [|reflexivity].
  intro image. rewrite POST_answer. cbn [snd].
  apply invoke_models_first_call.
Qed.

(** ** Binary64 arithmetic: the operations of [SpecFloat] round correctly *)

Module FloatFacts.
Local Open Scope R_scope.

Lemma bpow_gt_0 e : 0 < bpow e.
Proof. apply powerRZ_lt. lra. Qed.

Lemma bpow_add a b : bpow (a + b) = bpow a * bpow b.
Proof. apply powerRZ_add. lra. Qed.

Lemma bpow_0 : bpow 0 = 1.
Proof. reflexivity. Qed.

Lemma bpow_1 : bpow 1 = 2.
Proof. unfold bpow. simpl. lra. Qed.

Lemma bpow_opp e : bpow (- e) = / bpow e.
Proof. apply powerRZ_neg'. Qed.

Lemma bpow_IZR k : (0 <= k)%Z -> bpow k = IZR (2 ^ k).
Proof.
  intro H. pattern k. apply natlike_ind; [reflexivity| |exact H].
  intros x Hx IH. unfold Z.succ. rewrite bpow_add, IH, bpow_1.
  rewrite Z.pow_add_r by lia. rewrite mult_IZR. simpl (2 ^ 1)%Z. lra.
Qed.

Lemma bpow_ge_1 k : (0 <= k)%Z -> 1 <= bpow k.
Proof.
  intro H. rewrite bpow_IZR by exact H. apply IZR_le.
  pose proof (Z.pow_pos_nonneg 2 k). lia.
Qed.

Lemma bpow_le a b : (a <= b)%Z -> bpow a <= bpow b.
Proof.
  intro H. replace b with (a + (b - a))%Z by lia. rewrite bpow_add.
  pose proof (bpow_ge_1 (b - a) ltac:(lia)). pose proof (bpow_gt_0 a). nra.
Qed.

Lemma bpow_lt a b : (a < b)%Z -> bpow a < bpow b.
Proof.
  intro H. replace b with (a + 1 + (b - a - 1))%Z by lia.
  rewrite !bpow_add, bpow_1.
  pose proof (bpow_ge_1 (b - a - 1) ltac:(lia)). pose proof (bpow_gt_0 a). nra.
Qed.

(** digits *)
Lemma digits2_pos_bounds (m : positive) :
  (2 ^ (Zpos (digits2_pos m) - 1) <= Zpos m < 2 ^ Zpos (digits2_pos m))%Z.
Proof.
  induction m as [m IH|m IH|]; cbn [digits2_pos].
  - rewrite Pos2Z.inj_succ. replace (Z.succ (Zpos (digits2_pos m)) - 1)%Z with (Z.succ (Zpos (digits2_pos m) - 1)) by lia.
    rewrite !Z.pow_succ_r by lia. lia.
  - rewrite Pos2Z.inj_succ. replace (Z.succ (Zpos (digits2_pos m)) - 1)%Z with (Z.succ (Zpos (digits2_pos m) - 1)) by lia.
    rewrite !Z.pow_succ_r by lia. lia.
  - simpl. lia.
Qed.

Lemma digits2_pos_unique (m : positive) (d : Z) :
  (2 ^ (d - 1) <= Zpos m < 2 ^ d)%Z -> (0 < d)%Z -> Zpos (digits2_pos m) = d.
Proof.
  intros H Hd. pose proof (digits2_pos_bounds m) as B.
  destruct (Z.lt_trichotomy (Zpos (digits2_pos m)) d) as [L|[E|G]]; [|exact E|].
  - assert (2 ^ Zpos (digits2_pos m) <= 2 ^ (d - 1))%Z by (apply Z.pow_le_mono_r; lia). lia.
  - assert (2 ^ d <= 2 ^ (Zpos (digits2_pos m) - 1))%Z by (apply Z.pow_le_mono_r; lia). lia.
Qed.

(** one shift step *)
Lemma shr_1_located (x : R) (mrs : shr_record) :
  (0 <= shr_m mrs)%Z ->
  located x (shr_m mrs) (loc_of_shr_record mrs) ->
  (0 <= shr_m (shr_1 mrs))%Z /\
  located (x / 2) (shr_m (shr_1 mrs)) (loc_of_shr_record (shr_1 mrs)).
Proof.
  destruct mrs as [m r s]. cbn [shr_m]. intros Hm H.
  destruct m as [|p|p]; [| |lia].
  - destruct r, s; cbn in *; split; try lia; lra.
  - destruct p as [p|p|].
    + assert (E : IZR (Zpos p~1) = 2 * IZR (Zpos p) + 1)
        by (rewrite Pos2Z.inj_xI, plus_IZR, mult_IZR; reflexivity).
      destruct r, s; cbn [shr_1 shr_m loc_of_shr_record located orb] in *;
        rewrite E in H; split; try lia; lra.
    + assert (E : IZR (Zpos p~0) = 2 * IZR (Zpos p))
        by (rewrite Pos2Z.inj_xO, mult_IZR; reflexivity).
      destruct r, s; cbn [shr_1 shr_m loc_of_shr_record located orb] in *;
        rewrite E in H; split; try lia; lra.
    + destruct r, s; cbn in *; split; try lia; lra.
Qed.

Lemma bpow_xI p : bpow (Zpos p~1) = 2 * bpow (Zpos p) * bpow (Zpos p).
Proof.
  rewrite Pos2Z.inj_xI. replace (2 * Zpos p + 1)%Z with (1 + Zpos p + Zpos p)%Z by lia.
  now rewrite !bpow_add, bpow_1.
Qed.

Lemma bpow_xO p : bpow (Zpos p~0) = bpow (Zpos p) * bpow (Zpos p).
Proof.
  rewrite Pos2Z.inj_xO. replace (2 * Zpos p)%Z with (Zpos p + Zpos p)%Z by lia.
  now rewrite !bpow_add.
Qed.

Lemma iter_shr_located (p : positive) :
  forall (x : R) (mrs : shr_record),
    (0 <= shr_m mrs)%Z ->
    located x (shr_m mrs) (loc_of_shr_record mrs) ->
    (0 <= shr_m (SpecFloat.iter_pos shr_1 p mrs))%Z /\
    located (x / bpow (Zpos p)) (shr_m (SpecFloat.iter_pos shr_1 p mrs))
      (loc_of_shr_record (SpecFloat.iter_pos shr_1 p mrs)).
Proof.
  induction p as [p IH|p IH|]; intros x mrs Hm H; cbn [SpecFloat.iter_pos].
  - destruct (shr_1_located x mrs Hm H) as [Hm1 H1].
    destruct (IH _ _ Hm1 H1) as [Hm2 H2].
    destruct (IH _ _ Hm2 H2) as [Hm3 H3].
    split; [exact Hm3|].
    replace (x / bpow (Zpos p~1)) with (x / 2 / bpow (Zpos p) / bpow (Zpos p)); [exact H3|].
    rewrite bpow_xI. pose proof (bpow_gt_0 (Zpos p)). field. lra.
  - destruct (IH _ _ Hm H) as [Hm2 H2].
    destruct (IH _ _ Hm2 H2) as [Hm3 H3].
    split; [exact Hm3|].
    replace (x / bpow (Zpos p~0)) with (x / bpow (Zpos p) / bpow (Zpos p)); [exact H3|].
    rewrite bpow_xO. pose proof (bpow_gt_0 (Zpos p)). field. lra.
  - destruct (shr_1_located x mrs Hm H) as [Hm1 H1].
    split; [exact Hm1|]. now rewrite bpow_1.
Qed.

Lemma loc_of_shr_record_of_loc (m : Z) (l : location) :
  loc_of_shr_record (shr_record_of_loc m l) = l /\
  shr_m (shr_record_of_loc m l) = m.
Proof. destruct l as [|[| |]]; split; reflexivity. Qed.

Lemma located_bounds (x : R) (m : Z) (l : location) :
  located x m l -> IZR m <= x < IZR m + 1.
Proof. destruct l as [|[| |]]; simpl; lra. Qed.

Lemma fexp_normal (e : Z) : (-1074 <= e - 53)%Z -> fexp prec emax e = (e - 53)%Z.
Proof. unfold fexp, SpecFloat.emin, prec, emax. lia. Qed.

(** the first shift of [binary_round_aux] *)
Lemma shr_fexp_located (mx ex : Z) (lx : location) (x : R) (d : Z) :
  (0 < mx)%Z -> Zdigits2 mx = d -> (53 <= d)%Z -> (-1074 <= d + ex - 53)%Z ->
  located x mx lx ->
  exists mrs, shr_fexp prec emax mx ex lx = (mrs, (ex + d - 53)%Z) /\
    (0 <= shr_m mrs)%Z /\
    located (x / bpow (d - 53)) (shr_m mrs) (loc_of_shr_record mrs).
Proof.
  intros Hm Hd H53 He H. unfold shr_fexp. rewrite Hd.
  rewrite fexp_normal by lia.
  replace (d + ex - 53 - ex)%Z with (d - 53)%Z by lia.
  destruct (loc_of_shr_record_of_loc mx lx) as [El Em].
  unfold shr. destruct (d - 53)%Z as [|p|p] eqn:Ek; [| |lia].
  - exists (shr_record_of_loc mx lx). rewrite El, Em.
    split; [f_equal; lia|]. split; [lia|].
    rewrite bpow_0. now replace (x / 1) with x by field.
  - exists (SpecFloat.iter_pos shr_1 p (shr_record_of_loc mx lx)).
    split; [f_equal; lia|].
    apply iter_shr_located; rewrite ?El, ?Em; [lia|exact H].
Qed.

Lemma rne_bounds (m : Z) (l : location) :
  (m <= round_nearest_even m l <= m + 1)%Z.
Proof. destruct l as [|[| |]]; simpl; try lia. destruct (Z.even m); lia. Qed.

Lemma Zdigits2_53 (m : Z) : (2 ^ 52 <= m < 2 ^ 53)%Z -> Zdigits2 m = 53%Z.
Proof.
  intro H. destruct m as [|p|p]; try lia. simpl.
  apply digits2_pos_unique; [exact H|lia].
Qed.

Lemma IZR_pow2_bpow k : (0 <= k)%Z -> IZR (2 ^ k) = bpow k.
Proof. intro H. now rewrite bpow_IZR. Qed.

Lemma binary_round_aux_correct (sx : bool) (mx ex : Z) (lx : location) (x : R) (d : Z) :
  (0 < mx)%Z -> Zdigits2 mx = d -> (53 <= d)%Z ->
  (-1074 <= d + ex - 53 <= 970)%Z ->
  located x mx lx ->
  exists m3 e3,
    binary_round_aux prec emax sx mx ex lx = S754_finite sx m3 e3 /\
    normal m3 e3 /\
    rounds_to (x * bpow ex) (F2R m3 e3) /\
    (d + ex - 53 <= e3 <= d + ex - 52)%Z.
Proof.
  intros Hm Hd H53 He H.
  destruct (shr_fexp_located mx ex lx x d Hm Hd H53 ltac:(lia) H) as (mrs & E1 & Hm1 & H1).
  unfold binary_round_aux. rewrite E1.
  set (m1 := shr_m mrs) in *. set (l1 := loc_of_shr_record mrs) in *.
  set (e1 := (ex + d - 53)%Z).
  (* bounds on m1 *)
  assert (Hdig : (2 ^ (d - 1) <= mx < 2 ^ d)%Z).
  { destruct mx as [|p|p]; try lia. simpl in Hd. subst d. apply digits2_pos_bounds. }
  pose proof (located_bounds _ _ _ H) as Bx.
  pose proof (located_bounds _ _ _ H1) as B1.
  assert (Hx : bpow (d - 1) <= x < bpow d).
  { rewrite <- !IZR_pow2_bpow by lia. split.
    - apply Rle_trans with (IZR mx); [apply IZR_le; lia|lra].
    - apply Rlt_le_trans with (IZR mx + 1); [lra|].
      rewrite <- plus_IZR. apply IZR_le. lia. }
  assert (Hx1 : bpow 52 <= x / bpow (d - 53) < bpow 53).
  { pose proof (bpow_gt_0 (d - 53)) as Hp.
    replace (d - 1)%Z with (52 + (d - 53))%Z in Hx by lia.
    replace d with (53 + (d - 53))%Z in Hx at 2 by lia.
    rewrite !bpow_add in Hx. split.
    - apply Rmult_le_reg_r with (bpow (d - 53)); [exact Hp|].
      replace (x / bpow (d - 53) * bpow (d - 53)) with x by (field; lra). lra.
    - apply Rmult_lt_reg_r with (bpow (d - 53)); [exact Hp|].
      replace (x / bpow (d - 53) * bpow (d - 53)) with x by (field; lra). lra. }
  assert (Hm1b : (2 ^ 52 <= m1 < 2 ^ 53)%Z).
  { rewrite <- (IZR_pow2_bpow 52), <- (IZR_pow2_bpow 53) in Hx1 by lia. split.
    - assert (IZR (2 ^ 52) < IZR (m1 + 1)) by (rewrite plus_IZR; lra).
      apply lt_IZR in H0. lia.
    - apply lt_IZR. lra. }
  pose proof (rne_bounds m1 l1) as Hr.
  set (m2 := round_nearest_even m1 l1) in *.
  assert (Hrt : rounds_to (x * bpow ex) (IZR m2 * bpow e1)).
  { exists m1, e1, l1. split; [exact Hm1b|]. split; [unfold e1; lia|]. split; [|reflexivity].
    replace (x * bpow ex / bpow e1) with (x / bpow (d - 53)); [exact H1|].
    unfold e1. replace (ex + d - 53)%Z with (ex + (d - 53))%Z by lia.
    rewrite bpow_add. pose proof (bpow_gt_0 ex). pose proof (bpow_gt_0 (d - 53)).
    field. lra. }
  destruct (Z.eq_dec m2 (2 ^ 53)) as [E2|N2].
  - (* the mantissa overflowed to 2^53 *)
    rewrite E2 in *.
    assert (E3 : shr_fexp prec emax (2 ^ 53) e1 loc_Exact =
                 (Build_shr_record (2 ^ 52) false false, (e1 + 1)%Z)).
    { unfold shr_fexp. change (Zdigits2 (2 ^ 53)) with 54%Z.
      rewrite fexp_normal by (unfold e1; lia).
      replace (54 + e1 - 53 - e1)%Z with 1%Z by lia. reflexivity. }
    rewrite E3. cbn [shr_m]. change (2 ^ 52)%Z with (Zpos (2 ^ 52)).
    assert (Hle : (e1 + 1 <=? emax - prec)%Z = true)
      by (apply Z.leb_le; unfold emax, prec, e1; lia).
    rewrite Hle. exists (2 ^ 52)%positive, (e1 + 1)%Z.
    split; [reflexivity|]. split; [split; [lia|unfold e1; lia]|].
    split; [|unfold e1; lia].
    replace (F2R (2 ^ 52) (e1 + 1)) with (IZR (2 ^ 53) * bpow e1); [exact Hrt|].
    unfold F2R. rewrite bpow_add, bpow_1.
    change (Zpos (2 ^ 52)) with (2 ^ 52)%Z.
    change (2 ^ 53)%Z with (2 * 2 ^ 52)%Z. rewrite mult_IZR. ring.
  - assert (Hm2b : (2 ^ 52 <= m2 < 2 ^ 53)%Z) by lia.
    assert (E3 : shr_fexp prec emax m2 e1 loc_Exact =
                 (Build_shr_record m2 false false, e1)).
    { unfold shr_fexp. rewrite (Zdigits2_53 m2 Hm2b).
      rewrite fexp_normal by (unfold e1; lia).
      replace (53 + e1 - 53 - e1)%Z with 0%Z by lia. reflexivity. }
    rewrite E3. cbn [shr_m].
    destruct m2 as [|p2|p2] eqn:Em2; try lia.
    assert (Hle : (e1 <=? emax - prec)%Z = true)
      by (apply Z.leb_le; unfold emax, prec, e1; lia).
    rewrite Hle. exists p2, e1.
    split; [reflexivity|]. split; [split; [lia|unfold e1; lia]|].
    split; [exact Hrt|unfold e1; lia].
Qed.

(** ** Properties of the rounding relation *)

Lemma IZR_two52 : IZR (2 ^ 52) = 4503599627370496.
Proof. reflexivity. Qed.

Lemma mantissa_bounds (m : Z) :
  (2 ^ 52 <= m < 2 ^ 53)%Z -> 4503599627370496 <= IZR m <= 9007199254740991.
Proof.
  intros [H1 H2]. split.
  - rewrite <- IZR_two52. now apply IZR_le.
  - replace 9007199254740991 with (IZR (2 ^ 53 - 1)) by reflexivity. apply IZR_le. lia.
Qed.

Lemma bpow_succ (e : Z) : bpow (e + 1) = 2 * bpow e.
Proof. rewrite bpow_add, bpow_1. ring. Qed.

Lemma rne_located_mono (m : Z) (l l' : location) (x x' : R) :
  located x m l -> located x' m l' -> x <= x' ->
  (round_nearest_even m l <= round_nearest_even m l')%Z.
Proof.
  destruct l as [|[| |]], l' as [|[| |]]; simpl; intros H H' Hx;
    try lia; try lra; destruct (Z.even m); lia.
Qed.

Lemma rne_IZR_bounds (m : Z) (l : location) :
  IZR m <= IZR (round_nearest_even m l) <= IZR m + 1.
Proof.
  pose proof (rne_bounds m l) as [H1 H2]. split.
  - now apply IZR_le.
  - rewrite <- plus_IZR. now apply IZR_le.
Qed.

Lemma scaled_value (v : R) (e : Z) : v = v / bpow e * bpow e.
Proof. pose proof (bpow_gt_0 e). field. lra. Qed.

Lemma rounds_to_mono (v v' z z' : R) :
  rounds_to v z -> rounds_to v' z' -> v <= v' -> z <= z'.
Proof.
  intros (m & e & l & Hm & He & Hl & ->) (m' & e' & l' & Hm' & He' & Hl' & ->) Hv.
  pose proof (located_bounds _ _ _ Hl) as B.
  pose proof (located_bounds _ _ _ Hl') as B'.
  pose proof (mantissa_bounds m Hm) as Mb.
  pose proof (mantissa_bounds m' Hm') as Mb'.
  pose proof (rne_IZR_bounds m l) as Rb.
  pose proof (rne_IZR_bounds m' l') as Rb'.
  pose proof (bpow_gt_0 e) as Pe. pose proof (bpow_gt_0 e') as Pe'.
  rewrite (scaled_value v e), (scaled_value v' e') in Hv.
  set (x := v / bpow e) in *. set (x' := v' / bpow e') in *.
  destruct (Z.lt_trichotomy e e') as [Lt|[Eq|Gt]].
  - assert (Hb : 2 * bpow e <= bpow e').
    { rewrite <- bpow_succ. apply bpow_le. lia. }
    apply Rle_trans with (9007199254740992 * bpow e).
    + apply Rmult_le_compat_r; lra.
    + apply Rle_trans with (4503599627370496 * bpow e'); [lra|].
      apply Rmult_le_compat_r; lra.
  - subst e'.
    assert (Hx : x <= x') by (apply Rmult_le_reg_r with (bpow e); assumption).
    apply Rmult_le_compat_r; [lra|]. apply IZR_le.
    assert (Hmm : (m <= m')%Z).
    { assert (IZR m < IZR (m' + 1)) by (rewrite plus_IZR; lra).
      apply lt_IZR in H. lia. }
    destruct (Z.eq_dec m m') as [->|Hne].
    + exact (rne_located_mono m' l l' x x' Hl Hl' Hx).
    + pose proof (rne_bounds m l). pose proof (rne_bounds m' l'). lia.
  - exfalso.
    assert (Hb : 2 * bpow e' <= bpow e).
    { rewrite <- bpow_succ. apply bpow_le. lia. }
    assert (x' * bpow e' < 9007199254740992 * bpow e').
    { apply Rmult_lt_compat_r; lra. }
    assert (4503599627370496 * bpow e <= x * bpow e).
    { apply Rmult_le_compat_r; lra. }
    lra.
Qed.

Lemma rounds_to_self (m : positive) (e : Z) :
  (2 ^ 52 <= Zpos m < 2 ^ 53)%Z -> (-1074 <= e <= 970)%Z ->
  rounds_to (F2R m e) (F2R m e).
Proof.
  intros Hm He. exists (Zpos m), e, loc_Exact.
  split; [exact Hm|]. split; [exact He|]. split; [|reflexivity].
  simpl. unfold F2R. pose proof (bpow_gt_0 e). field. lra.
Qed.

(** A rounding is functional. *)
Lemma rounds_to_unique (v z z' : R) :
  rounds_to v z -> rounds_to v z' -> z = z'.
Proof.
  intros H H'. apply Rle_antisym; eapply rounds_to_mono; eauto; lra.
Qed.

Lemma rounds_to_exact (m : positive) (e : Z) (z : R) :
  (2 ^ 52 <= Zpos m < 2 ^ 53)%Z -> (-1074 <= e <= 970)%Z ->
  rounds_to (F2R m e) z -> z = F2R m e.
Proof.
  intros Hm He H. eapply rounds_to_unique; [exact H|]. now apply rounds_to_self.
Qed.

Lemma rounds_to_pos (v z : R) : rounds_to v z -> 0 < v /\ 0 < z.
Proof.
  intros (m & e & l & Hm & He & Hl & ->).
  pose proof (located_bounds _ _ _ Hl) as B.
  pose proof (mantissa_bounds m Hm) as Mb.
  pose proof (rne_IZR_bounds m l) as Rb.
  pose proof (bpow_gt_0 e) as Pe.
  rewrite (scaled_value v e). split; apply Rmult_lt_0_compat; lra.
Qed.

Lemma Rabs_le_inv (a b : R) : Rabs a <= b -> - b <= a <= b.
Proof. unfold Rabs. destruct (Rcase_abs a); lra. Qed.

(** The relative error of a rounding is at most 2^-53. *)
Lemma rne_located_error (m : Z) (l : location) (x : R) :
  located x m l -> Rabs (IZR (round_nearest_even m l) - x) <= / 2.
Proof.
  intro H. apply Rabs_le.
  destruct l as [|[| |]]; simpl in *; try destruct (Z.even m);
    rewrite ?plus_IZR; lra.
Qed.

Lemma rounds_to_error (v z : R) :
  rounds_to v z -> Rabs (z - v) <= v / 9007199254740992.
Proof.
  intros (m & e & l & Hm & He & Hl & ->).
  pose proof (located_bounds _ _ _ Hl) as B.
  pose proof (mantissa_bounds m Hm) as Mb.
  pose proof (rne_located_error m l _ Hl) as Er.
  pose proof (bpow_gt_0 e) as Pe.
  pose proof (scaled_value v e) as Hv.
  set (x := v / bpow e) in *. rewrite Hv.
  replace (IZR (round_nearest_even m l) * bpow e - x * bpow e)
    with ((IZR (round_nearest_even m l) - x) * bpow e) by ring.
  rewrite Rabs_mult, (Rabs_pos_eq (bpow e)) by lra.
  replace (x * bpow e / 9007199254740992) with (x / 9007199254740992 * bpow e) by field.
  apply Rmult_le_compat_r; lra.
Qed.

(** ** Normal numbers and the order *)

Lemma F2R_lt_exp (m1 m2 : positive) (e1 e2 : Z) :
  (2 ^ 52 <= Zpos m1 < 2 ^ 53)%Z -> (2 ^ 52 <= Zpos m2 < 2 ^ 53)%Z ->
  (e1 < e2)%Z -> F2R m1 e1 < F2R m2 e2.
Proof.
  intros H1 H2 He. unfold F2R.
  pose proof (mantissa_bounds _ H1). pose proof (mantissa_bounds _ H2).
  pose proof (bpow_gt_0 e1) as P1.
  assert (Hb : 2 * bpow e1 <= bpow e2).
  { rewrite <- bpow_succ. apply bpow_le. lia. }
  apply Rlt_le_trans with (9007199254740992 * bpow e1).
  - apply Rmult_lt_compat_r; lra.
  - apply Rle_trans with (4503599627370496 * bpow e2); [lra|].
    apply Rmult_le_compat_r; [lra|lra].
Qed.

Lemma F2R_lt_man (m1 m2 : positive) (e : Z) :
  (Zpos m1 < Zpos m2)%Z -> F2R m1 e < F2R m2 e.
Proof.
  intro H. unfold F2R. apply Rmult_lt_compat_r; [apply bpow_gt_0|now apply IZR_lt].
Qed.

Lemma SFltb_true (m1 m2 : positive) (e1 e2 : Z) :
  (2 ^ 52 <= Zpos m1 < 2 ^ 53)%Z -> (2 ^ 52 <= Zpos m2 < 2 ^ 53)%Z ->
  SFltb (S754_finite false m1 e1) (S754_finite false m2 e2) = true ->
  F2R m1 e1 < F2R m2 e2.
Proof.
  intros H1 H2. unfold SFltb, SFcompare.
  destruct (Z.compare_spec e1 e2) as [->|L|G]; try discriminate.
  - change (Pos.compare_cont Eq m1 m2) with (Pos.compare m1 m2).
    destruct (Pos.compare_spec m1 m2); try discriminate. intros _.
    apply F2R_lt_man. lia.
  - intros _. now apply F2R_lt_exp.
Qed.

Lemma SFltb_false (m1 m2 : positive) (e1 e2 : Z) :
  (2 ^ 52 <= Zpos m1 < 2 ^ 53)%Z -> (2 ^ 52 <= Zpos m2 < 2 ^ 53)%Z ->
  SFltb (S754_finite false m1 e1) (S754_finite false m2 e2) = false ->
  F2R m2 e2 <= F2R m1 e1.
Proof.
  intros H1 H2. unfold SFltb, SFcompare.
  destruct (Z.compare_spec e1 e2) as [->|L|G]; try discriminate.
  - change (Pos.compare_cont Eq m1 m2) with (Pos.compare m1 m2).
    destruct (Pos.compare_spec m1 m2) as [->|L|G]; try discriminate; intros _.
    + lra.
    + apply Rlt_le, F2R_lt_man. lia.
  - intros _. apply Rlt_le. now apply F2R_lt_exp.
Qed.

Lemma F2R_inj (m1 m2 : positive) (e1 e2 : Z) :
  (2 ^ 52 <= Zpos m1 < 2 ^ 53)%Z -> (2 ^ 52 <= Zpos m2 < 2 ^ 53)%Z ->
  F2R m1 e1 = F2R m2 e2 -> m1 = m2 /\ e1 = e2.
Proof.
  intros H1 H2 E.
  destruct (Z.lt_trichotomy e1 e2) as [L|[->|G]].
  - pose proof (F2R_lt_exp m1 m2 e1 e2 H1 H2 L). lra.
  - split; [|reflexivity].
    destruct (Pos.lt_total m1 m2) as [L|[->|G]]; [|reflexivity|].
    + pose proof (F2R_lt_man m1 m2 e2 ltac:(lia)). lra.
    + pose proof (F2R_lt_man m2 m1 e2 ltac:(lia)). lra.
  - pose proof (F2R_lt_exp m2 m1 e2 e1 H2 H1 ltac:(lia)). lra.
Qed.

(** ** The operations *)

Lemma pos_iter_xO (m d : positive) :
  Zpos (Pos.iter xO m d) = (Zpos m * 2 ^ Zpos d)%Z.
Proof.
  induction d as [|d IH] using Pos.peano_ind.
  - simpl. lia.
  - rewrite Pos.iter_succ, Pos2Z.inj_xO, IH, Pos2Z.inj_succ, Z.pow_succ_r by lia. ring.
Qed.

Lemma shl_align_shift (mx : positive) (ex ex' : Z) :
  (ex' <= ex)%Z ->
  exists m', shl_align mx ex ex' = (m', ex') /\
    Zpos m' = (Zpos mx * 2 ^ (ex - ex'))%Z.
Proof.
  intro H. unfold shl_align. destruct (ex' - ex)%Z as [|p|p] eqn:E; [|lia|].
  - exists mx. replace ex' with ex by lia. rewrite Z.sub_diag. split; [reflexivity|]. simpl; lia.
  - exists (Pos.iter xO mx p). split; [reflexivity|].
    rewrite pos_iter_xO. f_equal. f_equal. lia.
Qed.

Lemma shl_align_keep (mx : positive) (ex ex' : Z) :
  (ex <= ex')%Z -> shl_align mx ex ex' = (mx, ex).
Proof.
  intro H. unfold shl_align. destruct (ex' - ex)%Z as [|p|p] eqn:E; try reflexivity. lia.
Qed.

Lemma F2R_shift (m : positive) (e k : Z) (m' : positive) :
  (0 <= k)%Z -> Zpos m' = (Zpos m * 2 ^ k)%Z -> F2R m' (e - k) = F2R m e.
Proof.
  intros Hk E. unfold F2R. rewrite E, mult_IZR, IZR_pow2_bpow by exact Hk.
  rewrite Rmult_assoc, <- bpow_add. f_equal. f_equal. lia.
Qed.

Lemma binary_round_correct (sx : bool) (m : positive) (e : Z) :
  (-1074 <= Zpos (digits2_pos m) + e - 53 <= 970)%Z ->
  exists m3 e3,
    binary_round prec emax sx m e = S754_finite sx m3 e3 /\
    normal m3 e3 /\
    rounds_to (F2R m e) (F2R m3 e3) /\
    (Zpos (digits2_pos m) + e - 53 <= e3 <= Zpos (digits2_pos m) + e - 52)%Z.
Proof.
  intro He. unfold binary_round. set (dm := Zpos (digits2_pos m)) in *.
  rewrite fexp_normal by lia.
  pose proof (digits2_pos_bounds m) as Bm. fold dm in Bm.
  destruct (Z_lt_le_dec dm 53) as [Lt|Ge].
  - destruct (shl_align_shift m e (dm + e - 53) ltac:(lia)) as (mz & Es & Em).
    rewrite Es. replace (e - (dm + e - 53))%Z with (53 - dm)%Z in Em by lia.
    assert (Hmz : (2 ^ 52 <= Zpos mz < 2 ^ 53)%Z).
    { rewrite Em.
      replace 52%Z with ((dm - 1) + (53 - dm))%Z at 1 by lia.
      replace 53%Z with (dm + (53 - dm))%Z at 4 by lia.
      rewrite !Z.pow_add_r by lia.
      assert (0 < 2 ^ (53 - dm))%Z by (apply Z.pow_pos_nonneg; lia). nia. }
    destruct (binary_round_aux_correct sx (Zpos mz) (dm + e - 53) loc_Exact (IZR (Zpos mz)) 53)
      as (m3 & e3 & E3 & N3 & R3 & B3); try lia.
    + now apply Zdigits2_53.
    + reflexivity.
    + exists m3, e3. split; [exact E3|]. split; [exact N3|]. split; [|lia].
      replace (F2R m e) with (IZR (Zpos mz) * bpow (dm + e - 53)); [exact R3|].
      change (IZR (Zpos mz) * bpow (dm + e - 53)) with (F2R mz (dm + e - 53)).
      replace (dm + e - 53)%Z with (e - (53 - dm))%Z by lia.
      apply F2R_shift; [lia|exact Em].
  - rewrite shl_align_keep by lia.
    destruct (binary_round_aux_correct sx (Zpos m) e loc_Exact (IZR (Zpos m)) dm)
      as (m3 & e3 & E3 & N3 & R3 & B3); try lia; try reflexivity.
    exists m3, e3. split; [exact E3|]. split; [exact N3|]. split; [exact R3|lia].
Qed.

Lemma digits2_pos_le (m : positive) (k : Z) :
  (Zpos m < 2 ^ k)%Z -> (0 <= k)%Z -> (Zpos (digits2_pos m) <= k)%Z.
Proof.
  intros H Hk. pose proof (digits2_pos_bounds m) as B.
  destruct (Z_le_gt_dec (Zpos (digits2_pos m)) k) as [|G]; [assumption|].
  assert (2 ^ k <= 2 ^ (Zpos (digits2_pos m) - 1))%Z by (apply Z.pow_le_mono_r; lia). lia.
Qed.

(** Subtraction of a smaller positive number. *)
Lemma SFsub_correct (mx my : positive) (ex ey : Z) :
  normal mx ex -> normal my ey ->
  (-1022 <= ex <= 970)%Z -> (-1022 <= ey <= 970)%Z ->
  F2R my ey < F2R mx ex ->
  exists mz ez,
    SFsub prec emax (S754_finite false mx ex) (S754_finite false my ey) =
      S754_finite false mz ez /\
    normal mz ez /\
    rounds_to (F2R mx ex - F2R my ey) (F2R mz ez).
Proof.
  intros [Hmx _] [Hmy _] Hex Hey Hlt. cbn [SFsub cond_Zopp].
  set (ez := Z.min ex ey).
  destruct (shl_align_shift mx ex ez ltac:(unfold ez; lia)) as (ax & Eax & Hax).
  destruct (shl_align_shift my ey ez ltac:(unfold ez; lia)) as (ay & Eay & Hay).
  rewrite Eax, Eay. cbn [fst].
  assert (Vx : F2R ax ez = F2R mx ex).
  { replace ez with (ex - (ex - ez))%Z at 1 by lia. apply F2R_shift; [unfold ez; lia|exact Hax]. }
  assert (Vy : F2R ay ez = F2R my ey).
  { replace ez with (ey - (ey - ez))%Z at 1 by lia. apply F2R_shift; [unfold ez; lia|exact Hay]. }
  assert (Hd : (0 < Zpos ax - Zpos ay)%Z).
  { rewrite <- Vx, <- Vy in Hlt. unfold F2R in Hlt.
    apply Rmult_lt_reg_r in Hlt; [|apply bpow_gt_0].
    apply lt_IZR in Hlt. lia. }
  destruct (Zpos ax - Zpos ay)%Z as [|m|m] eqn:Em; try lia.
  cbn [binary_normalize].
  assert (Hbig : (Zpos m < 2 ^ (53 + Z.max ex ey - ez))%Z).
  { assert (Zpos ax < 2 ^ (53 + Z.max ex ey - ez))%Z; [|lia].
    rewrite Hax.
    replace (53 + Z.max ex ey - ez)%Z with (53 + (Z.max ex ey - ex) + (ex - ez))%Z by lia.
    rewrite !Z.pow_add_r by (unfold ez; lia).
    assert (0 < 2 ^ (ex - ez))%Z by (apply Z.pow_pos_nonneg; unfold ez; lia).
    assert (1 <= 2 ^ (Z.max ex ey - ex))%Z.
    { assert (0 < 2 ^ (Z.max ex ey - ex))%Z by (apply Z.pow_pos_nonneg; lia). lia. }
    nia. }
  pose proof (digits2_pos_le m _ Hbig ltac:(unfold ez; lia)) as Hdm.
  assert (1 <= Zpos (digits2_pos m))%Z by lia.
  destruct (binary_round_correct false m ez) as (mz & ez' & E & N & R & _).
  { unfold ez in *. lia. }
  exists mz, ez'. split; [exact E|]. split; [exact N|].
  replace (F2R mx ex - F2R my ey) with (F2R m ez); [exact R|].
  rewrite <- Vx, <- Vy. unfold F2R. rewrite <- Em, minus_IZR. ring.
Qed.

(** Multiplication. *)
Lemma SFmul_correct (mx my : positive) (ex ey : Z) :
  normal mx ex -> normal my ey ->
  (-1126 <= ex + ey <= 917)%Z ->
  exists mz ez,
    SFmul prec emax (S754_finite false mx ex) (S754_finite false my ey) =
      S754_finite false mz ez /\
    normal mz ez /\
    rounds_to (F2R mx ex * F2R my ey) (F2R mz ez) /\
    (ex + ey + 52 <= ez <= ex + ey + 54)%Z.
Proof.
  intros [Hmx _] [Hmy _] He. cbn [SFmul xorb].
  assert (Hp : (2 ^ 104 <= Zpos (mx * my) < 2 ^ 106)%Z).
  { rewrite Pos2Z.inj_mul. change (2 ^ 104)%Z with (2 ^ 52 * 2 ^ 52)%Z.
    change (2 ^ 106)%Z with (2 ^ 53 * 2 ^ 53)%Z. nia. }
  pose proof (digits2_pos_bounds (mx * my)) as Bd.
  set (d := Zpos (digits2_pos (mx * my))) in *.
  assert (Hd : (105 <= d <= 106)%Z).
  { split.
    - destruct (Z_le_gt_dec 105 d) as [|G]; [assumption|].
      assert (2 ^ d <= 2 ^ 104)%Z by (apply Z.pow_le_mono_r; lia). lia.
    - destruct (Z_le_gt_dec d 106) as [|G]; [assumption|].
      assert (2 ^ 106 <= 2 ^ (d - 1))%Z by (apply Z.pow_le_mono_r; lia). lia. }
  destruct (binary_round_aux_correct false (Zpos (mx * my)) (ex + ey) loc_Exact
              (IZR (Zpos (mx * my))) d) as (mz & ez & E & N & R & B); try lia; try reflexivity.
  exists mz, ez. split; [exact E|]. split; [exact N|]. split; [|lia].
  replace (F2R mx ex * F2R my ey) with (IZR (Zpos (mx * my)) * bpow (ex + ey)); [exact R|].
  unfold F2R. rewrite Pos2Z.inj_mul, mult_IZR, bpow_add. ring.
Qed.

(** Division. *)
Lemma half_lt (r nb : Z) :
  (0 < nb)%Z -> (2 * r < nb)%Z -> IZR r / IZR nb < / 2.
Proof.
  intros Hn H. apply IZR_lt in Hn, H. rewrite mult_IZR in H.
  apply Rmult_lt_reg_r with (IZR nb); [exact Hn|].
  replace (IZR r / IZR nb * IZR nb) with (IZR r) by (field; lra). lra.
Qed.

Lemma half_gt (r nb : Z) :
  (0 < nb)%Z -> (nb < 2 * r)%Z -> / 2 < IZR r / IZR nb.
Proof.
  intros Hn H. apply IZR_lt in Hn, H. rewrite mult_IZR in H.
  apply Rmult_lt_reg_r with (IZR nb); [exact Hn|].
  replace (IZR r / IZR nb * IZR nb) with (IZR r) by (field; lra). lra.
Qed.

Lemma half_eq (r nb : Z) :
  (0 < nb)%Z -> (2 * r = nb)%Z -> IZR r / IZR nb = / 2.
Proof.
  intros Hn H. apply IZR_lt in Hn. rewrite <- H in *. rewrite mult_IZR in *.
  field. lra.
Qed.

Lemma frac_bounds (r nb : Z) :
  (0 < r < nb)%Z -> 0 < IZR r / IZR nb < 1.
Proof.
  intros [H0 H1]. apply IZR_lt in H0, H1. split.
  - apply Rdiv_lt_0_compat; lra.
  - apply Rmult_lt_reg_r with (IZR nb); [lra|].
    replace (IZR r / IZR nb * IZR nb) with (IZR r) by (field; lra). lra.
Qed.

Lemma new_location_located (nb q r : Z) :
  (0 < nb)%Z -> (0 <= r < nb)%Z ->
  located (IZR q + IZR r / IZR nb) q (new_location nb r).
Proof.
  intros Hn Hr. unfold new_location.
  destruct (Z.even nb) eqn:Ev; unfold new_location_even, new_location_odd;
    destruct (Z.eqb_spec r 0) as [->|Hr0];
    try (cbn [located]; unfold Rdiv; ring).
  - pose proof (frac_bounds r nb ltac:(lia)) as Fb.
    destruct (Z.compare_spec (2 * r) nb) as [E|L|G]; cbn [located].
    + rewrite (half_eq r nb Hn E). reflexivity.
    + pose proof (half_lt r nb Hn L). lra.
    + pose proof (half_gt r nb Hn G). lra.
  - pose proof (frac_bounds r nb ltac:(lia)) as Fb.
    assert (Hodd : (2 * r <> nb)%Z).
    { intro E. rewrite <- E, Z.even_mul in Ev. discriminate. }
    destruct (Z.compare_spec (2 * r + 1) nb) as [E|L|G]; cbn [located].
    + pose proof (half_lt r nb Hn ltac:(lia)). lra.
    + pose proof (half_lt r nb Hn ltac:(lia)). lra.
    + pose proof (half_gt r nb Hn ltac:(lia)). lra.
Qed.

Lemma SFdiv_correct (mx my : positive) (ex ey : Z) :
  normal mx ex -> normal my ey ->
  (-1021 <= ex - ey <= 1022)%Z ->
  exists mz ez,
    SFdiv prec emax (S754_finite false mx ex) (S754_finite false my ey) =
      S754_finite false mz ez /\
    normal mz ez /\
    rounds_to (F2R mx ex / F2R my ey) (F2R mz ez) /\
    (ex - ey - 53 <= ez <= ex - ey - 51)%Z.
Proof.
  intros [Hmx _] [Hmy _] He. cbn [SFdiv xorb]. unfold SFdiv_core_binary.
  rewrite (Zdigits2_53 _ Hmx), (Zdigits2_53 _ Hmy).
  rewrite fexp_normal by lia.
  replace (Z.min (53 + ex - (53 + ey) - 53) (ex - ey))%Z with (ex - ey - 53)%Z by lia.
  replace (ex - ey - (ex - ey - 53))%Z with 53%Z by lia.
  rewrite Z.shiftl_mul_pow2 by lia.
  pose proof (Z_div_mod (Zpos mx * 2 ^ 53) (Zpos my) ltac:(lia)) as Hdiv.
  destruct (Z.div_eucl (Zpos mx * 2 ^ 53) (Zpos my)) as [q r].
  destruct Hdiv as [Hq Hr].
  assert (Hqb : (2 ^ 52 <= q < 2 ^ 54)%Z).
  { change (2 ^ 54)%Z with (2 * 2 ^ 53)%Z. change (2 ^ 53)%Z with (2 * 2 ^ 52)%Z in *. nia. }
  assert (Hq0 : (0 < q)%Z) by lia.
  destruct q as [|pq|pq]; try lia.
  pose proof (digits2_pos_bounds pq) as Bd.
  set (d := Zpos (digits2_pos pq)) in *.
  assert (Hd : (53 <= d <= 54)%Z).
  { split.
    - destruct (Z_le_gt_dec 53 d) as [|G]; [assumption|].
      assert (2 ^ d <= 2 ^ 52)%Z by (apply Z.pow_le_mono_r; lia). lia.
    - destruct (Z_le_gt_dec d 54) as [|G]; [assumption|].
      assert (2 ^ 54 <= 2 ^ (d - 1))%Z by (apply Z.pow_le_mono_r; lia). lia. }
  destruct (binary_round_aux_correct false (Zpos pq) (ex - ey - 53) (new_location (Zpos my) r)
              (IZR (Zpos pq) + IZR r / IZR (Zpos my)) d)
    as (mz & ez & E & N & R & B); try lia; try reflexivity.
  { apply new_location_located; lia. }
  exists mz, ez. split; [exact E|]. split; [exact N|]. split; [|lia].
  replace (F2R mx ex / F2R my ey)
    with ((IZR (Zpos pq) + IZR r / IZR (Zpos my)) * bpow (ex - ey - 53)); [exact R|].
  unfold F2R.
  replace (ex - ey - 53)%Z with (ex + (- ey + - (53)))%Z by lia.
  rewrite !bpow_add, !bpow_opp.
  assert (Hmy' : 0 < IZR (Zpos my)) by (apply IZR_lt; lia).
  pose proof (bpow_gt_0 ey). pose proof (bpow_gt_0 53).
  apply (f_equal IZR) in Hq. rewrite plus_IZR, !mult_IZR in Hq.
  rewrite (IZR_pow2_bpow 53) in Hq by lia.
  field_simplify; [|lra|lra].
  replace (IZR (Zpos pq) * IZR (Zpos my) * bpow ex + IZR r * bpow ex)
    with ((IZR (Zpos my) * IZR (Zpos pq) + IZR r) * bpow ex) by ring.
  rewrite <- Hq. field. lra.
Qed.

(** ** Primitive floats *)

Lemma fnum_not_special (x : float) (m : positive) (e : Z) :
  fnum x m e -> PrimFloat.is_nan x = false /\ PrimFloat.is_zero x = false.
Proof.
  intros [H _]. unfold Prim2SF in H.
  destruct (PrimFloat.is_nan x); [discriminate|].
  destruct (PrimFloat.is_zero x); [discriminate|]. auto.
Qed.

Lemma fnum_inj (x y : float) (m : positive) (e : Z) :
  fnum x m e -> fnum y m e -> x = y.
Proof. intros [Hx _] [Hy _]. apply Prim2SF_inj. congruence. Qed.

Lemma fnum_ltb_true (x y : float) (mx my : positive) (ex ey : Z) :
  fnum x mx ex -> fnum y my ey -> (x <? y)%float = true -> F2R mx ex < F2R my ey.
Proof.
  intros [Hx [Nx _]] [Hy [Ny _]]. rewrite FloatAxioms.ltb_spec, Hx, Hy. now apply SFltb_true.
Qed.

Lemma fnum_ltb_false (x y : float) (mx my : positive) (ex ey : Z) :
  fnum x mx ex -> fnum y my ey -> (x <? y)%float = false -> F2R my ey <= F2R mx ex.
Proof.
  intros [Hx [Nx _]] [Hy [Ny _]]. rewrite FloatAxioms.ltb_spec, Hx, Hy. now apply SFltb_false.
Qed.

Lemma fnum_ltb (x y : float) (mx my : positive) (ex ey : Z) :
  fnum x mx ex -> fnum y my ey -> F2R mx ex < F2R my ey -> (x <? y)%float = true.
Proof.
  intros Hx Hy H. destruct (x <? y)%float eqn:E; [reflexivity|].
  pose proof (fnum_ltb_false x y mx my ex ey Hx Hy E). lra.
Qed.

Lemma fnum_leb (x y : float) (mx my : positive) (ex ey : Z) :
  fnum x mx ex -> fnum y my ey -> F2R mx ex <= F2R my ey -> (x <=? y)%float = true.
Proof.
  intros Hx Hy H. destruct Hx as [Ex [Nx Bx]], Hy as [Ey [Ny By]].
  rewrite FloatAxioms.leb_spec, Ex, Ey. unfold SFleb, SFcompare.
  destruct (Z.compare_spec ex ey) as [->|L|G]; try reflexivity.
  - change (Pos.compare_cont Eq mx my) with (Pos.compare mx my).
    destruct (Pos.compare_spec mx my) as [->|L|G]; try reflexivity.
    pose proof (F2R_lt_man my mx ey ltac:(lia)). lra.
  - pose proof (F2R_lt_exp my mx ey ex Ny Nx G). lra.
Qed.

Lemma fnum_leb_true (x y : float) (mx my : positive) (ex ey : Z) :
  fnum x mx ex -> fnum y my ey -> (x <=? y)%float = true -> F2R mx ex <= F2R my ey.
Proof.
  intros Hx Hy H.
  destruct (Rle_or_lt (F2R mx ex) (F2R my ey)) as [|L]; [assumption|].
  destruct Hx as [Ex [Nx Bx]], Hy as [Ey [Ny By]].
  rewrite FloatAxioms.leb_spec, Ex, Ey in H. unfold SFleb, SFcompare in H.
  destruct (Z.compare_spec ex ey) as [->|L'|G]; try discriminate.
  - change (Pos.compare_cont Eq mx my) with (Pos.compare mx my) in H.
    destruct (Pos.compare_spec mx my) as [->|L'|G]; try discriminate.
    + lra.
    + apply Rlt_le, F2R_lt_man. lia.
  - apply Rlt_le. now apply F2R_lt_exp.
Qed.

(** The arithmetic of positive normal numbers. *)
Lemma fnum_div (x y : float) (mx my : positive) (ex ey : Z) :
  fnum x mx ex -> fnum y my ey -> (-1021 <= ex - ey <= 1022)%Z ->
  exists mz ez, fnum (x / y) mz ez /\
    rounds_to (F2R mx ex / F2R my ey) (F2R mz ez) /\
    (ex - ey - 53 <= ez <= ex - ey - 51)%Z.
Proof.
  intros [Ex Nx] [Ey Ny] He.
  destruct (SFdiv_correct mx my ex ey Nx Ny He) as (mz & ez & E & N & R & B).
  exists mz, ez. split; [|auto]. split; [|exact N].
  rewrite FloatAxioms.div_spec, Ex, Ey. exact E.
Qed.

Lemma fnum_mul (x y : float) (mx my : positive) (ex ey : Z) :
  fnum x mx ex -> fnum y my ey -> (-1126 <= ex + ey <= 917)%Z ->
  exists mz ez, fnum (x * y) mz ez /\
    rounds_to (F2R mx ex * F2R my ey) (F2R mz ez) /\
    (ex + ey + 52 <= ez <= ex + ey + 54)%Z.
Proof.
  intros [Ex Nx] [Ey Ny] He.
  destruct (SFmul_correct mx my ex ey Nx Ny He) as (mz & ez & E & N & R & B).
  exists mz, ez. split; [|auto]. split; [|exact N].
  rewrite FloatAxioms.mul_spec, Ex, Ey. exact E.
Qed.

Lemma fnum_sub (x y : float) (mx my : positive) (ex ey : Z) :
  fnum x mx ex -> fnum y my ey ->
  (-1022 <= ex <= 970)%Z -> (-1022 <= ey <= 970)%Z ->
  F2R my ey < F2R mx ex ->
  exists mz ez, fnum (x - y) mz ez /\
    rounds_to (F2R mx ex - F2R my ey) (F2R mz ez).
Proof.
  intros [Ex Nx] [Ey Ny] Hex Hey Hlt.
  destruct (SFsub_correct mx my ex ey Nx Ny Hex Hey Hlt) as (mz & ez & E & N & R).
  exists mz, ez. split; [|auto]. split; [|exact N].
  rewrite FloatAxioms.sub_spec, Ex, Ey. exact E.
Qed.

(** An integer from 1 to 2^53 - 1 is a number, exactly. *)
Lemma fnum_Number (n : Z) :
  (1 <= n < 2 ^ 53)%Z ->
  exists m k, (0 <= k <= 52)%Z /\ Zpos m = (n * 2 ^ k)%Z /\ fnum (Number n) m (- k) /\
    F2R m (- k) = IZR n.
Proof.
  intro Hn. destruct n as [|p|p]; try lia.
  pose proof (digits2_pos_bounds p) as Bd.
  set (d := Zpos (digits2_pos p)) in *.
  assert (Hd : (1 <= d <= 53)%Z).
  { split; [unfold d; lia|]. apply digits2_pos_le; lia. }
  assert (Hpos : (0 < Zpos p * 2 ^ (53 - d))%Z).
  { assert (0 < 2 ^ (53 - d))%Z by (apply Z.pow_pos_nonneg; lia). lia. }
  destruct (Zpos p * 2 ^ (53 - d))%Z as [|m0|m0] eqn:Em0; try lia.
  assert (Hm0 : (2 ^ 52 <= Zpos m0 < 2 ^ 53)%Z).
  { rewrite <- Em0.
    replace 52%Z with ((d - 1) + (53 - d))%Z at 1 by lia.
    replace 53%Z with (d + (53 - d))%Z at 4 by lia.
    rewrite !Z.pow_add_r by lia.
    assert (0 < 2 ^ (53 - d))%Z by (apply Z.pow_pos_nonneg; lia). nia. }
  assert (V0 : F2R m0 (- (53 - d)) = F2R p 0).
  { replace (- (53 - d))%Z with (0 - (53 - d))%Z by lia. apply F2R_shift; [lia|now symmetry]. }
  destruct (binary_round_correct false p 0) as (m3 & e3 & E3 & N3 & R3 & B3).
  { fold d. lia. }
  rewrite <- V0 in R3.
  apply rounds_to_exact in R3; [|exact Hm0|lia].
  destruct (F2R_inj m3 m0 e3 _ (proj1 N3) Hm0 R3) as [-> ->].
  exists m0, (53 - d)%Z. split; [lia|]. split; [now symmetry|]. split.
  - split; [|exact N3]. unfold Number. rewrite FloatAxioms.of_uint63_spec.
    rewrite Uint63.of_Z_spec.
    rewrite Z.mod_small by (change Uint63.wB with (2 ^ 63)%Z; change (2 ^ 53)%Z with 9007199254740992%Z in *; lia).
    exact E3.
  - rewrite V0. unfold F2R. rewrite bpow_0. ring.
Qed.

Lemma Math_min_fnum (a b : float) (ma mb : positive) (ea eb : Z) :
  fnum a ma ea -> fnum b mb eb ->
  (Math_min a b = a /\ F2R ma ea <= F2R mb eb) \/
  (Math_min a b = b /\ F2R mb eb <= F2R ma ea).
Proof.
  intros Ha Hb. unfold Math_min, is_neg_zero.
  destruct (fnum_not_special a ma ea Ha) as [-> ->].
  destruct (fnum_not_special b mb eb Hb) as [-> _]. cbn [orb andb].
  destruct (a <? b)%float eqn:E1.
  - left. split; [reflexivity|]. apply Rlt_le. eapply fnum_ltb_true; eauto.
  - right. split.
    + now destruct (b <? a)%float.
    + eapply fnum_ltb_false; eauto.
Qed.

Lemma Math_max_fnum (a b : float) (ma mb : positive) (ea eb : Z) :
  fnum a ma ea -> fnum b mb eb ->
  (Math_max a b = a /\ F2R mb eb <= F2R ma ea) \/
  (Math_max a b = b /\ F2R ma ea <= F2R mb eb).
Proof.
  intros Ha Hb. unfold Math_max, is_neg_zero.
  destruct (fnum_not_special a ma ea Ha) as [-> ->].
  destruct (fnum_not_special b mb eb Hb) as [-> _]. cbn [orb andb].
  destruct (a <? b)%float eqn:E1.
  - right. split; [reflexivity|]. apply Rlt_le. eapply fnum_ltb_true; eauto.
  - left. split.
    + destruct (b <? a)%float eqn:E2; reflexivity.
    + eapply fnum_ltb_false; eauto.
Qed.

End FloatFacts.

(** ** The estimator: counts of a text *)

Import Estimator.

Section Counts.

Lemma matches_at_illegible_head (c : char) (s : jsstring) :
  matches_at ILLEGIBLE (c :: s) = true -> is_white_space c = false.
Proof.
  unfold ILLEGIBLE. cbn [str map list_ascii_of_string matches_at].
  intro H. apply andb_true_iff in H as [H _].
  unfold ci_eqb in H. apply andb_true_iff in H as [Hlt H].
  apply N.ltb_lt in Hlt. apply N.eqb_eq in H.
  unfold canonicalize in H. cbn in H.
  destruct (is_lower c) eqn:El.
  - unfold is_lower in El. apply andb_true_iff in El as [E1 E2].
    apply N.leb_le in E1, E2. lia.
  - now subst c.
Qed.

Lemma illegible_blank (k : nat) (s : jsstring) :
  forallb is_white_space s = true -> count_matches_from ILLEGIBLE k s = 0.
Proof.
  revert k; induction s as [|c s IH]; intros k H; cbn [count_matches_from];
    [reflexivity|].
  cbn [forallb] in H. apply andb_true_iff in H as [Hc Hs].
  destruct k as [|k]; [|now apply IH].
  destruct (matches_at ILLEGIBLE (c :: s)) eqn:Em.
  - apply matches_at_illegible_head in Em. congruence.
  - now apply IH.
Qed.

Lemma count_matches_from_le (pat : jsstring) (k : nat) (s : jsstring) :
  count_matches_from pat k s <= length s.
Proof.
  unfold length.
  revert k; induction s as [|c s IH]; intro k; cbn [count_matches_from List.length];
    [lia|].
  destruct k as [|k].
  - destruct (matches_at pat (c :: s)).
    + specialize (IH (Nat.pred (List.length pat))). lia.
    + specialize (IH 0%nat). lia.
  - specialize (IH k). lia.
Qed.

Lemma split_ws_total (b : bool) (s : jsstring) :
  total_length (split_ws_from b s) <= length s.
Proof.
  unfold length.
  revert b; induction s as [|c s IH]; intro b; cbn [split_ws_from]; [cbn; lia|].
  cbn [List.length]. destruct (is_white_space c).
  - destruct b; cbn [total_length]; [specialize (IH true)|specialize (IH true)];
      unfold length in *; cbn [List.length]; lia.
  - specialize (IH false).
    destruct (split_ws_from false s) as [|p ps]; cbn [total_length] in *;
      unfold length in *; cbn [List.length]; lia.
Qed.

Lemma truthy_count_le_total (pieces : list jsstring) :
  len (filter truthy_string pieces) <= total_length pieces.
Proof.
  unfold len. induction pieces as [|p ps IH]; cbn [filter total_length]; [cbn; lia|].
  destruct p as [|c p]; cbn [truthy_string List.length length] in *.
  - unfold length. cbn. lia.
  - unfold length. cbn [List.length]. lia.
Qed.

Lemma words_le_length (s : jsstring) : len (words_of s) <= length s.
Proof.
  unfold words_of, split_ws.
  pose proof (truthy_count_le_total (split_ws_from false s)).
  pose proof (split_ws_total false s). lia.
Qed.

Lemma illegible_le_length (s : jsstring) : illegible_of s <= length s.
Proof. apply count_matches_from_le. Qed.

Lemma illegible_nonneg (s : jsstring) : 0 <= illegible_of s.
Proof. apply count_matches_from_nonneg. Qed.

Lemma guard_no_marker (text : jsstring) :
  floor_guard text = true -> illegible_of text = 0.
Proof.
  unfold floor_guard. intro H.
  apply orb_true_iff in H as [H|H]; [apply orb_true_iff in H as [H|H]|].
  - apply eqb_eq in H. now subst.
  - apply eqb_eq in H. now subst.
  - now apply illegible_blank.
Qed.

(** The estimator, by cases. *)
Lemma confidence_cases (text : jsstring) :
  calculateConfidence text =
    if floor_guard text then 0.05%float
    else if illegible_of text =? 0 then clamp (base_of text)
    else clamp (penalized (base_of text) (illegible_of text) (len (words_of text))).
Proof.
  unfold calculateConfidence, floor_guard.
  rewrite truthy_string_eqb, trim_length_0.
  destruct (JS.eqb text [] || JS.eqb text NO_TEXT || forallb is_white_space text) eqn:G;
    [reflexivity|].
  apply orb_false_iff in G as [_ Hb].
  pose proof (words_of_not_blank _ Hb) as Hw.
  replace (Z.max (len (words_of text)) 1) with (len (words_of text)) by lia.
  pose proof (illegible_nonneg text) as Hi.
  destruct (Z.eqb_spec (illegible_of text) 0) as [Hz|Hz].
  - rewrite Hz. reflexivity.
  - replace (illegible_of text >? 0) with true; [reflexivity|].
    symmetry. apply Z.gtb_lt. lia.
Qed.

End Counts.

(** ** The estimator: its real value *)

Module ConfidenceFacts.
Import FloatFacts.
Local Open Scope R_scope.

Ltac normal_tac :=
  unfold normal; repeat split;
  try (apply Z.leb_le; vm_compute; reflexivity);
  try (apply Z.ltb_lt; vm_compute; reflexivity).

Ltac fnum_tac := split; [vm_compute; reflexivity|normal_tac].

Lemma value_fnum (x : float) (m : positive) (e : Z) :
  fnum x m e -> value x = F2R m e.
Proof. intros [H _]. unfold value. now rewrite H. Qed.

Lemma F2R_pos (m : positive) (e : Z) : 0 < F2R m e.
Proof.
  unfold F2R. apply Rmult_lt_0_compat; [apply IZR_lt; lia|apply bpow_gt_0].
Qed.

Lemma fnum_005 : fnum 0.05 7205759403792794 (-57).
Proof. fnum_tac. Qed.
Lemma fnum_098 : fnum 0.98 8827055269646172 (-53).
Proof. fnum_tac. Qed.
Lemma fnum_02 : fnum 0.2 7205759403792794 (-55).
Proof. fnum_tac. Qed.
Lemma fnum_05 : fnum 0.5 4503599627370496 (-53).
Proof. fnum_tac. Qed.
Lemma fnum_065 : fnum 0.65 5854679515581645 (-53).
Proof. fnum_tac. Qed.

(** The sixteen base scores. *)
Lemma base_fnum (b1 b2 b3 b4 : bool) :
  exists mc ec, fnum (base b1 b2 b3 b4) mc ec /\ (-54 <= ec <= -53)%Z /\
    (0.2 <? base b1 b2 b3 b4)%float = true /\
    (base b1 b2 b3 b4 <=? 0.65)%float = true.
Proof.
  destruct b1, b2, b3, b4;
    (do 2 eexists; split; [fnum_tac|]; split; [lia|]; split; vm_compute; reflexivity).
Qed.

Lemma base_mono (b1 b2 b3 b4 c1 c2 c3 c4 : bool) :
  Bool.le b1 c1 -> Bool.le b2 c2 -> Bool.le b3 c3 -> Bool.le b4 c4 ->
  (base b1 b2 b3 b4 <=? base c1 c2 c3 c4)%float = true.
Proof.
  destruct b1, c1; try discriminate; intros _;
  destruct b2, c2; try discriminate; intros _;
  destruct b3, c3; try discriminate; intros _;
  destruct b4, c4; try discriminate; intros _; vm_compute; reflexivity.
Qed.

Lemma clamp_fnum (y : float) (my : positive) (ey : Z) :
  fnum y my ey ->
  exists mr er, fnum (clamp y) mr er /\ F2R mr er = clamp_value (F2R my ey).
Proof.
  intro Hy. unfold clamp, clamp_value.
  rewrite (value_fnum _ _ _ fnum_005), (value_fnum _ _ _ fnum_098).
  destruct (Math_max_fnum _ _ _ _ _ _ fnum_005 Hy) as [[E1 L1]|[E1 L1]]; rewrite E1.
  - rewrite (Rmax_left _ _ L1).
    destruct (Math_min_fnum _ _ _ _ _ _ fnum_098 fnum_005) as [[E2 L2]|[E2 L2]]; rewrite E2.
    + do 2 eexists. split; [exact fnum_098|]. now rewrite Rmin_left.
    + do 2 eexists. split; [exact fnum_005|]. now rewrite Rmin_right.
  - rewrite (Rmax_right _ _ L1).
    destruct (Math_min_fnum _ _ _ _ _ _ fnum_098 Hy) as [[E2 L2]|[E2 L2]]; rewrite E2.
    + do 2 eexists. split; [exact fnum_098|]. now rewrite Rmin_left.
    + do 2 eexists. split; [exact Hy|]. now rewrite Rmin_right.
Qed.

Lemma clamp_value_mono (y y' : R) : y <= y' -> clamp_value y <= clamp_value y'.
Proof.
  intro H. unfold clamp_value.
  apply Rle_min_compat_l. now apply Rle_max_compat_l.
Qed.

Lemma value_005_le_098 : value 0.05 <= value 0.98.
Proof.
  rewrite (value_fnum _ _ _ fnum_005), (value_fnum _ _ _ fnum_098).
  apply (fnum_leb_true _ _ _ _ _ _ fnum_005 fnum_098). vm_compute. reflexivity.
Qed.

Lemma value_005_le_065 : value 0.05 <= value 0.65.
Proof.
  rewrite (value_fnum _ _ _ fnum_005), (value_fnum _ _ _ fnum_065).
  apply (fnum_leb_true _ _ _ _ _ _ fnum_005 fnum_065). vm_compute. reflexivity.
Qed.

Lemma value_065_lt_098 : value 0.65 < value 0.98.
Proof.
  rewrite (value_fnum _ _ _ fnum_065), (value_fnum _ _ _ fnum_098).
  apply (fnum_ltb_true _ _ _ _ _ _ fnum_065 fnum_098). vm_compute. reflexivity.
Qed.

Lemma clamp_value_bounds (y : R) :
  value 0.05 <= clamp_value y <= value 0.98.
Proof.
  unfold clamp_value. pose proof value_005_le_098. split.
  - apply Rmin_glb; [assumption|apply Rmax_l].
  - apply Rmin_l.
Qed.

Lemma clamp_value_le (y b : R) :
  value 0.05 <= b -> y <= b -> clamp_value y <= b.
Proof.
  intros H1 H2. unfold clamp_value.
  apply Rle_trans with (Rmax (value 0.05) y); [apply Rmin_r|].
  now apply Rmax_lub.
Qed.

(** The penalized score is a positive normal number. *)
Lemma penalized_fnum (c : float) (mc : positive) (ec : Z) (i w : Z) :
  fnum c mc ec -> (-54 <= ec <= -53)%Z -> (0.2 <? c)%float = true ->
  (1 <= i < 2 ^ 53)%Z -> (1 <= w < 2 ^ 53)%Z ->
  exists my ey, fnum (penalized c i w) my ey /\
    penalized_value (F2R mc ec) i w (F2R my ey).
Proof.
  intros Hc Hec Hlt Hi Hw. unfold penalized.
  destruct (fnum_Number i Hi) as (mi & ki & Hki & _ & Fi & Vi).
  destruct (fnum_Number w Hw) as (mw & kw & Hkw & _ & Fw & Vw).
  destruct (fnum_div _ _ _ _ _ _ Fi Fw ltac:(lia)) as (mq & eq & Fq & Rq & Bq).
  destruct (fnum_mul _ _ _ _ _ _ Fq fnum_05 ltac:(lia)) as (mh & eh & Fh & Rh & Bh).
  rewrite Vi, Vw in Rq. rewrite <- (value_fnum _ _ _ fnum_05) in Rh.
  pose proof (fnum_ltb_true _ _ _ _ _ _ fnum_02 Hc Hlt) as L02.
  destruct (Math_min_fnum _ _ _ _ _ _ fnum_02 Fh) as [[E L]|[E L]]; rewrite E.
  - destruct (fnum_sub _ _ _ _ _ _ Hc fnum_02 ltac:(lia) ltac:(lia) L02)
      as (my & ey & Fy & Ry).
    exists my, ey. split; [exact Fy|].
    exists (F2R mq eq), (F2R mh eh). split; [exact Rq|]. split; [exact Rh|].
    rewrite (value_fnum _ _ _ fnum_02). now rewrite Rmin_left.
  - destruct (fnum_sub _ _ _ _ _ _ Hc Fh ltac:(lia) ltac:(lia) ltac:(lra))
      as (my & ey & Fy & Ry).
    exists my, ey. split; [exact Fy|].
    exists (F2R mq eq), (F2R mh eh). split; [exact Rq|]. split; [exact Rh|].
    rewrite (value_fnum _ _ _ fnum_02). now rewrite Rmin_right.
Qed.

Lemma value_05_pos : 0 < value 0.5.
Proof. rewrite (value_fnum _ _ _ fnum_05). apply F2R_pos. Qed.

Lemma value_02_pos : 0 < value 0.2.
Proof. rewrite (value_fnum _ _ _ fnum_02). apply F2R_pos. Qed.

(** More markers for the same words, from no higher a base, give no higher
    a penalized score. *)
Lemma penalized_value_mono (vc vc' : R) (i i' w : Z) (vy vy' : R) :
  penalized_value vc i w vy -> penalized_value vc' i' w vy' ->
  (0 < w)%Z -> (i <= i')%Z -> vc' <= vc -> vy' <= vy.
Proof.
  intros (vq & vh & Rq & Rh & Ry) (vq' & vh' & Rq' & Rh' & Ry') Hw Hi Hc.
  assert (Hq : vq <= vq').
  { apply (rounds_to_mono _ _ _ _ Rq Rq').
    apply IZR_lt in Hw. apply IZR_le in Hi.
    unfold Rdiv. apply Rmult_le_compat_r; [|exact Hi].
    apply Rlt_le, Rinv_0_lt_compat. exact Hw. }
  assert (Hh : vh <= vh').
  { apply (rounds_to_mono _ _ _ _ Rh Rh').
    apply Rmult_le_compat_r; [apply Rlt_le, value_05_pos|exact Hq]. }
  apply (rounds_to_mono _ _ _ _ Ry' Ry).
  pose proof (Rle_min_compat_l _ _ (value 0.2) Hh). lra.
Qed.

(** A penalized score is at most its base. *)
Lemma penalized_value_le (mc : positive) (ec : Z) (i w : Z) (vy : R) :
  normal mc ec -> (ec <= 970)%Z ->
  penalized_value (F2R mc ec) i w vy -> vy <= F2R mc ec.
Proof.
  intros [Nm Ne] Hec (vq & vh & Rq & Rh & Ry).
  apply (rounds_to_mono _ _ _ _ Ry (rounds_to_self mc ec Nm ltac:(lia))).
  destruct (rounds_to_pos _ _ Rh) as [_ Hh].
  pose proof value_02_pos.
  assert (0 < Rmin (value 0.2) vh) by (apply Rmin_glb_lt; assumption). lra.
Qed.

End ConfidenceFacts.

(** ** The estimator: bounds and monotonicity *)

Section ConfidenceBounds.
Import FloatFacts ConfidenceFacts.

Lemma guard_false_words (text : jsstring) :
  floor_guard text = false -> 1 <= len (words_of text).
Proof.
  unfold floor_guard. intro H. apply orb_false_iff in H as [_ H].
  now apply words_of_not_blank.
Qed.

Lemma base_of_fnum (text : jsstring) :
  exists mc ec, fnum (base_of text) mc ec /\ (-54 <= ec <= -53) /\
    (0.2 <? base_of text)%float = true /\ (base_of text <=? 0.65)%float = true.
Proof. apply base_fnum. Qed.

(** The estimator answers a positive normal number: the floor, or the clamp
    of the base score, or the clamp of the penalized base score. *)
Lemma confidence_value (text : jsstring) :
  length text <= max_length ->
  exists mr er, fnum (calculateConfidence text) mr er /\
    (floor_guard text = true /\ F2R mr er = value 0.05 \/
     floor_guard text = false /\
     exists mc ec vy,
       fnum (base_of text) mc ec /\ (vy <= F2R mc ec)%R /\
       F2R mr er = clamp_value vy /\
       (illegible_of text = 0 /\ vy = F2R mc ec \/
        1 <= illegible_of text /\
        penalized_value (F2R mc ec) (illegible_of text) (len (words_of text)) vy)).
Proof.
  intro Hlen. unfold max_length in Hlen. rewrite confidence_cases.
  destruct (floor_guard text) eqn:G.
  - do 2 eexists. split; [exact fnum_005|]. left. split; [reflexivity|].
    symmetry. apply value_fnum. exact fnum_005.
  - destruct (base_of_fnum text) as (mc & ec & Fc & Bc & L02 & L065).
    pose proof (illegible_nonneg text) as I0.
    destruct (Z.eqb_spec (illegible_of text) 0) as [E|N].
    + destruct (clamp_fnum _ _ _ Fc) as (mr & er & Fr & Vr).
      exists mr, er. split; [exact Fr|]. right. split; [reflexivity|].
      exists mc, ec, (F2R mc ec). split; [exact Fc|]. split; [apply Rle_refl|].
      split; [exact Vr|]. left. auto.
    + pose proof (guard_false_words text G) as W1.
      pose proof (illegible_le_length text) as I1.
      pose proof (words_le_length text) as W2.
      destruct (penalized_fnum _ _ _ (illegible_of text) (len (words_of text))
                  Fc Bc L02 ltac:(lia) ltac:(lia)) as (my & ey & Fy & Py).
      destruct (clamp_fnum _ _ _ Fy) as (mr & er & Fr & Vr).
      exists mr, er. split; [exact Fr|]. right. split; [reflexivity|].
      exists mc, ec, (F2R my ey). split; [exact Fc|].
      split; [apply (penalized_value_le mc ec _ _ _ (proj2 Fc) ltac:(lia) Py)|].
      split; [exact Vr|]. right. split; [lia|exact Py].
Qed.

Lemma gtb_le (a b k : Z) : a <= b -> Bool.le (a >? k) (b >? k).
Proof.
  intro H. destruct (a >? k) eqn:E; [|exact I]. simpl.
  apply Z.gtb_lt in E. apply Z.gtb_lt. lia.
Qed.

Lemma clamp_base_mono (b1 b2 b3 b4 c1 c2 c3 c4 : bool) :
  Bool.le b1 c1 -> Bool.le b2 c2 -> Bool.le b3 c3 -> Bool.le b4 c4 ->
  (clamp (base b1 b2 b3 b4) <=? clamp (base c1 c2 c3 c4))%float = true.
Proof.
  destruct b1, c1; try discriminate; intros _;
  destruct b2, c2; try discriminate; intros _;
  destruct b3, c3; try discriminate; intros _;
  destruct b4, c4; try discriminate; intros _; vm_compute; reflexivity.
Qed.

Lemma floor_le_clamp_base (b1 b2 b3 b4 : bool) :
  (0.05 <=? clamp (base b1 b2 b3 b4))%float = true.
Proof. destruct b1, b2, b3, b4; vm_compute; reflexivity. Qed.

End ConfidenceBounds.

(** The confidence of every text lies in [0.05, 0.98]. *)
Lemma confidence_bounds (t : jsstring) :
  length t <= max_length ->
  (0.05 <=? calculateConfidence t)%float = true /\
  (calculateConfidence t <=? 0.98)%float = true.
Proof.
  intro Hlen.
  - destruct (confidence_value t Hlen) as (mr & er & Fr & H).
    assert (Hv : (value 0.05 <= F2R mr er <= value 0.98)%R).
    { destruct H as [[_ ->]|[_ (mc & ec & vy & _ & _ & -> & _)]].
      - pose proof ConfidenceFacts.value_005_le_098. lra.
      - apply ConfidenceFacts.clamp_value_bounds. }
    rewrite (ConfidenceFacts.value_fnum _ _ _ ConfidenceFacts.fnum_005),
            (ConfidenceFacts.value_fnum _ _ _ ConfidenceFacts.fnum_098) in Hv.
    split.
    + apply (FloatFacts.fnum_leb _ _ _ _ _ _ ConfidenceFacts.fnum_005 Fr), Hv.
    + apply (FloatFacts.fnum_leb _ _ _ _ _ _ Fr ConfidenceFacts.fnum_098), Hv.
Qed.

(** C5, as stated, fails: the sentinel is answered by the floor although a
    shorter text with fewer words scores higher.  [abc] has 3 code units, 1
    line and 1 word, the sentinel has 16 code units, 1 line and 3 words, and
    neither has a marker; their confidences are 0.25 and 0.05. *)
Lemma C5_counterexample :
  let t1 := str "abc" in
  let t2 := str "No text detected" in
  illegible_of t1 = 0 /\ illegible_of t2 = 0 /\
  length t1 <= length t2 /\
  len (lines_of t1) <= len (lines_of t2) /\
  len (words_of t1) <= len (words_of t2) /\
  calculateConfidence t1 = 0.25%float /\
  calculateConfidence t2 = 0.05%float /\
  (calculateConfidence t1 <=? calculateConfidence t2)%float = false.
Proof. repeat split; vm_compute; try reflexivity; discriminate. Qed.

(** C5 (amended): for texts [t1] and [t2] without markers, [t2] not being the
    sentinel [No text detected], if the length, the number of non-blank lines
    and the number of words of [t1] are at most those of [t2], then the
    confidence of [t1] is at most the confidence of [t2]; and the confidence
    of every text lies in [0.05, 0.98].  A text has at most [max_length]
    code units, as every JavaScript string. *)
Theorem C5_monotone_and_bounded :
  (forall t1 t2 : jsstring,
     illegible_of t1 = 0 -> illegible_of t2 = 0 ->
     t2 <> NO_TEXT ->
     length t1 <= length t2 ->
     len (lines_of t1) <= len (lines_of t2) ->
     len (words_of t1) <= len (words_of t2) ->
     (calculateConfidence t1 <=? calculateConfidence t2)%float = true) /\
  (forall t : jsstring,
     length t <= max_length ->
     (0.05 <=? calculateConfidence t)%float = true /\
     (calculateConfidence t <=? 0.98)%float = true).
Proof.
  split.
  - intros t1 t2 I1 I2 Hs Hl Hn Hw.
    rewrite !confidence_cases, I1, I2. cbn [Z.eqb].
    destruct (floor_guard t2) eqn:G2.
    + assert (G1 : floor_guard t1 = true).
      { unfold floor_guard in *.
        apply orb_true_iff in G2 as [G2|G2]; [apply orb_true_iff in G2 as [G2|G2]|].
        - apply eqb_eq in G2. subst t2. destruct t1; [reflexivity|].
          unfold length in Hl. cbn in Hl. lia.
        - apply eqb_eq in G2. contradiction.
        - destruct (forallb is_white_space t1) eqn:B1; [apply orb_true_r|].
          apply words_of_not_blank in B1. apply words_of_blank in G2. lia. }
      rewrite G1. vm_compute. reflexivity.
    + destruct (floor_guard t1).
      * apply floor_le_clamp_base.
      * apply clamp_base_mono; now apply gtb_le.
  - exact confidence_bounds.
Qed.

(** C10: the confidence of every text (of at most [max_length] code units,
    as every JavaScript string) is at most 0.65, so it is below the upper
    clamp 0.98, which is never attained. *)
Theorem C10_at_most_065 (text : jsstring) :
  length text <= max_length ->
  (calculateConfidence text <=? 0.65)%float = true /\
  (calculateConfidence text <? 0.98)%float = true /\
  calculateConfidence text <> 0.98%float.
Proof.
  intro Hlen.
  destruct (confidence_value text Hlen) as (mr & er & Fr & H).
  assert (Hv : (F2R mr er <= value 0.65)%R).
  { destruct H as [[_ ->]|[_ (mc & ec & vy & Fc & Hy & -> & _)]].
    - apply ConfidenceFacts.value_005_le_065.
    - apply ConfidenceFacts.clamp_value_le; [apply ConfidenceFacts.value_005_le_065|].
      destruct (base_of_fnum text) as (mc' & ec' & Fc' & _ & _ & L).
      pose proof (FloatFacts.fnum_leb_true _ _ _ _ _ _ Fc' ConfidenceFacts.fnum_065 L) as Hc.
      destruct Fc as [E1 _], Fc' as [E2 _]. rewrite E1 in E2. injection E2 as <- <-.
      rewrite (ConfidenceFacts.value_fnum _ _ _ ConfidenceFacts.fnum_065). lra. }
  pose proof ConfidenceFacts.value_065_lt_098 as H98.
  rewrite (ConfidenceFacts.value_fnum _ _ _ ConfidenceFacts.fnum_065) in Hv, H98.
  rewrite (ConfidenceFacts.value_fnum _ _ _ ConfidenceFacts.fnum_098) in H98.
  assert (Hlt : (calculateConfidence text <? 0.98)%float = true).
  { apply (FloatFacts.fnum_ltb _ _ _ _ _ _ Fr ConfidenceFacts.fnum_098). lra. }
  split; [|split].
  - apply (FloatFacts.fnum_leb _ _ _ _ _ _ Fr ConfidenceFacts.fnum_065), Hv.
  - exact Hlt.
  - intro E. rewrite E in Hlt. vm_compute in Hlt. discriminate.
Qed.

Lemma C10_witness :
  length (str "receipt") <= max_length /\
  (calculateConfidence (str "receipt") <=? 0.65)%float = true.
Proof.
  assert (H : length (str "receipt") <= max_length) by (vm_compute; discriminate).
  split; [exact H|exact (proj1 (C10_at_most_065 (str "receipt") H))].
Defined.

Lemma C5_witness :
  (calculateConfidence (str "abc") <=? calculateConfidence (str "abc def"))%float = true /\
  (0.05 <=? calculateConfidence (str "abc"))%float = true.
Proof.
  split.
  - apply (proj1 C5_monotone_and_bounded); vm_compute; try reflexivity; discriminate.
  - apply (proj2 C5_monotone_and_bounded). vm_compute. discriminate.
Defined.

(** C6, as stated, fails: with the word count fixed, more markers can come
    with a higher confidence, because the markers make the text longer.  Both
    texts have 4 words; the first has 1 marker and 17 code units, the second
    has 4 markers and 50 code units, which earns the increment for a length
    above 40. *)
Lemma C6_counterexample :
  let t1 := str "a b c [illegible]" in
  let t2 := str "[illegible][illegible][illegible][illegible] b c d" in
  len (words_of t1) = 4 /\ len (words_of t2) = 4 /\
  illegible_of t1 = 1 /\ illegible_of t2 = 4 /\
  calculateConfidence t1 = 0.125%float /\
  calculateConfidence t2 = (0.25 + 0.15 - 0.2)%float /\
  (calculateConfidence t2 <=? calculateConfidence t1)%float = false.
Proof. repeat split; vm_compute; reflexivity. Qed.

(** C6 (amended): for texts with markers, with the word count held fixed and
    the length and the number of non-blank lines not increased, more
    occurrences of the marker never give a higher confidence; the confidence
    never falls below 0.05; and the penalty subtracted is the number of
    occurrences divided by the number of words, times 0.5, capped at 0.2.
    The texts have at most [max_length] code units, as every JavaScript
    string. *)
Theorem C6_markers_never_raise_confidence :
  (forall t1 t2 : jsstring,
     length t1 <= max_length -> length t2 <= max_length ->
     1 <= illegible_of t1 <= illegible_of t2 ->
     len (words_of t2) = len (words_of t1) ->
     length t2 <= length t1 ->
     len (lines_of t2) <= len (lines_of t1) ->
     (calculateConfidence t2 <=? calculateConfidence t1)%float = true) /\
  (forall t : jsstring,
     length t <= max_length ->
     (0.05 <=? calculateConfidence t)%float = true) /\
  (forall t : jsstring,
     1 <= illegible_of t ->
     calculateConfidence t =
       Math_min 0.98 (Math_max 0.05
         (base_of t -
          Math_min 0.2 ((Number (illegible_of t) / Number (len (words_of t))) * 0.5))%float)).
Proof.
  split; [|split].
  - intros t1 t2 L1 L2 Hi Hw Hl Hn.
    destruct (confidence_value t1 L1) as (m1 & e1 & F1 & H1).
    destruct (confidence_value t2 L2) as (m2 & e2 & F2 & H2).
    apply (FloatFacts.fnum_leb _ _ _ _ _ _ F2 F1).
    destruct H1 as [[G1 _]|[_ (mc1 & ec1 & vy1 & Fc1 & _ & -> & [[Z1 _]|[_ P1]])]];
      [apply guard_no_marker in G1; lia|lia|].
    destruct H2 as [[G2 _]|[_ (mc2 & ec2 & vy2 & Fc2 & _ & -> & [[Z2 _]|[_ P2]])]];
      [apply guard_no_marker in G2; lia|lia|].
    apply ConfidenceFacts.clamp_value_mono.
    rewrite Hw in P2.
    apply (ConfidenceFacts.penalized_value_mono _ _ _ _ _ _ _ P1 P2).
    + pose proof (illegible_nonneg t1).
      destruct (floor_guard t1) eqn:G; [apply guard_no_marker in G; lia|].
      apply guard_false_words in G. lia.
    + lia.
    + apply (FloatFacts.fnum_leb_true _ _ _ _ _ _ Fc2 Fc1).
      unfold base_of. rewrite Hw.
      apply ConfidenceFacts.base_mono; try (apply gtb_le; lia).
  - intros t Hlen. exact (proj1 (confidence_bounds t Hlen)).
  - intros t Hi. rewrite confidence_cases.
    destruct (floor_guard t) eqn:G; [apply guard_no_marker in G; lia|].
    destruct (Z.eqb_spec (illegible_of t) 0); [lia|]. reflexivity.
Qed.

Lemma C6_witness :
  (calculateConfidence (str "[illegible] [illegible]") <=?
   calculateConfidence (str "[illegible] aaaaaaaaaaa"))%float = true /\
  (0.05 <=? calculateConfidence (str "[illegible] [illegible]"))%float = true /\
  calculateConfidence (str "[illegible] [illegible]") = 0.05%float.
Proof.
  split; [|split].
  - apply (proj1 C6_markers_never_raise_confidence); vm_compute;
      try reflexivity; try discriminate; split; discriminate.
  - apply (proj1 (proj2 C6_markers_never_raise_confidence)). vm_compute. discriminate.
  - rewrite (proj2 (proj2 C6_markers_never_raise_confidence)); vm_compute;
      [reflexivity|discriminate].
Defined.

(** ** The image normalizer *)

Section Pixels.

Lemma ToUint8Clamp_range (x : float) : 0 <= ToUint8Clamp x <= 255.
Proof.
  unfold ToUint8Clamp.
  destruct (Prim2SF x) as [s|s| |s m e]; try lia.
  - destruct s; lia.
  - destruct s; [lia|].
    destruct (Z.leb_spec 0 e) as [He|He].
    + pose proof (Z.shiftl_nonneg (Zpos m) e). lia.
    + assert (Hf : 0 <= Z.shiftr (Zpos m) (- e)) by (apply Z.shiftr_nonneg; lia).
      destruct (Z.leb_spec 255 (Z.shiftr (Zpos m) (- e))); [lia|].
      destruct (2 * (Zpos m - Z.shiftl (Z.shiftr (Zpos m) (- e)) (- e)) ?= Z.shiftl 1 (- e));
        try lia.
      destruct (Z.even (Z.shiftr (Zpos m) (- e))); lia.
Qed.

Lemma adjust_gray_level (r g b : Z) :
  let '(r', g', b') := adjust (read (Some r)) (read (Some g)) (read (Some b)) in
  ToUint8Clamp r' = gray_level r g b /\
  ToUint8Clamp g' = gray_level r g b /\
  ToUint8Clamp b' = gray_level r g b.
Proof. unfold adjust, read, gray_level, contrast. auto. Qed.

(** The loop on the pixels before a pixel and on the pixels after it. *)
Lemma grayscale_contrast_app (k : nat) :
  forall before rest : list Z,
    List.length before = (4 * k)%nat ->
    grayscale_contrast (before ++ rest) =
      grayscale_contrast before ++ grayscale_contrast rest.
Proof.
  induction k as [|k IH]; intros before rest Hlen.
  - destruct before; [reflexivity|discriminate].
  - destruct before as [|r [|g [|b [|a before]]]]; cbn [List.length] in Hlen; try lia.
    assert (Hb : List.length before = (4 * k)%nat) by lia.
    cbn [app grayscale_contrast].
    rewrite (IH before rest Hb).
    destruct (adjust (read (Some r)) (read (Some g)) (read (Some b))) as [[r' g'] b'].
    reflexivity.
Qed.

Lemma grayscale_contrast_pixel (r g b a : Z) (rest : list Z) :
  grayscale_contrast (r :: g :: b :: a :: rest) =
    gray_level r g b :: gray_level r g b :: gray_level r g b :: a ::
    grayscale_contrast rest.
Proof.
  cbn [grayscale_contrast].
  pose proof (adjust_gray_level r g b) as H.
  destruct (adjust (read (Some r)) (read (Some g)) (read (Some b))) as [[r' g'] b'].
  destruct H as (-> & -> & ->). reflexivity.
Qed.

Lemma all_below_spec (n : nat) (f : Z -> bool) :
  all_below n f = true -> forall z, 0 <= z < Z.of_nat n -> f z = true.
Proof.
  induction n as [|k IH]; intros H z Hz; [lia|].
  cbn [all_below] in H. apply andb_true_iff in H as [Hk H].
  destruct (Z.eq_dec z (Z.of_nat k)) as [->|Hne]; [exact Hk|].
  apply IH; [exact H|lia].
Qed.

(** Images of at most 2000 pixels a side: the scale is 1 and a side is
    unchanged.  Both facts are checked on the 2001 sides. *)
Lemma small_scale_is_1 (M : Z) :
  0 <= M <= 2000 -> Math_min 1 (maxDim / Number M) = 1%float.
Proof.
  intro HM.
  assert (H : all_below 2001
                (fun M => PrimFloat.Leibniz.eqb (Math_min 1 (maxDim / Number M)) 1) = true)
    by (vm_compute; reflexivity).
  apply FloatAxioms.Leibniz.eqb_spec.
  apply (all_below_spec 2001 _ H). lia.
Qed.

Lemma small_side_unchanged (X : Z) :
  0 <= X <= 2000 -> ToUint32 (Math_round (Number X * 1)) = X.
Proof.
  intro HX.
  assert (H : all_below 2001
                (fun X => ToUint32 (Math_round (Number X * 1)) =? X) = true)
    by (vm_compute; reflexivity).
  apply Z.eqb_eq. apply (all_below_spec 2001 _ H). lia.
Qed.

End Pixels.

(** ** The image normalizer: the scaled size *)

Module PageFacts.
Import FloatFacts ConfidenceFacts.
Local Open Scope R_scope.

(** [Math.round] of a positive number below 2^52. *)
Lemma Math_round_fnum (t : float) (m : positive) (e : Z) :
  fnum t m e -> (e < 0)%Z ->
  let n := Z.shiftr (2 * Zpos m + Z.shiftl 1 (- e)) (1 - e) in
  IZR n - / 2 <= F2R m e < IZR n + / 2 /\ (0 <= n)%Z /\
  Math_round t = if (n =? 0)%Z then zero else Number n.
Proof.
  intros [Et _] He n.
  assert (Hn : n = ((2 * Zpos m + 2 ^ (- e)) / 2 ^ (1 - e))%Z).
  { unfold n. rewrite Z.shiftl_mul_pow2, Z.shiftr_div_pow2 by lia. f_equal. lia. }
  assert (HD : (2 ^ (1 - e) = 2 * 2 ^ (- e))%Z).
  { replace (1 - e)%Z with (Z.succ (- e)) by lia. apply Z.pow_succ_r. lia. }
  assert (HP : (0 < 2 ^ (- e))%Z) by (apply Z.pow_pos_nonneg; lia).
  pose proof (Z_div_mod_eq_full (2 * Zpos m + 2 ^ (- e)) (2 ^ (1 - e))) as Hdm.
  pose proof (Z.mod_pos_bound (2 * Zpos m + 2 ^ (- e)) (2 ^ (1 - e)) ltac:(lia)) as Hmod.
  rewrite <- Hn in Hdm.
  assert (Hn0 : (0 <= n)%Z).
  { rewrite Hn. apply Z.div_pos; lia. }
  assert (Hz : (2 * 2 ^ (- e) * n <= 2 * Zpos m + 2 ^ (- e) < 2 * 2 ^ (- e) * n + 2 * 2 ^ (- e))%Z)
    by lia.
  split; [|split; [exact Hn0|]].
  - destruct Hz as [Hz1 Hz2]. apply IZR_le in Hz1. apply IZR_lt in Hz2.
    repeat (rewrite plus_IZR in Hz1 || rewrite mult_IZR in Hz1).
    repeat (rewrite plus_IZR in Hz2 || rewrite mult_IZR in Hz2).
    rewrite (IZR_pow2_bpow (- e)) in Hz1, Hz2 by lia.
    assert (Hb : bpow e = / bpow (- e)) by (rewrite <- bpow_opp; f_equal; lia).
    unfold F2R. rewrite Hb.
    pose proof (bpow_gt_0 (- e)) as Pp.
    set (P := bpow (- e)) in *. set (mr := IZR (Zpos m)) in *. set (nr := IZR n) in *.
    split.
    + apply Rmult_le_reg_r with P; [exact Pp|].
      replace (mr * / P * P) with mr by (field; lra). nra.
    + apply Rmult_lt_reg_r with P; [exact Pp|].
      replace (mr * / P * P) with mr by (field; lra). nra.
  - unfold Math_round. rewrite Et.
    destruct (Z.leb_spec 0 e); [lia|]. cbn [cond_Zopp]. fold n.
    destruct (n =? 0)%Z; [reflexivity|].
    destruct (Z.ltb_spec n 0); [lia|reflexivity].
Qed.

Lemma ToUint32_Number (n : Z) : (0 <= n < 2 ^ 32)%Z -> ToUint32 (Number n) = n.
Proof.
  intro Hn. destruct (Z.eq_dec n 0) as [->|Hne]; [reflexivity|].
  destruct (fnum_Number n) as (m & k & Hk & Em & [Ef _] & _).
  { change (2 ^ 32)%Z with 4294967296%Z in Hn. change (2 ^ 53)%Z with 9007199254740992%Z. lia. }
  unfold ToUint32. rewrite Ef. cbn [cond_Zopp].
  assert (Hv : (if (0 <=? - k)%Z then Z.shiftl (Zpos m) (- k)
                else Z.shiftr (Zpos m) (- - k)) = n).
  { destruct (Z.leb_spec 0 (- k)).
    - replace k with 0%Z in * by lia. rewrite Z.shiftl_0_r. rewrite Em. simpl. lia.
    - rewrite Z.shiftr_div_pow2 by lia. rewrite Em. replace (- - k)%Z with k by lia.
      apply Z.div_mul. apply Z.pow_nonzero; lia. }
  rewrite Hv. apply Z.mod_small. change (2 ^ 32)%Z with 4294967296%Z in Hn. lia.
Qed.

Lemma fnum_2000 : fnum maxDim 8796093022208000 (-42).
Proof. fnum_tac. Qed.

Lemma fnum_1 : fnum 1 4503599627370496 (-52).
Proof. fnum_tac. Qed.

Lemma F2R_2000 : F2R 8796093022208000 (-42) = 2000.
Proof.
  unfold F2R. change (bpow (-42)) with (bpow (- (42))).
  rewrite bpow_opp, (bpow_IZR 42) by lia.
  change (2 ^ 42)%Z with 4398046511104%Z. lra.
Qed.

Lemma F2R_1 : F2R 4503599627370496 (-52) = 1.
Proof.
  unfold F2R. change (bpow (-52)) with (bpow (- (52))).
  rewrite bpow_opp, (bpow_IZR 52) by lia.
  change (2 ^ 52)%Z with 4503599627370496%Z. field.
Qed.

(** The error of the two roundings, between the exact proportional size and
    the integer that [Math.round] answers. *)
Lemma side_error (Mr Xr r vs vt nr : R) :
  2001 <= Mr <= 4294967296 -> 1 <= Xr <= Mr ->
  r * Mr = 2000 ->
  Rabs (vs - r) <= r / 9007199254740992 ->
  Rabs (vt - Xr * vs) <= Xr * vs / 9007199254740992 ->
  nr - / 2 <= vt < nr + / 2 ->
  vs < 1 /\ vt < 2001 /\
  - (Mr + 1) < 2 * (nr * Mr - 2000 * Xr) < Mr + 1.
Proof.
  intros HM HX Hr Hs Ht Hn.
  apply Rabs_le_inv in Hs. apply Rabs_le_inv in Ht.
  assert (Hr0 : 0 < r) by nra.
  assert (Hr1 : r <= 2000 / 2001) by nra.
  set (q := (vs - r) * Mr).
  assert (Hq : - (2000 / 9007199254740992) <= q <= 2000 / 9007199254740992).
  { unfold q. split; nra. }
  assert (HvsM : vs * Mr = q + 2000) by (unfold q; lra).
  set (A := Xr * q).
  assert (HA : - (1 / 1000) <= A <= 1 / 1000).
  { unfold A. split; nra. }
  set (B := (vt - Xr * vs) * Mr).
  assert (HXvM : Xr * vs * Mr = A + 2000 * Xr) by (unfold A; nra).
  assert (HB : - (1 / 1000) <= B <= 1 / 1000).
  { unfold B. split.
    - apply Rle_trans with (- (Xr * vs / 9007199254740992) * Mr); [nra|nra].
    - apply Rle_trans with (Xr * vs / 9007199254740992 * Mr); [nra|nra]. }
  assert (HC : - (Mr / 2) < (nr - vt) * Mr <= Mr / 2) by (split; nra).
  assert (Hsum : nr * Mr - 2000 * Xr = (nr - vt) * Mr + B + A).
  { unfold B. rewrite <- (Rplus_0_r (nr * Mr - 2000 * Xr)).
    replace 0 with (A - (Xr * vs * Mr - 2000 * Xr)) by lra. ring. }
  split; [lra|]. split; [|lra].
  assert (vt * Mr <= 2001 * Mr - Mr / 2); [|nra].
  replace (vt * Mr) with (B + (A + 2000 * Xr)) by (unfold B; lra). nra.
Qed.

(** A side [X] of an image whose larger side [M] exceeds 2000. *)
Lemma scaled_side (M X : Z) :
  (2000 < M < 2 ^ 32)%Z -> (0 <= X <= M)%Z ->
  let n := ToUint32 (Math_round (Number X * Math_min 1 (maxDim / Number M))) in
  (0 <= n <= 2000)%Z /\ (2 * Z.abs (n * M - 2000 * X) <= M)%Z.
Proof.
  intros HM HX.
  change (2 ^ 32)%Z with 4294967296%Z in HM.
  destruct (fnum_Number M) as (mM & kM & HkM & _ & FM & VM).
  { change (2 ^ 53)%Z with 9007199254740992%Z. lia. }
  destruct (fnum_div _ _ _ _ _ _ fnum_2000 FM ltac:(lia)) as (ms & es & Fs & Rs & Bs).
  rewrite F2R_2000, VM in Rs.
  pose proof (rounds_to_error _ _ Rs) as Es.
  assert (HMr : 2001 <= IZR M <= 4294967296).
  { split; apply IZR_le; lia. }
  assert (Hr : 2000 / IZR M * IZR M = 2000) by (field; lra).
  destruct (Z.eq_dec X 0) as [->|HX0].
  - (* an empty side stays empty *)
    assert (Et : Prim2SF (Number 0 * Math_min 1 (maxDim / Number M)) = S754_zero false).
    { rewrite FloatAxioms.mul_spec.
      change (Prim2SF (Number 0)) with (S754_zero false).
      destruct (Math_min_fnum _ _ _ _ _ _ fnum_1 Fs) as [[E _]|[E _]]; rewrite E.
      - now rewrite (proj1 fnum_1).
      - now rewrite (proj1 Fs). }
    cbv zeta. unfold Math_round. rewrite Et. unfold ToUint32. rewrite Et.
    split; [lia|]. change (0 mod 4294967296)%Z with 0%Z. lia.
  - destruct (fnum_Number X) as (mX & kX & HkX & _ & FX & VX).
    { change (2 ^ 53)%Z with 9007199254740992%Z. lia. }
    assert (HXr : 1 <= IZR X <= IZR M) by (split; apply IZR_le; lia).
    (* the scale is below 1 *)
    assert (Hs1 : F2R ms es < 1).
    { apply Rabs_le_inv in Es.
      assert (0 < 2000 / IZR M) by (apply Rdiv_lt_0_compat; lra).
      assert (2000 / IZR M <= 2000 / 2001) by nra. lra. }
    assert (Esc : Math_min 1 (maxDim / Number M) = (maxDim / Number M)%float).
    { destruct (Math_min_fnum _ _ _ _ _ _ fnum_1 Fs) as [[_ L]|[E _]]; [|exact E].
      rewrite F2R_1 in L. lra. }
    rewrite Esc.
    destruct (fnum_mul _ _ _ _ _ _ FX Fs ltac:(lia)) as (mt & et & Ft & Rt & Bt).
    rewrite VX in Rt.
    pose proof (rounds_to_error _ _ Rt) as Et.
    assert (Het : (et < 0)%Z).
    { destruct (Z_lt_le_dec et 0) as [|Hge]; [assumption|exfalso].
      assert (4503599627370496 <= F2R mt et).
      { unfold F2R. pose proof (mantissa_bounds _ (proj1 (proj2 Ft))).
        pose proof (bpow_ge_1 et Hge). nra. }
      apply Rabs_le_inv in Et. apply Rabs_le_inv in Es.
      assert (0 < 2000 / IZR M) by (apply Rdiv_lt_0_compat; lra).
      assert (IZR X * F2R ms es <= 4294967296) by nra. nra. }
    destruct (Math_round_fnum _ _ _ Ft Het) as (Hn & Hn0 & Er).
    set (n := Z.shiftr (2 * Zpos mt + Z.shiftl 1 (- et)) (1 - et)) in *.
    destruct (side_error (IZR M) (IZR X) (2000 / IZR M) (F2R ms es) (F2R mt et) (IZR n)
                HMr HXr Hr Es Et Hn) as (_ & Hvt & Hlo & Hhi).
    assert (Hz : (- (M + 1) < 2 * (n * M - 2000 * X) < M + 1)%Z).
    { split; apply lt_IZR;
        rewrite ?opp_IZR, ?plus_IZR, ?mult_IZR, ?minus_IZR, ?mult_IZR; lra. }
    assert (Hn2000 : (0 <= n <= 2000)%Z) by nia.
    assert (Eu : ToUint32 (Math_round (Number X * (maxDim / Number M))) = n).
    { rewrite Er. destruct (Z.eqb_spec n 0) as [->|Hne]; [reflexivity|].
      apply ToUint32_Number. change (2 ^ 32)%Z with 4294967296%Z. lia. }
    cbv zeta. rewrite Eu. split; [exact Hn2000|lia].
Qed.

End PageFacts.

(** C9, at an image of 1 by 4001 pixels: the scale is 2000 / 4001, the
    width [Math.round (1 * scale)] is 0, the canvas is 0 by 2000,
    [getImageData(0, 0, 0, 2000)] throws inside [img.onload], and the promise
    of [preprocessToPngDataUrl] never resolves: there is no output, whatever
    the image shows. *)
Theorem C9_thin_image_no_output (drawn : Z -> Z -> list Z) :
  let img := Normalizer.thin_image drawn in
  2000 < Z.max (Normalizer.naturalWidth img) (Normalizer.naturalHeight img) /\
  scaled_size 1 4001 = (0%float, 2000%float) /\
  canvas_size 1 4001 = (0, 2000) /\
  Normalizer.getImageData img 0 2000 = None /\
  Normalizer.preprocessToPngDataUrl (Some img) = None.
Proof.
  cbv zeta. split; [reflexivity|].
  assert (E : scaled_size 1 4001 = (0%float, 2000%float)) by (vm_compute; reflexivity).
  split; [exact E|]. split; [vm_compute; reflexivity|].
  split; [reflexivity|].
  unfold Normalizer.preprocessToPngDataUrl, Normalizer.thin_image.
  cbn [Normalizer.naturalWidth Normalizer.naturalHeight]. rewrite E. reflexivity.
Qed.

(** * Further properties *)

Import Turns MoreSamples.

(** ** The handler: how many calls, in which order *)

Section RunBounds.

Variable gen : nat -> gen_request -> outcome.
Variable dataUrl : jsstring.

Lemma loop_trace_step (req : gen_request) (a : Z) (k : nat) (evs : list event) :
  loop_trace req (a + 1) k evs ->
  loop_trace req a (S k) (Call req :: Sleep (300 * a) :: evs).
Proof.
  intros [(j & Hj & ->) | ->].
  - left. exists (S j). split; [lia|reflexivity].
  - right. reflexivity.
Qed.

(** The events of the loop of one model. *)
Lemma retry_loop_trace (modelId : jsstring) (k : nat) :
  forall (attempt : Z) (lastError : jsval) (tr : list event),
  exists evs,
    snd (retry_loop gen dataUrl modelId k attempt lastError tr) = tr ++ evs /\
    loop_trace (request_for dataUrl modelId) attempt k evs.
Proof.
  induction k as [|k IH]; intros attempt lastError tr.
  - exists []. split; [cbn; now rewrite app_nil_r|]. right. reflexivity.
  - destruct (gen (ncalls tr) (request_for dataUrl modelId)) as [text|err] eqn:Hg.
    + rewrite (retry_turn_resolved gen dataUrl modelId k attempt lastError tr text Hg).
      eexists. split; [reflexivity|]. left. exists 0%nat. split; [lia|reflexivity].
    + destruct (is_permanent (message_of err)) eqn:Hp.
      * rewrite (retry_turn_permanent gen dataUrl modelId k attempt lastError err tr Hg Hp).
        eexists. split; [reflexivity|]. left. exists 0%nat. split; [lia|reflexivity].
      * rewrite (retry_turn_transient gen dataUrl modelId k attempt lastError err tr Hg Hp).
        destruct (IH (attempt + 1) err
                    (tr ++ [Call (request_for dataUrl modelId); Sleep (300 * attempt)]))
          as (evs & -> & Hl).
        exists (Call (request_for dataUrl modelId) :: Sleep (300 * attempt) :: evs).
        split; [now rewrite <- app_assoc|]. now apply loop_trace_step.
Qed.

(** The events of a run: those of the loop of the primary model, then, if
    and only if every call of the primary was rejected, those of the loop of
    the fallback model. *)
Lemma invoke_models_trace :
  exists evsP evsF,
    snd (invoke_models gen dataUrl []) = evsP ++ evsF /\
    loop_trace (request_for dataUrl PRIMARY_MODEL) 1 3 evsP /\
    (evsF = [] /\ ~ all_rejected gen 0 evsP \/
     loop_trace (request_for dataUrl FALLBACK_MODEL) 1 3 evsF /\
     all_rejected gen 0 evsP).
Proof.
  unfold invoke_models, callModelWithRetries. change (Z.to_nat 3) with 3%nat.
  destruct (retry_loop_trace PRIMARY_MODEL 3 1 VNull []) as (evsP & HP & LP).
  pose proof (retry_loop_shape gen dataUrl PRIMARY_MODEL 3 1 VNull []) as (evs' & HP' & SP).
  rewrite HP in HP'. apply app_inv_head in HP'. subst evs'.
  cbn [app] in HP.
  unfold try_catch at 1.
  destruct (retry_loop gen dataUrl PRIMARY_MODEL 3 1 VNull []) as [[t|e] tr1];
    cbn [fst snd] in *; subst tr1.
  - exists evsP, []. rewrite app_nil_r. split; [reflexivity|]. split; [exact LP|].
    left. split; [reflexivity|].
    destruct SP as (evs0 & req & -> & _ & Hg). intro Hall.
    apply all_rejected_at in Hall as [err Herr]. cbn in Hg. cbn in Herr. congruence.
  - destruct (retry_loop_trace FALLBACK_MODEL 3 1 VNull evsP) as (evsF & HF & LF).
    exists evsP, evsF. split; [|split; [exact LP|right; split; [exact LF|exact SP]]].
    unfold try_catch.
    destruct (retry_loop gen dataUrl FALLBACK_MODEL 3 1 VNull evsP) as [[t|e2] tr2];
      cbn [fst snd] in *; exact HF.
Qed.

End RunBounds.

Ltac loop_cases H :=
  let j := fresh "j" in
  let Hj := fresh "Hj" in
  destruct H as [(j & Hj & ->)| ->];
  [destruct j as [|[|[|j]]]; [| | |lia]|]; cbn [turns app].

(** X1: a request with an image makes at least one and at most three calls
    of the primary model, at most three of the fallback model, and no other
    call; each wait is 300, 600 or 900 ms, and the waits add up to at most
    3600 ms. *)
Theorem handler_call_bounds (gen : nat -> gen_request -> outcome) (image : File) :
  let tr := snd (POST gen (Some image) []) in
  (1 <= List.length (calls_of PRIMARY_MODEL tr) <= 3)%nat /\
  (List.length (calls_of FALLBACK_MODEL tr) <= 3)%nat /\
  ncalls tr =
    (List.length (calls_of PRIMARY_MODEL tr) + List.length (calls_of FALLBACK_MODEL tr))%nat /\
  Forall (fun ms => In ms [300; 600; 900]) (sleeps_of tr) /\
  0 <= total_wait tr <= 3600.
Proof.
  intro tr. subst tr. rewrite POST_answer. cbn [snd].
  destruct (invoke_models_trace gen (dataUrl_of image)) as (evsP & evsF & -> & LP & HF).
  assert (HPP : JS.eqb PRIMARY_MODEL PRIMARY_MODEL = true) by reflexivity.
  assert (HPF : JS.eqb PRIMARY_MODEL FALLBACK_MODEL = false) by reflexivity.
  assert (HFP : JS.eqb FALLBACK_MODEL PRIMARY_MODEL = false) by reflexivity.
  assert (HFF : JS.eqb FALLBACK_MODEL FALLBACK_MODEL = true) by reflexivity.
  destruct HF as [[-> _]|[LF _]].
  - loop_cases LP;
      unfold calls_of, ncalls, total_wait, sleeps_of;
      cbn [app filter flat_map model request_for is_call List.length fold_right];
      rewrite ?HPP, ?HPF, ?HFP, ?HFF; cbn [List.length fold_right app];
      (repeat split; try lia);
      repeat (apply Forall_cons; [cbn; lia|]); apply Forall_nil.
  - loop_cases LP; loop_cases LF;
      unfold calls_of, ncalls, total_wait, sleeps_of;
      cbn [app filter flat_map model request_for is_call List.length fold_right];
      rewrite ?HPP, ?HPF, ?HFP, ?HFF; cbn [List.length fold_right app];
      (repeat split; try lia);
      repeat (apply Forall_cons; [cbn; lia|]); apply Forall_nil.
Qed.

Lemma turns_calls_only (dataUrl m : jsstring) (j : nat) :
  forall a, calls_only dataUrl m (turns (request_for dataUrl m) a j).
Proof.
  induction j as [|j IH]; intro a; cbn [turns]; [constructor|].
  constructor; [reflexivity|]. constructor; [exact I|]. apply IH.
Qed.

Lemma loop_trace_calls_only (dataUrl m : jsstring) (a : Z) (k : nat) (evs : list event) :
  loop_trace (request_for dataUrl m) a k evs -> calls_only dataUrl m evs.
Proof.
  intros [(j & _ & ->) | ->]; [|apply turns_calls_only].
  apply Forall_app. split; [apply turns_calls_only|].
  constructor; [reflexivity|constructor].
Qed.

Lemma loop_trace_nonempty (req : gen_request) (a : Z) (k : nat) (evs : list event) :
  loop_trace req a (S k) evs -> evs <> [].
Proof.
  intros [(j & _ & ->) | ->]; [|discriminate].
  intro H. apply app_eq_nil in H as [_ H]. discriminate.
Qed.

(** X2: the events of a request with an image are those of the primary
    model followed by those of the fallback model.  Those of a model are
    failed turns, each a call of the model with the image of the request and
    the wait of 300 ms times the number of the turn, and then a last call,
    or three failed turns.  The fallback model is called if and only if
    every call of the primary model was rejected. *)
Theorem fallback_only_after_primary (gen : nat -> gen_request -> outcome) (image : File) :
  exists evsP evsF,
    snd (POST gen (Some image) []) = evsP ++ evsF /\
    loop_trace (request_for (dataUrl_of image) PRIMARY_MODEL) 1 3 evsP /\
    (evsF = [] \/ loop_trace (request_for (dataUrl_of image) FALLBACK_MODEL) 1 3 evsF) /\
    calls_only (dataUrl_of image) PRIMARY_MODEL evsP /\
    calls_only (dataUrl_of image) FALLBACK_MODEL evsF /\
    (evsF <> [] <-> all_rejected gen 0 evsP).
Proof.
  rewrite POST_answer. cbn [snd].
  destruct (invoke_models_trace gen (dataUrl_of image)) as (evsP & evsF & HE & LP & HF).
  exists evsP, evsF. split; [exact HE|]. split; [exact LP|].
  destruct HF as [[-> HN]|[LF HR]].
  - split; [now left|].
    split; [exact (loop_trace_calls_only _ _ _ _ _ LP)|].
    split; [constructor|]. split; [intro H; now contradiction H|].
    intro H. now contradiction HN.
  - split; [now right|].
    split; [exact (loop_trace_calls_only _ _ _ _ _ LP)|].
    split; [exact (loop_trace_calls_only _ _ _ _ _ LF)|].
    split; [intros _; exact HR|]. intros _. exact (loop_trace_nonempty _ _ _ _ LF).
Qed.

(** The handler from its first line, on a form with a file, is [POST]. *)
Lemma POST_request_file (gen : nat -> gen_request -> outcome) (f : File)
    (tr : list event) :
  Request.POST_request gen (Request.Form (Some (Request.FieldFile f))) tr =
    POST gen (Some f) tr.
Proof. reflexivity. Qed.

(** X3: the handler answers every request, with the status 200, 400 or 500.
    The status is 400 exactly when the body is a form whose field [image] is
    missing or is the empty string.  It is 200 exactly when the last event of
    the request is a call that resolved with a text that is not empty.  A
    model is called only if the field is a file: a body that is not a form
    and a field that is a string with something in it are answered 500
    without a call. *)
Theorem handler_status (gen : nat -> gen_request -> outcome) (r : Request.request) :
  exists resp tr,
    Request.POST_request gen r [] = (Normal resp, tr) /\
    (status resp = 200 \/ status resp = 400 \/ status resp = 500) /\
    (status resp = 400 <->
     r = Request.Form None \/ r = Request.Form (Some (Request.FieldString []))) /\
    (status resp = 200 <->
     exists pre req text,
       tr = pre ++ [Call req] /\
       gen (ncalls pre) req = Resolves (Some text) /\
       text <> []) /\
    (tr <> [] -> exists f, r = Request.Form (Some (Request.FieldFile f))) /\
    (forall f, r = Request.Form (Some (Request.FieldFile f)) ->
       (resp, tr) = (answer (fst (invoke_models gen (dataUrl_of f) [])),
                     snd (invoke_models gen (dataUrl_of f) []))).
Proof.
  assert (Hno : forall n : Z,
            n <> 200 ->
            n = 200 <->
            exists pre req text,
              ([] : list event) = pre ++ [Call req] /\
              gen (ncalls pre) req = Resolves (Some text) /\ text <> []).
  { intros n Hs. split; [intro H; now contradiction Hs|].
    intros (pre & req & text & H & _). destruct pre; discriminate. }
  destruct r as [err|[[f|[|c s]]|]].
  - (* the body is not a form *)
    eexists _, _. split; [reflexivity|]. cbn [failure_response status].
    split; [auto|]. split; [split; [discriminate|intros [H|H]; discriminate]|].
    split; [apply Hno; discriminate|].
    split; [intro H; now contradiction H|]. intros f H. discriminate.
  - (* a file *)
    rewrite POST_request_file, POST_answer. eexists _, _. split; [reflexivity|].
    destruct (invoke_models_shape gen (dataUrl_of f) []) as (evs & Hevs & Hr).
    cbn [app] in Hevs.
    assert (Hconv : forall pre req text,
              snd (invoke_models gen (dataUrl_of f) []) = pre ++ [Call req] ->
              gen (ncalls pre) req = Resolves (Some text) -> text <> [] ->
              status (answer (fst (invoke_models gen (dataUrl_of f) []))) = 200).
    { intros pre req text Htr Hres Hne.
      destruct (resolved_in_run gen f pre [] req (Some text) Htr Hres) as [_ ->].
      destruct text; [now contradiction Hne|reflexivity]. }
    assert (H400 : forall P : Prop,
              (500 = 400 <-> Request.Form (Some (Request.FieldFile f)) = Request.Form None \/
                             Request.Form (Some (Request.FieldFile f)) =
                               Request.Form (Some (Request.FieldString [])))).
    { intros _. split; [discriminate|intros [H|H]; discriminate]. }
    assert (H400' : 200 = 400 <->
              Request.Form (Some (Request.FieldFile f)) = Request.Form None \/
              Request.Form (Some (Request.FieldFile f)) =
                Request.Form (Some (Request.FieldString []))).
    { split; [discriminate|intros [H|H]; discriminate]. }
    assert (Hlast : forall f', Request.Form (Some (Request.FieldFile f)) =
                               Request.Form (Some (Request.FieldFile f')) ->
              (answer (fst (invoke_models gen (dataUrl_of f) [])),
               snd (invoke_models gen (dataUrl_of f) [])) =
              (answer (fst (invoke_models gen (dataUrl_of f') [])),
               snd (invoke_models gen (dataUrl_of f') []))).
    { intros f' E. now injection E as <-. }
    destruct (fst (invoke_models gen (dataUrl_of f) [])) as [[[|c t]|]|e];
      cbn [answer truthy_string failure_response status] in *.
    + split; [auto|]. split; [exact (H400 True)|]. split.
      * split; [discriminate|].
        intros (pre & req & text & H1 & H2 & H3). exact (Hconv pre req text H1 H2 H3).
      * split; [intros _; now exists f|exact Hlast].
    + split; [auto|]. split; [exact H400'|]. split.
      * split; [|reflexivity]. intros _. destruct Hr as (evs0 & req & -> & _ & Hg).
        exists evs0, req, (c :: t). split; [exact Hevs|]. split; [exact Hg|discriminate].
      * split; [intros _; now exists f|exact Hlast].
    + split; [auto|]. split; [exact (H400 True)|]. split.
      * split; [discriminate|].
        intros (pre & req & text & H1 & H2 & H3). exact (Hconv pre req text H1 H2 H3).
      * split; [intros _; now exists f|exact Hlast].
    + split; [auto|]. split; [exact (H400 True)|]. split.
      * split; [discriminate|].
        intros (pre & req & text & H1 & H2 & H3). exact (Hconv pre req text H1 H2 H3).
      * split; [intros _; now exists f|exact Hlast].
  - (* the empty string *)
    eexists _, _. split; [reflexivity|]. cbn [status].
    split; [auto|]. split; [split; auto|].
    split; [apply Hno; discriminate|].
    split; [intro H; now contradiction H|]. intros f H. discriminate.
  - (* a string with something in it *)
    eexists _, _. split; [reflexivity|]. cbn [failure_response status].
    split; [auto|]. split; [split; [discriminate|intros [H|H]; discriminate]|].
    split; [apply Hno; discriminate|].
    split; [intro H; now contradiction H|]. intros f H. discriminate.
  - (* no field *)
    eexists _, _. split; [reflexivity|]. cbn [status].
    split; [auto|]. split; [split; auto|].
    split; [apply Hno; discriminate|].
    split; [intro H; now contradiction H|]. intros f H. discriminate.
Qed.

(** ** The handler: which error it reports *)

Section Thrown.

Variable gen : nat -> gen_request -> outcome.
Variable dataUrl : jsstring.

(** What a loop throws is what its last call was rejected with. *)
Lemma retry_loop_thrown (modelId : jsstring) (k : nat) :
  forall (attempt : Z) (lastError : jsval) (tr : list event) (e : jsval),
    (k = 0%nat ->
     gen (ncalls tr - 1) (request_for dataUrl modelId) = Rejects lastError) ->
    fst (retry_loop gen dataUrl modelId k attempt lastError tr) = Throw e ->
    gen (ncalls (snd (retry_loop gen dataUrl modelId k attempt lastError tr)) - 1)
        (request_for dataUrl modelId) = Rejects e.
Proof.
  induction k as [|k IH]; intros attempt lastError tr e H0 Hthrow.
  - cbn in *. injection Hthrow as <-. now apply H0.
  - destruct (gen (ncalls tr) (request_for dataUrl modelId)) as [text|err] eqn:Hg.
    + rewrite (retry_turn_resolved gen dataUrl modelId k attempt lastError tr text Hg)
        in Hthrow. discriminate.
    + destruct (is_permanent (message_of err)) eqn:Hp.
      * rewrite (retry_turn_permanent gen dataUrl modelId k attempt lastError err tr Hg Hp)
          in *.
        cbn [fst snd] in *. injection Hthrow as <-.
        rewrite ncalls_app. cbn. now replace (ncalls tr + 1 - 1)%nat with (ncalls tr) by lia.
      * rewrite (retry_turn_transient gen dataUrl modelId k attempt lastError err tr Hg Hp)
          in *.
        apply IH; [|exact Hthrow]. intros _.
        rewrite ncalls_app. cbn. now replace (ncalls tr + 1 - 1)%nat with (ncalls tr) by lia.
Qed.

(** What a run throws: the error of the last call of the primary model, or,
    if that is falsy, the error of the last call of the fallback model. *)
Lemma invoke_models_thrown (e : jsval) :
  fst (invoke_models gen dataUrl []) = Throw e ->
  exists evsP evsF eP eF,
    snd (invoke_models gen dataUrl []) = evsP ++ evsF /\
    loop_trace (request_for dataUrl PRIMARY_MODEL) 1 3 evsP /\
    loop_trace (request_for dataUrl FALLBACK_MODEL) 1 3 evsF /\
    gen (ncalls evsP - 1) (request_for dataUrl PRIMARY_MODEL) = Rejects eP /\
    gen (ncalls (evsP ++ evsF) - 1) (request_for dataUrl FALLBACK_MODEL) = Rejects eF /\
    e = (if truthy eP then eP else eF).
Proof.
  unfold invoke_models, callModelWithRetries. change (Z.to_nat 3) with 3%nat.
  destruct (retry_loop_trace gen dataUrl PRIMARY_MODEL 3 1 VNull []) as (evsP & HP & LP).
  cbn [app] in HP.
  pose proof (fun e => @retry_loop_thrown PRIMARY_MODEL 3 1 VNull [] e
                         ltac:(discriminate)) as TP.
  unfold try_catch at 1 3.
  destruct (retry_loop gen dataUrl PRIMARY_MODEL 3 1 VNull []) as [[t|eP] tr1];
    cbn [fst snd] in *; [discriminate|]. subst tr1.
  destruct (retry_loop_trace gen dataUrl FALLBACK_MODEL 3 1 VNull evsP) as (evsF & HF & LF).
  pose proof (fun e => @retry_loop_thrown FALLBACK_MODEL 3 1 VNull evsP e
                         ltac:(discriminate)) as TF.
  unfold try_catch.
  destruct (retry_loop gen dataUrl FALLBACK_MODEL 3 1 VNull evsP) as [[t|eF] tr2];
    cbn [fst snd] in *; [discriminate|]. subst tr2.
  intro He. unfold throw in He. cbn [fst] in He. injection He as <-.
  exists evsP, evsF, eP, eF. repeat split; auto.
Qed.

End Thrown.

(** X6: if every call of a request was rejected, the handler answers 500
    and reports what the last call of the primary model was rejected with;
    the fallback model's last error is reported only if the primary's is
    falsy, so never when it is an [Error] object. *)
Theorem failure_reports_primary_error (gen : nat -> gen_request -> outcome)
    (image : File) :
  let tr := snd (POST gen (Some image) []) in
  let P := request_for (dataUrl_of image) PRIMARY_MODEL in
  let F := request_for (dataUrl_of image) FALLBACK_MODEL in
  let primaryErr := thrown (gen (List.length (calls_of PRIMARY_MODEL tr) - 1)%nat P) in
  let fallbackErr := thrown (gen (ncalls tr - 1)%nat F) in
  all_rejected gen 0 tr ->
  fst (POST gen (Some image) []) =
    Normal (failure_response (if truthy primaryErr then primaryErr else fallbackErr)).
Proof.
  intros tr P F primaryErr fallbackErr Hrej.
  subst tr primaryErr fallbackErr P F. rewrite POST_answer in *. cbn [fst snd] in *.
  destruct (invoke_models_shape gen (dataUrl_of image) []) as (evs & Hevs & Hr).
  cbn [app] in Hevs.
  destruct (fst (invoke_models gen (dataUrl_of image) [])) as [text|e] eqn:Hfst.
  - destruct Hr as (evs0 & req & -> & _ & Hg). rewrite Hevs in Hrej.
    apply all_rejected_at in Hrej as [err Hrej]. cbn in Hg. cbn in Hrej. congruence.
  - destruct (invoke_models_thrown gen (dataUrl_of image) e Hfst)
      as (evsP & evsF & eP & eF & HE & LP & LF & HP & HF & ->).
    rewrite HE.
    assert (HPP : JS.eqb PRIMARY_MODEL PRIMARY_MODEL = true) by reflexivity.
    assert (HFP : JS.eqb FALLBACK_MODEL PRIMARY_MODEL = false) by reflexivity.
    assert (Hk : List.length (calls_of PRIMARY_MODEL (evsP ++ evsF)) = ncalls evsP).
    { clear HP HF HE.
      loop_cases LP; loop_cases LF;
        unfold calls_of, ncalls;
        cbn [app filter model request_for is_call List.length];
        rewrite ?HPP, ?HFP; reflexivity. }
    rewrite Hk, HP, HF. reflexivity.
Qed.

Lemma failure_reports_primary_error_witness :
  all_rejected always_boom 0 (snd (POST always_boom (Some a_png) [])) /\
  fst (POST always_boom (Some a_png) []) =
    Normal {| status := 500;
              json := Failed (str "Failed to extract text from image")
                        (str "rate limit reached") |}.
Proof.
  assert (H : all_rejected always_boom 0 (snd (POST always_boom (Some a_png) []))).
  { vm_compute. repeat split; eexists; reflexivity. }
  split; [exact H|].
  exact (failure_reports_primary_error always_boom a_png H).
Defined.

(** ** The handler: the text it returns *)

Section Trimmed.

Lemma trimStart_head (s : jsstring) :
  match trimStart s with
  | [] => True
  | c :: _ => is_white_space c = false
  end.
Proof.
  induction s as [|c s IH]; cbn [trimStart]; [exact I|].
  destruct (is_white_space c) eqn:E; [exact IH|exact E].
Qed.

Lemma trimStart_snoc (s : jsstring) (c : char) :
  is_white_space c = false -> trimStart (s ++ [c]) = trimStart s ++ [c].
Proof.
  intro Hc. induction s as [|d s IH]; cbn [trimStart app].
  - now rewrite Hc.
  - destruct (is_white_space d); [exact IH|reflexivity].
Qed.

Lemma trim_no_outer_space (s : jsstring) : no_outer_space (trim s).
Proof.
  unfold no_outer_space, trim, trimEnd. rewrite rev_involutive.
  split; [|apply trimStart_head].
  pose proof (trimStart_head s) as H.
  destruct (trimStart s) as [|c t]; [exact I|].
  cbn [rev]. rewrite (trimStart_snoc _ c H), rev_app_distr. exact H.
Qed.

Lemma trim_blank (s : jsstring) :
  forallb is_white_space s = true -> trim s = [].
Proof.
  intro H. unfold trim, trimEnd.
  apply trimStart_nil in H. rewrite H. reflexivity.
Qed.

End Trimmed.

(** X4: a model text that is not empty but consists of white space only is
    answered as a success, with the empty text and the confidence 0.05. *)
Theorem blank_text_is_a_success (gen : nat -> gen_request -> outcome)
    (image : File) (pre post : list event) (req : gen_request) (text : jsstring) :
  snd (POST gen (Some image) []) = pre ++ Call req :: post ->
  gen (ncalls pre) req = Resolves (Some text) ->
  text <> [] ->
  forallb is_white_space text = true ->
  fst (POST gen (Some image) []) =
    Normal {| status := 200; json := Extracted [] 0.05 |}.
Proof.
  intros Htr Hres Hne Hblank. rewrite POST_answer in *. cbn [fst snd] in *.
  destruct (resolved_in_run gen image pre post req (Some text) Htr Hres) as [_ ->].
  cbn [answer]. destruct text as [|c t]; [now contradiction Hne|].
  cbn [truthy_string]. rewrite (trim_blank _ Hblank).
  unfold calculateConfidence. rewrite trim_length_0, Hblank.
  now rewrite !orb_true_r.
Qed.

Lemma blank_text_is_a_success_witness :
  fst (POST reads_blank (Some a_png) []) =
    Normal {| status := 200; json := Extracted [] 0.05 |}.
Proof.
  apply (blank_text_is_a_success reads_blank a_png [] []
           (request_for (dataUrl_of a_png) PRIMARY_MODEL) [32; 10; 32]%N);
    [reflexivity|reflexivity|discriminate|reflexivity].
Defined.

(** X5: the text of a success response never begins or ends with white
    space. *)
Theorem success_text_is_trimmed (gen : nat -> gen_request -> outcome)
    (image : option File) (resp : response) (tr : list event)
    (text : jsstring) (confidence : float) :
  POST gen image [] = (Normal resp, tr) ->
  json resp = Extracted text confidence ->
  no_outer_space text.
Proof.
  intros Hpost Hjson. destruct image as [image|].
  2:{ cbn in Hpost. injection Hpost as <- _. discriminate. }
  rewrite POST_answer in Hpost. injection Hpost as <- _.
  destruct (fst (invoke_models gen (dataUrl_of image) [])) as [[[|c t]|]|e];
    cbn [answer truthy_string failure_response json] in Hjson; try discriminate.
  injection Hjson as <- _. apply trim_no_outer_space.
Qed.

Lemma success_text_is_trimmed_witness : no_outer_space (str "a").
Proof.
  apply (success_text_is_trimmed reads_padded (Some a_png)
           {| status := 200;
              json := Extracted (str "a")
                        (calculateConfidence
                           (str "a                                        ")) |}
           [Call (request_for (dataUrl_of a_png) PRIMARY_MODEL)]
           (str "a")
           (calculateConfidence (str "a                                        ")));
    reflexivity.
Defined.

(** ** The estimator: which scores occur *)

Section WordCount.
Import Estimator.

(** Words are separated by white space: [w] words need [2 w - 1] code units,
    and one more if the text begins with white space. *)
Lemma split_ws_words (s : jsstring) :
  forall b : bool,
    2 * len (filter truthy_string (split_ws_from b s)) - 1 <= length s /\
    (match split_ws_from b s with
     | [] :: _ => 2 * len (filter truthy_string (split_ws_from b s)) <= length s
     | _ => True
     end).
Proof.
  unfold len, length.
  induction s as [|c s IH]; intro b; cbn [split_ws_from].
  - cbn. lia.
  - cbn [List.length]. destruct (is_white_space c).
    + destruct (IH true) as [H1 H2]. destruct b.
      * split; [lia|].
        destruct (split_ws_from true s) as [|[|d p] ps]; auto; lia.
      * cbn [filter truthy_string]. split; lia.
    + destruct (IH false) as [H1 H2].
      destruct (split_ws_from false s) as [|[|d p] ps];
        cbn [filter truthy_string List.length] in *; split; try exact I; lia.
Qed.

Lemma words_twice (s : jsstring) : 2 * len (words_of s) - 1 <= length s.
Proof. apply (split_ws_words s false). Qed.

End WordCount.

(** X7: a text without markers gets one of eleven scores: the floor 0.05 or
    one of ten base scores.  A text of more than 20 words has more than 40
    code units, so the increment for words is never added without the
    increment for length. *)
Theorem marker_free_scores (text : jsstring) :
  illegible_of text = 0 ->
  In (calculateConfidence text) Scores.clean_scores /\
  ((len (words_of text) >? 20) = true -> (length text >? 40) = true).
Proof.
  intro Hi.
  assert (Hw : (len (words_of text) >? 20) = true -> (length text >? 40) = true).
  { intro H. apply Z.gtb_lt in H. apply Z.gtb_lt.
    pose proof (words_twice text). lia. }
  split; [|exact Hw].
  rewrite confidence_cases, Hi. cbn [Z.eqb].
  destruct (Estimator.floor_guard text); [left; reflexivity|].
  unfold Estimator.base_of.
  assert (Hl : (length text >? 200) = true -> (length text >? 40) = true).
  { intro H. apply Z.gtb_lt in H. apply Z.gtb_lt. lia. }
  destruct (length text >? 40), (length text >? 200), (len (lines_of text) >? 2),
    (len (words_of text) >? 20);
    try (specialize (Hl eq_refl); discriminate);
    try (specialize (Hw eq_refl); discriminate);
    unfold Scores.clean_scores; cbn [In];
    repeat (first [left; vm_compute; reflexivity|right]).
Qed.

Lemma marker_free_scores_witness :
  In (calculateConfidence (str "total due 12.50")) Scores.clean_scores.
Proof.
  apply (marker_free_scores (str "total due 12.50")). reflexivity.
Defined.

(** X17: a text without markers gets the floor 0.05 only if it is empty,
    white space only, or exactly [No text detected].  The answer the prompt
    asks for when the image has no text ends with a full stop, so it is not
    the sentinel, and it scores 0.25 as a text of three words. *)
Theorem floor_only_for_guarded :
  (forall text : jsstring,
     illegible_of text = 0 ->
     (calculateConfidence text = 0.05%float <->
      text = [] \/ text = NO_TEXT \/ forallb is_white_space text = true)) /\
  userText = firstn 90 userText ++ NO_TEXT ++ str "." /\
  calculateConfidence (NO_TEXT ++ str ".") = 0.25%float.
Proof.
  split; [|split; vm_compute; reflexivity].
  intros text Hi. rewrite confidence_cases, Hi. cbn [Z.eqb].
  unfold Estimator.floor_guard.
  destruct (JS.eqb text []) eqn:E1.
  { apply eqb_eq in E1. cbn [orb]. split; auto. }
  destruct (JS.eqb text NO_TEXT) eqn:E2.
  { apply eqb_eq in E2. cbn [orb]. split; auto. }
  destruct (forallb is_white_space text) eqn:E3.
  { cbn [orb]. split; auto. }
  cbn [orb]. split.
  - intro H. exfalso. unfold Estimator.base_of in H.
    destruct (length text >? 40), (length text >? 200), (len (lines_of text) >? 2),
      (len (words_of text) >? 20);
      apply (f_equal Prim2SF) in H; vm_compute in H; discriminate.
  - intros [->|[->|H]]; discriminate.
Qed.

Lemma floor_only_for_guarded_witness :
  calculateConfidence (str "   ") = 0.05%float <->
  str "   " = [] \/ str "   " = NO_TEXT \/ forallb is_white_space (str "   ") = true.
Proof.
  apply (proj1 floor_only_for_guarded (str "   ")). reflexivity.
Defined.

(** ** The estimator: the case of the letters *)

Section LetterCase.
Import Scores.

Lemma lower_range (c : char) :
  is_lower c = true -> In (N.to_nat c) (seq 97 26).
Proof.
  unfold is_lower. intro H. apply andb_true_iff in H as [H1 H2].
  apply N.leb_le in H1, H2. apply in_seq. lia.
Qed.

Lemma lower_facts (c : char) :
  is_lower c = true ->
  is_white_space c = false /\ is_white_space (c - 32)%N = false /\
  is_lower (c - 32)%N = false /\ (c <? 128)%N = true /\ (c - 32 <? 128)%N = true /\
  N.eqb c LF = false /\ N.eqb (c - 32)%N LF = false.
Proof.
  intro H.
  assert (Hall : forallb (fun n =>
                    let c := N.of_nat n in
                    negb (is_white_space c) && negb (is_white_space (c - 32)%N) &&
                    negb (is_lower (c - 32)%N) && (c <? 128)%N && (c - 32 <? 128)%N &&
                    negb (N.eqb c LF) && negb (N.eqb (c - 32)%N LF)) (seq 97 26) = true)
    by (vm_compute; reflexivity).
  pose proof (proj1 (forallb_forall _ _) Hall _ (lower_range c H)) as Hc.
  cbv beta zeta in Hc. rewrite N2Nat.id in Hc.
  repeat (apply andb_true_iff in Hc as [Hc ?]).
  repeat match goal with
         | X : negb _ = true |- _ => apply negb_true_iff in X
         end.
  auto 10.
Qed.

Lemma canonicalize_white_space (c : char) :
  is_white_space (canonicalize c) = is_white_space c.
Proof.
  unfold canonicalize. destruct (is_lower c) eqn:E; [|reflexivity].
  destruct (lower_facts c E) as (H1 & H2 & _). congruence.
Qed.

Lemma canonicalize_LF (c : char) : N.eqb (canonicalize c) LF = N.eqb c LF.
Proof.
  unfold canonicalize. destruct (is_lower c) eqn:E; [|reflexivity].
  destruct (lower_facts c E) as (_ & _ & _ & _ & _ & H1 & H2). congruence.
Qed.

Lemma canonicalize_not_lower (c : char) : is_lower (canonicalize c) = false.
Proof.
  unfold canonicalize. destruct (is_lower c) eqn:E; [|exact E].
  now destruct (lower_facts c E) as (_ & _ & H & _).
Qed.

Lemma ci_eqb_canonicalize (p c : char) : ci_eqb p (canonicalize c) = ci_eqb p c.
Proof.
  unfold ci_eqb.
  assert (H1 : canonicalize (canonicalize c) = canonicalize c).
  { unfold canonicalize at 1. now rewrite canonicalize_not_lower. }
  assert (H2 : (canonicalize c <? 128)%N = (c <? 128)%N).
  { unfold canonicalize. destruct (is_lower c) eqn:E; [|reflexivity].
    destruct (lower_facts c E) as (_ & _ & _ & A & B & _). congruence. }
  now rewrite H1, H2.
Qed.

Lemma matches_at_upper (pat s : jsstring) :
  matches_at pat (upper_ascii s) = matches_at pat s.
Proof.
  revert s; induction pat as [|p pat IH]; intros [|c s]; cbn; try reflexivity.
  now rewrite ci_eqb_canonicalize, IH.
Qed.

Lemma count_matches_upper (pat s : jsstring) :
  forall k, count_matches_from pat k (upper_ascii s) = count_matches_from pat k s.
Proof.
  induction s as [|c s IH]; intro k; [reflexivity|].
  change (upper_ascii (c :: s)) with (canonicalize c :: upper_ascii s).
  cbn [count_matches_from]. destruct k as [|k]; [|apply IH].
  change (canonicalize c :: upper_ascii s) with (upper_ascii (c :: s)).
  rewrite matches_at_upper, !IH. reflexivity.
Qed.

Lemma split_ws_upper (s : jsstring) :
  forall b, split_ws_from b (upper_ascii s) = map upper_ascii (split_ws_from b s).
Proof.
  induction s as [|c s IH]; intro b; [reflexivity|].
  change (upper_ascii (c :: s)) with (canonicalize c :: upper_ascii s).
  cbn [split_ws_from]. rewrite canonicalize_white_space, !IH.
  destruct (is_white_space c).
  - destruct b; reflexivity.
  - destruct (split_ws_from false s); reflexivity.
Qed.

Lemma split_upper (s : jsstring) :
  split LF (upper_ascii s) = map upper_ascii (split LF s).
Proof.
  induction s as [|c s IH]; [reflexivity|].
  change (upper_ascii (c :: s)) with (canonicalize c :: upper_ascii s).
  cbn [split]. rewrite canonicalize_LF, IH.
  destruct (N.eqb c LF); [reflexivity|].
  destruct (split LF s); reflexivity.
Qed.

Lemma trimStart_upper (s : jsstring) :
  trimStart (upper_ascii s) = upper_ascii (trimStart s).
Proof.
  induction s as [|c s IH]; [reflexivity|].
  change (upper_ascii (c :: s)) with (canonicalize c :: upper_ascii s).
  cbn [trimStart]. rewrite canonicalize_white_space.
  destruct (is_white_space c); [exact IH|reflexivity].
Qed.

Lemma rev_upper (s : jsstring) : rev (upper_ascii s) = upper_ascii (rev s).
Proof. unfold upper_ascii. symmetry. apply map_rev. Qed.

Lemma trim_upper (s : jsstring) : trim (upper_ascii s) = upper_ascii (trim s).
Proof.
  unfold trim, trimEnd.
  now rewrite trimStart_upper, rev_upper, trimStart_upper, rev_upper.
Qed.

Lemma length_upper (s : jsstring) : length (upper_ascii s) = length s.
Proof. unfold length, upper_ascii. now rewrite length_map. Qed.

Lemma filter_map_length {A B} (f : A -> B) (P : B -> bool) (Q : A -> bool) (l : list A) :
  (forall a, P (f a) = Q a) ->
  List.length (filter P (map f l)) = List.length (filter Q l).
Proof.
  intro H. induction l as [|a l IH]; [reflexivity|].
  cbn. rewrite H. destruct (Q a); cbn; now rewrite IH.
Qed.

Lemma words_upper (s : jsstring) : len (words_of (upper_ascii s)) = len (words_of s).
Proof.
  unfold len, words_of, split_ws. rewrite split_ws_upper. f_equal.
  apply filter_map_length. now intros [|c p].
Qed.

Lemma lines_upper (s : jsstring) : len (lines_of (upper_ascii s)) = len (lines_of s).
Proof.
  unfold len, lines_of. rewrite split_upper. f_equal.
  apply filter_map_length. intro l. now rewrite trim_upper, length_upper.
Qed.

Lemma upper_not_sentinel (s : jsstring) : JS.eqb (upper_ascii s) NO_TEXT = false.
Proof.
  destruct (JS.eqb (upper_ascii s) NO_TEXT) eqn:E; [|reflexivity].
  apply eqb_eq in E. destruct s as [|a [|c s]]; try discriminate.
  cbn in E. injection E as _ E _.
  pose proof (canonicalize_not_lower c) as H. rewrite E in H. discriminate.
Qed.

End LetterCase.

(** X18: the markers are counted whatever the case of their letters, and
    writing the ASCII letters of a text in upper case does not change its
    confidence, unless the text is the sentinel [No text detected], which is
    compared as it is written. *)
Theorem confidence_ignores_letter_case (text : jsstring) :
  text <> NO_TEXT ->
  illegible_of (Scores.upper_ascii text) = illegible_of text /\
  calculateConfidence (Scores.upper_ascii text) = calculateConfidence text.
Proof.
  intro Hne.
  assert (Hi : illegible_of (Scores.upper_ascii text) = illegible_of text)
    by apply count_matches_upper.
  split; [exact Hi|].
  unfold calculateConfidence.
  rewrite Hi, words_upper, lines_upper, trim_upper, !length_upper, upper_not_sentinel.
  assert (E : JS.eqb text NO_TEXT = false).
  { destruct (JS.eqb text NO_TEXT) eqn:E; [|reflexivity].
    apply eqb_eq in E. now contradiction Hne. }
  rewrite E. now destruct text.
Qed.

Lemma confidence_ignores_letter_case_witness :
  illegible_of (Scores.upper_ascii (str "see [Illegible] here")) =
    illegible_of (str "see [Illegible] here") /\
  calculateConfidence (Scores.upper_ascii (str "see [Illegible] here")) =
    calculateConfidence (str "see [Illegible] here").
Proof.
  apply (confidence_ignores_letter_case (str "see [Illegible] here")). discriminate.
Defined.

Import MoreSamples.

(** ** The image normalizer: what the canvas can be *)

Section CanvasFacts.

Lemma canvas_small (W H : Z) :
  0 <= W -> 0 <= H -> Z.max W H <= 2000 -> canvas_size W H = (W, H).
Proof.
  intros HW HH HM.
  assert (Es : scale_of W H = 1%float) by (apply small_scale_is_1; lia).
  unfold canvas_size, scaled_size. rewrite Es.
  now rewrite !small_side_unchanged by lia.
Qed.

(** The two sides of the canvas of a large image, each with its bound and
    its error. *)
Lemma canvas_large (W H : Z) :
  0 <= W < 2 ^ 32 -> 0 <= H < 2 ^ 32 -> 2000 < Z.max W H ->
  let M := Z.max W H in
  let w := fst (canvas_size W H) in
  let h := snd (canvas_size W H) in
  (0 <= w <= 2000 /\ 2 * Z.abs (w * M - 2000 * W) <= M) /\
  (0 <= h <= 2000 /\ 2 * Z.abs (h * M - 2000 * H) <= M).
Proof.
  intros HW HH HM M.
  unfold canvas_size, scaled_size, scale_of. cbn [fst snd]. fold M.
  pose proof (PageFacts.scaled_side M W ltac:(lia) ltac:(lia)) as BW.
  pose proof (PageFacts.scaled_side M H ltac:(lia) ltac:(lia)) as BH.
  cbv zeta in BW, BH. split; assumption.
Qed.

End CanvasFacts.

(** X8: the canvas is never larger than the image: neither side grows,
    neither exceeds 2000, and the longer side of the image stays the longer
    side of the canvas. *)
Theorem normalizer_never_enlarges (W H : Z) :
  0 <= W < 2 ^ 32 -> 0 <= H < 2 ^ 32 ->
  let w := fst (canvas_size W H) in
  let h := snd (canvas_size W H) in
  0 <= w <= Z.min W 2000 /\ 0 <= h <= Z.min H 2000 /\
  (W <= H -> w <= h) /\ (H <= W -> h <= w).
Proof.
  intros HW HH w h. subst w h.
  destruct (Z_le_gt_dec (Z.max W H) 2000) as [Hs|Hl].
  - rewrite (canvas_small W H) by lia. cbn [fst snd]. lia.
  - destruct (canvas_large W H HW HH ltac:(lia)) as [[BW EW] [BH EH]].
    cbv zeta in *.
    set (w := fst (canvas_size W H)) in *. set (h := snd (canvas_size W H)) in *.
    assert (Eq : W = H -> w = h).
    { intros ->. unfold w, h, canvas_size, scaled_size. reflexivity. }
    destruct (Z.max_spec W H) as [[Hlt E]|[Hge E]]; rewrite E in *.
    + repeat split; try lia; try nia.
    + destruct (Z.eq_dec W H) as [Ew|Ne].
      * specialize (Eq Ew). repeat split; try lia; try nia.
      * repeat split; try lia; try nia.
Qed.

Lemma normalizer_never_enlarges_witness :
  0 <= fst (canvas_size 3000 1000) <= Z.min 3000 2000 /\
  0 <= snd (canvas_size 3000 1000) <= Z.min 1000 2000.
Proof.
  assert (H1 : 0 <= 3000 < 2 ^ 32) by (vm_compute; split; discriminate || reflexivity).
  assert (H2 : 0 <= 1000 < 2 ^ 32) by (vm_compute; split; discriminate || reflexivity).
  pose proof (normalizer_never_enlarges 3000 1000 H1 H2) as H.
  cbv zeta in H. split; [exact (proj1 H)|exact (proj1 (proj2 H))].
Defined.

(** X9: a side of less than one 4000th of the longer side, when that
    exceeds 2000, becomes a side of 0 pixels, and the canvas is empty; a
    side of more than one 4000th keeps at least 1 pixel. *)
Theorem thin_side_collapses (W H : Z) :
  0 <= W < 2 ^ 32 -> 0 <= H < 2 ^ 32 -> 2000 < Z.max W H ->
  let M := Z.max W H in
  let w := fst (canvas_size W H) in
  let h := snd (canvas_size W H) in
  (4000 * W < M -> w = 0) /\ (M < 4000 * W -> 1 <= w) /\
  (4000 * H < M -> h = 0) /\ (M < 4000 * H -> 1 <= h).
Proof.
  intros HW HH HM M w h.
  destruct (canvas_large W H HW HH HM) as [[BW EW] [BH EH]].
  cbv zeta in *. fold M w in BW, EW. fold M h in BH, EH.
  assert (HM0 : 2000 < M) by exact HM.
  repeat split; intro Hx; nia.
Qed.

Lemma thin_side_collapses_witness : fst (canvas_size 1 4001) = 0.
Proof.
  assert (H1 : 0 <= 1 < 2 ^ 32) by (vm_compute; split; discriminate || reflexivity).
  assert (H2 : 0 <= 4001 < 2 ^ 32) by (vm_compute; split; discriminate || reflexivity).
  assert (H3 : 2000 < Z.max 1 4001) by reflexivity.
  apply (proj1 (thin_side_collapses 1 4001 H1 H2 H3)). reflexivity.
Defined.

(** X10: on a gray pixel the loop stretches the level away from 128: a level
    of at most 128 does not rise, a level of at least 128 does not fall, a
    lighter pixel does not come out darker, the levels up to 17 become 0 and
    the levels from 239 become 255. *)
Theorem gray_pixel_contrast (v : Z) :
  0 <= v <= 255 ->
  let g := gray_level v v v in
  (v <= 128 -> g <= v) /\ (128 <= v -> v <= g) /\
  (g = 0 <-> v <= 17) /\ (g = 255 <-> 239 <= v) /\
  (v < 255 -> g <= gray_level (v + 1) (v + 1) (v + 1)).
Proof.
  intros Hv g. subst g.
  assert (H : all_below 256
                (fun v =>
                   let g := gray_level v v v in
                   ((v <=? 128) && (g <=? v) || (128 <=? v) && (v <=? g)) &&
                   Bool.eqb (g =? 0) (v <=? 17) && Bool.eqb (g =? 255) (239 <=? v) &&
                   ((v =? 255) || (g <=? gray_level (v + 1) (v + 1) (v + 1)))) = true)
    by (vm_compute; reflexivity).
  pose proof (all_below_spec 256 _ H v ltac:(lia)) as Hb. cbv beta zeta in Hb.
  set (g := gray_level v v v) in *.
  set (g' := gray_level (v + 1) (v + 1) (v + 1)) in *.
  apply andb_true_iff in Hb as [Hb H4]. apply andb_true_iff in Hb as [Hb H3].
  apply andb_true_iff in Hb as [H1 H2].
  apply Bool.eqb_prop in H2, H3.
  assert (E0 : g = 0 <-> v <= 17).
  { rewrite <- Z.eqb_eq, H2. apply Z.leb_le. }
  assert (E255 : g = 255 <-> 239 <= v).
  { rewrite <- Z.eqb_eq, H3. apply Z.leb_le. }
  assert (Hs : v <= 128 /\ g <= v \/ 128 <= v /\ v <= g).
  { apply orb_true_iff in H1 as [H1|H1]; apply andb_true_iff in H1 as [A B];
      apply Z.leb_le in A, B; auto. }
  assert (L : v < 255 -> g <= g').
  { intro Hlt. apply orb_true_iff in H4 as [H4|H4].
    - apply Z.eqb_eq in H4. lia.
    - now apply Z.leb_le in H4. }
  split; [|split; [|split; [exact E0|split; [exact E255|exact L]]]].
  - intro Hle. destruct Hs as [[_ ?]|[? ?]]; [assumption|].
    assert (v = 128) by lia. subst v. vm_compute. discriminate.
  - intro Hge. destruct Hs as [[? ?]|[_ ?]]; [|assumption].
    assert (v = 128) by lia. subst v. vm_compute. discriminate.
Qed.

Lemma gray_pixel_contrast_witness : gray_level 200 200 200 = 255 <-> 239 <= 200.
Proof.
  assert (H : 0 <= 200 <= 255) by (vm_compute; split; discriminate).
  exact (proj1 (proj2 (proj2 (proj2 (gray_pixel_contrast 200 H))))).
Defined.

(** ** The image normalizer: when it has an output, and of what size *)

Section Output.
Import Normalizer.

Lemma canvas_sides_bounds (W H : Z) :
  0 <= W < 2 ^ 32 -> 0 <= H < 2 ^ 32 ->
  0 <= fst (canvas_size W H) <= 2000 /\ 0 <= snd (canvas_size W H) <= 2000.
Proof.
  intros HW HH.
  destruct (Z_le_gt_dec (Z.max W H) 2000) as [Hs|Hl].
  - rewrite (canvas_small W H) by lia. cbn [fst snd]. lia.
  - destruct (canvas_large W H HW HH ltac:(lia)) as [[BW _] [BH _]]. cbv zeta in *. lia.
Qed.

(** The promise resolves unless a side of the canvas is 0. *)
Lemma preprocess_loaded (img : image) :
  0 <= naturalWidth img < 2 ^ 32 -> 0 <= naturalHeight img < 2 ^ 32 ->
  let w := fst (canvas_size (naturalWidth img) (naturalHeight img)) in
  let h := snd (canvas_size (naturalWidth img) (naturalHeight img)) in
  preprocessToPngDataUrl (Some img) =
    if (w =? 0) || (h =? 0) then None
    else Some {| width := w; height := h; data := grayscale_contrast (drawn img w h) |}.
Proof.
  intros HW HH w h.
  destruct (canvas_sides_bounds _ _ HW HH) as [Bw Bh]. fold w h in Bw, Bh.
  unfold w, h, preprocessToPngDataUrl, getImageData, ToInt32, canvas_size in *.
  destruct (scaled_size (naturalWidth img) (naturalHeight img)) as [fw fh].
  cbn [fst snd] in *.
  destruct (Z.leb_spec 2147483648 (ToUint32 fw)); [lia|].
  destruct (Z.leb_spec 2147483648 (ToUint32 fh)); [lia|].
  destruct ((ToUint32 fw =? 0) || (ToUint32 fh =? 0)); reflexivity.
Qed.

Lemma grayscale_contrast_length_le (n : nat) :
  forall d : list Z,
    (List.length d <= n)%nat -> List.length (grayscale_contrast d) = List.length d.
Proof.
  induction n as [|n IH]; intros d Hd.
  - destruct d; [reflexivity|cbn in Hd; lia].
  - destruct d as [|r [|g [|b [|a d]]]]; cbn [grayscale_contrast].
    + reflexivity.
    + destruct (adjust (read (Some r)) (read None) (read None)) as [[? ?] ?]. reflexivity.
    + destruct (adjust (read (Some r)) (read (Some g)) (read None)) as [[? ?] ?]. reflexivity.
    + destruct (adjust (read (Some r)) (read (Some g)) (read (Some b))) as [[? ?] ?].
      reflexivity.
    + destruct (adjust (read (Some r)) (read (Some g)) (read (Some b))) as [[? ?] ?].
      cbn [List.length] in *. rewrite IH by lia. reflexivity.
Qed.

Lemma grayscale_contrast_length (d : list Z) :
  List.length (grayscale_contrast d) = List.length d.
Proof. apply (grayscale_contrast_length_le (List.length d)). lia. Qed.

End Output.

(** X20: the normalizer has an output for a loaded image exactly when no
    side of the canvas is 0, which holds of an image with sides of at least 1
    whose larger side is at most 2000 or less than 4000 times the smaller.
    The output then has the size of the canvas: the image's own size when
    its larger side is at most 2000, otherwise a larger side of 2000 with
    each side within one half of the exact proportional size; its pixels are
    those the browser drew, after the pixel loop. *)
Theorem normalizer_output (img : Normalizer.image) :
  let W := Normalizer.naturalWidth img in
  let H := Normalizer.naturalHeight img in
  let M := Z.max W H in
  let w := fst (canvas_size W H) in
  let h := snd (canvas_size W H) in
  0 <= W < 2 ^ 32 -> 0 <= H < 2 ^ 32 ->
  (Normalizer.preprocessToPngDataUrl (Some img) = None <-> w = 0 \/ h = 0) /\
  (1 <= W -> 1 <= H -> M <= 2000 \/ M < 4000 * Z.min W H ->
   Normalizer.preprocessToPngDataUrl (Some img) <> None) /\
  (forall c,
     Normalizer.preprocessToPngDataUrl (Some img) = Some c ->
     Normalizer.width c = w /\ Normalizer.height c = h /\
     1 <= w <= 2000 /\ 1 <= h <= 2000 /\
     (M <= 2000 -> w = W /\ h = H) /\
     (2000 < M ->
      Z.max w h = 2000 /\
      2 * Z.abs (w * M - 2000 * W) <= M /\ 2 * Z.abs (h * M - 2000 * H) <= M) /\
     Normalizer.data c = grayscale_contrast (Normalizer.drawn img w h) /\
     List.length (Normalizer.data c) = List.length (Normalizer.drawn img w h)).
Proof.
  intros W H M w h HW HH.
  pose proof (preprocess_loaded img HW HH) as E. cbv zeta in E. fold W H in E. fold w h in E.
  destruct (canvas_sides_bounds W H HW HH) as [Bw Bh]. fold w h in Bw, Bh.
  assert (Hsmall : M <= 2000 -> w = W /\ h = H).
  { intro Hs. unfold w, h. rewrite (canvas_small W H) by (unfold M in Hs; lia). auto. }
  assert (Hlarge : 2000 < M ->
            Z.max w h = 2000 /\
            2 * Z.abs (w * M - 2000 * W) <= M /\ 2 * Z.abs (h * M - 2000 * H) <= M).
  { intro Hl. destruct (canvas_large W H HW HH Hl) as [[BW EW] [BH EH]].
    cbv zeta in *. fold M w in BW, EW. fold M h in BH, EH.
    split; [|split; assumption].
    unfold M in *. destruct (Z.max_spec W H) as [[_ Em]|[_ Em]]; rewrite Em in *; nia. }
  split; [|split].
  - rewrite E. destruct (Z.eqb_spec w 0), (Z.eqb_spec h 0); cbn [orb];
      split; try discriminate; try tauto; intros [?|?]; lia.
  - intros HW1 HH1 Hcase. rewrite E.
    assert (w <> 0 /\ h <> 0) as [Nw Nh].
    { destruct (Z_le_gt_dec M 2000) as [Hs|Hl].
      - destruct (Hsmall Hs) as [Ew Eh]. lia.
      - destruct Hcase as [|Hc]; [lia|].
        destruct (Hlarge ltac:(lia)) as (_ & EW & EH).
        unfold M in *. split; intros Z0; rewrite Z0 in *; lia. }
    apply Z.eqb_neq in Nw, Nh. rewrite Nw, Nh. discriminate.
  - intros c Hc. rewrite E in Hc.
    destruct (Z.eqb_spec w 0) as [|Nw]; [discriminate|].
    destruct (Z.eqb_spec h 0) as [|Nh]; [discriminate|].
    cbn [orb] in Hc. injection Hc as <-. cbn [Normalizer.width Normalizer.height Normalizer.data].
    repeat split; try lia; try (apply Hsmall; assumption); try (apply Hlarge; assumption).
    apply grayscale_contrast_length.
Qed.

Lemma normalizer_output_witness :
  Normalizer.preprocessToPngDataUrl (Some wide_image) <> None.
Proof.
  assert (H1 : 0 <= 4000 < 2 ^ 32) by (vm_compute; split; discriminate || reflexivity).
  assert (H2 : 0 <= 2000 < 2 ^ 32) by (vm_compute; split; discriminate || reflexivity).
  apply (proj1 (proj2 (normalizer_output wide_image H1 H2))).
  - vm_compute. discriminate.
  - vm_compute. discriminate.
  - right. reflexivity.
Defined.

(** ** Binary64 arithmetic with signs and zeros *)

Module SignedFacts.
Import FloatFacts Signed.
Local Open Scope R_scope.

Lemma okb_mono (B B' : Z) (x : spec_float) : (B <= B')%Z -> okb B x -> okb B' x.
Proof. destruct x as [| | |s m e]; cbn; try tauto. intros H [N E]. split; [exact N|lia]. Qed.

Lemma near_exact (z : spec_float) : near (sval z) z.
Proof.
  unfold near. replace (sval z - sval z) with 0 by ring. rewrite Rabs_R0.
  apply Rmult_le_pos; [apply Rabs_pos|lra].
Qed.

Lemma near_rounds (s : bool) (v : R) (m : positive) (e : Z) :
  rounds_to v (F2R m e) ->
  near (if s then - v else v) (S754_finite s m e).
Proof.
  intro H. pose proof (rounds_to_error _ _ H) as E.
  destruct (rounds_to_pos _ _ H) as [Hv _].
  unfold near. cbn [sval]. destruct s.
  - replace (- F2R m e - - v) with (- (F2R m e - v)) by ring.
    rewrite !Rabs_Ropp, (Rabs_pos_eq v) by lra. exact E.
  - rewrite (Rabs_pos_eq v) by lra. exact E.
Qed.

(** The sum of two aligned mantissas, rounded. *)
Lemma normalize_near (B : Z) (n ez : Z) (k : Z) :
  (B <= 900)%Z -> (- B <= ez <= B)%Z -> (0 <= k <= 2 * B + 54)%Z -> (ez + k <= B + 54)%Z ->
  (Z.abs n < 2 ^ k)%Z ->
  okb (B + 54) (binary_normalize prec emax n ez false) /\
  near (IZR n * bpow ez) (binary_normalize prec emax n ez false).
Proof.
  intros HB Hez Hk Hk2 Hn. destruct n as [|m|m]; cbn [binary_normalize].
  - split; [exact I|]. replace (0 * bpow ez) with (sval (S754_zero false)) by (cbn; ring).
    apply near_exact.
  - pose proof (digits2_pos_le m k ltac:(lia) ltac:(lia)) as Hd.
    assert (1 <= Zpos (digits2_pos m))%Z by lia.
    destruct (binary_round_correct false m ez) as (mz & ez' & E & N & R & Bz); [lia|].
    rewrite E. split; [split; [exact N|lia]|].
    apply (near_rounds false). exact R.
  - pose proof (digits2_pos_le m k ltac:(lia) ltac:(lia)) as Hd.
    assert (1 <= Zpos (digits2_pos m))%Z by lia.
    destruct (binary_round_correct true m ez) as (mz & ez' & E & N & R & Bz); [lia|].
    rewrite E. split; [split; [exact N|lia]|].
    replace (IZR (Z.neg m) * bpow ez) with (- F2R m ez).
    + apply (near_rounds true). exact R.
    + unfold F2R. change (Z.neg m) with (- Zpos m)%Z. rewrite opp_IZR. ring.
Qed.

Lemma aligned (B : Z) (s : bool) (m : positive) (e ez : Z) :
  normal m e -> (ez <= e)%Z ->
  exists a, shl_align m e ez = (a, ez) /\
    IZR (cond_Zopp s (Zpos a)) * bpow ez = sval (S754_finite s m e) /\
    (Zpos a < 2 ^ (53 + (e - ez)))%Z.
Proof.
  intros [Hm _] He.
  destruct (shl_align_shift m e ez He) as (a & Ea & Ha).
  exists a. split; [exact Ea|].
  assert (V : F2R a ez = F2R m e).
  { replace ez with (e - (e - ez))%Z at 1 by lia. apply F2R_shift; [lia|exact Ha]. }
  split.
  - cbn [sval]. rewrite <- V. unfold F2R. destruct s; cbn [cond_Zopp].
    + rewrite opp_IZR. ring.
    + reflexivity.
  - rewrite Ha, Z.pow_add_r by lia.
    assert (0 < 2 ^ (e - ez))%Z by (apply Z.pow_pos_nonneg; lia). nia.
Qed.

Lemma abs_cond_Zopp (s : bool) (a : Z) : Z.abs (cond_Zopp s a) = Z.abs a.
Proof. destruct s; cbn; lia. Qed.

Lemma pow2_le (a b : Z) : (0 <= a <= b)%Z -> (2 ^ a <= 2 ^ b)%Z.
Proof. intro H. apply Z.pow_le_mono_r; lia. Qed.

(** Addition. *)
Lemma SFadd_near (B : Z) (x y : spec_float) :
  (B <= 900)%Z -> okb B x -> okb B y ->
  okb (B + 54) (SFadd prec emax x y) /\ near (sval x + sval y) (SFadd prec emax x y).
Proof.
  intros HB Hx Hy.
  destruct x as [sx| | |sx mx ex], y as [sy| | |sy my ey]; cbn [okb] in *; try tauto.
  - split; [destruct sx, sy; exact I|].
    replace (sval (S754_zero sx) + sval (S754_zero sy)) with (sval (SFadd prec emax (S754_zero sx) (S754_zero sy)))
      by (destruct sx, sy; cbn; ring).
    apply near_exact.
  - cbn [SFadd]. split; [split; [tauto|lia]|].
    replace (sval (S754_zero sx) + sval (S754_finite sy my ey)) with (sval (S754_finite sy my ey))
      by (cbn [sval]; ring).
    apply near_exact.
  - cbn [SFadd]. split; [split; [tauto|lia]|].
    replace (sval (S754_finite sx mx ex) + sval (S754_zero sy)) with (sval (S754_finite sx mx ex))
      by (cbn [sval]; ring).
    apply near_exact.
  - destruct Hx as [Nx Ex], Hy as [Ny Ey]. cbn [SFadd].
    set (ez := Z.min ex ey).
    destruct (aligned B sx mx ex ez Nx ltac:(unfold ez; lia)) as (ax & Eax & Vx & Bx).
    destruct (aligned B sy my ey ez Ny ltac:(unfold ez; lia)) as (ay & Eay & Vy & By).
    rewrite Eax, Eay. cbn [fst].
    rewrite <- Vx, <- Vy, <- Rmult_plus_distr_r, <- plus_IZR.
    apply (normalize_near B _ ez (54 + (Z.max ex ey - ez))); try (unfold ez; lia).
    pose proof (pow2_le (53 + (ex - ez)) (53 + (Z.max ex ey - ez)) ltac:(unfold ez; lia)).
    pose proof (pow2_le (53 + (ey - ez)) (53 + (Z.max ex ey - ez)) ltac:(unfold ez; lia)).
    replace (54 + (Z.max ex ey - ez))%Z with (Z.succ (53 + (Z.max ex ey - ez))) by lia.
    rewrite Z.pow_succ_r by (unfold ez; lia).
    pose proof (abs_cond_Zopp sx (Zpos ax)). pose proof (abs_cond_Zopp sy (Zpos ay)). lia.
Qed.

(** Subtraction. *)
Lemma SFsub_near (B : Z) (x y : spec_float) :
  (B <= 900)%Z -> okb B x -> okb B y ->
  okb (B + 54) (SFsub prec emax x y) /\ near (sval x - sval y) (SFsub prec emax x y).
Proof.
  intros HB Hx Hy.
  destruct x as [sx| | |sx mx ex], y as [sy| | |sy my ey]; cbn [okb] in *; try tauto.
  - split; [destruct sx, sy; exact I|].
    replace (sval (S754_zero sx) - sval (S754_zero sy)) with (sval (SFsub prec emax (S754_zero sx) (S754_zero sy)))
      by (destruct sx, sy; cbn; ring).
    apply near_exact.
  - cbn [SFsub]. split; [split; [tauto|lia]|].
    replace (sval (S754_zero sx) - sval (S754_finite sy my ey)) with (sval (S754_finite (negb sy) my ey))
      by (destruct sy; cbn [sval negb]; ring).
    apply near_exact.
  - cbn [SFsub]. split; [split; [tauto|lia]|].
    replace (sval (S754_finite sx mx ex) - sval (S754_zero sy)) with (sval (S754_finite sx mx ex))
      by (cbn [sval]; ring).
    apply near_exact.
  - destruct Hx as [Nx Ex], Hy as [Ny Ey]. cbn [SFsub].
    set (ez := Z.min ex ey).
    destruct (aligned B sx mx ex ez Nx ltac:(unfold ez; lia)) as (ax & Eax & Vx & Bx).
    destruct (aligned B sy my ey ez Ny ltac:(unfold ez; lia)) as (ay & Eay & Vy & By).
    rewrite Eax, Eay. cbn [fst].
    rewrite <- Vx, <- Vy, <- Rmult_minus_distr_r, <- minus_IZR.
    apply (normalize_near B _ ez (54 + (Z.max ex ey - ez))); try (unfold ez; lia).
    pose proof (pow2_le (53 + (ex - ez)) (53 + (Z.max ex ey - ez)) ltac:(unfold ez; lia)).
    pose proof (pow2_le (53 + (ey - ez)) (53 + (Z.max ex ey - ez)) ltac:(unfold ez; lia)).
    replace (54 + (Z.max ex ey - ez))%Z with (Z.succ (53 + (Z.max ex ey - ez))) by lia.
    rewrite Z.pow_succ_r by (unfold ez; lia).
    pose proof (abs_cond_Zopp sx (Zpos ax)). pose proof (abs_cond_Zopp sy (Zpos ay)). lia.
Qed.


(** Multiplication. *)
Lemma SFmul_near (B B' : Z) (x y : spec_float) :
  (B + B' <= 900)%Z -> (0 <= B)%Z -> (0 <= B')%Z -> okb B x -> okb B' y ->
  okb (B + B' + 54) (SFmul prec emax x y) /\ near (sval x * sval y) (SFmul prec emax x y).
Proof.
  intros HB HB0 HB0' Hx Hy.
  destruct x as [sx| | |sx mx ex], y as [sy| | |sy my ey]; cbn [okb] in *; try tauto;
    try (cbn [SFmul]; split; [exact I|];
         match goal with
         | |- near ?v ?z => replace v with (sval z) by (cbn [sval]; ring)
         end; apply near_exact).
  destruct Hx as [Nx Ex], Hy as [Ny Ey]. cbn [SFmul].
  pose proof (proj1 Nx) as Hmx. pose proof (proj1 Ny) as Hmy.
  assert (Hp : (2 ^ 104 <= Zpos (mx * my) < 2 ^ 106)%Z).
  { rewrite Pos2Z.inj_mul. change (2 ^ 104)%Z with (2 ^ 52 * 2 ^ 52)%Z.
    change (2 ^ 106)%Z with (2 ^ 53 * 2 ^ 53)%Z. nia. }
  pose proof (digits2_pos_bounds (mx * my)) as Bd.
  set (d := Zpos (digits2_pos (mx * my))) in *.
  assert (Hd : (105 <= d <= 106)%Z).
  { split.
    - destruct (Z_le_gt_dec 105 d) as [|G]; [assumption|].
      assert (2 ^ d <= 2 ^ 104)%Z by (apply Z.pow_le_mono_r; lia). lia.
    - destruct (Z_le_gt_dec d 106) as [|G]; [assumption|].
      assert (2 ^ 106 <= 2 ^ (d - 1))%Z by (apply Z.pow_le_mono_r; lia). lia. }
  destruct (binary_round_aux_correct (xorb sx sy) (Zpos (mx * my)) (ex + ey) loc_Exact
              (IZR (Zpos (mx * my))) d) as (mz & ez & E & N & R & Bz);
    try lia; try reflexivity.
  rewrite E. split; [split; [exact N|lia]|].
  assert (V : IZR (Zpos (mx * my)) * bpow (ex + ey) = F2R mx ex * F2R my ey).
  { unfold F2R. rewrite Pos2Z.inj_mul, mult_IZR, bpow_add. ring. }
  rewrite V in R. pose proof (near_rounds (xorb sx sy) _ _ _ R) as Hn.
  replace (sval (S754_finite sx mx ex) * sval (S754_finite sy my ey))
    with (if xorb sx sy then - (F2R mx ex * F2R my ey) else F2R mx ex * F2R my ey);
    [exact Hn|].
  destruct sx, sy; cbn [xorb sval]; ring.
Qed.

(** The error of a rounding of a value of at most [K]. *)
Lemma near_abs (v K : R) (z : spec_float) :
  near v z -> Rabs v <= K -> - (K / 9007199254740992) <= sval z - v <= K / 9007199254740992.
Proof.
  unfold near. intros H HK. apply Rabs_le_inv.
  eapply Rle_trans; [exact H|]. apply Rmult_le_compat_r; [lra|exact HK].
Qed.

End SignedFacts.

(** ** The operations on numbers *)

Module PrimFacts.
Import FloatFacts Signed SignedFacts.
Local Open Scope R_scope.

Lemma fadd_near (B : Z) (x y : float) :
  (B <= 900)%Z -> okb B (Prim2SF x) -> okb B (Prim2SF y) ->
  okb (B + 54) (Prim2SF (x + y)) /\ near (fv x + fv y) (Prim2SF (x + y)).
Proof. intros. rewrite FloatAxioms.add_spec. now apply SFadd_near. Qed.

Lemma fsub_near (B : Z) (x y : float) :
  (B <= 900)%Z -> okb B (Prim2SF x) -> okb B (Prim2SF y) ->
  okb (B + 54) (Prim2SF (x - y)) /\ near (fv x - fv y) (Prim2SF (x - y)).
Proof. intros. rewrite FloatAxioms.sub_spec. now apply SFsub_near. Qed.

Lemma fmul_near (B B' : Z) (x y : float) :
  (B + B' <= 900)%Z -> (0 <= B)%Z -> (0 <= B')%Z ->
  okb B (Prim2SF x) -> okb B' (Prim2SF y) ->
  okb (B + B' + 54) (Prim2SF (x * y)) /\ near (fv x * fv y) (Prim2SF (x * y)).
Proof. intros. rewrite FloatAxioms.mul_spec. now apply SFmul_near. Qed.

Lemma Number_byte (n : Z) :
  (0 <= n <= 255)%Z -> okb 52 (Prim2SF (Number n)) /\ fv (Number n) = IZR n.
Proof.
  intro Hn. destruct (Z.eq_dec n 0) as [->|Hne].
  - split; [exact I|reflexivity].
  - destruct (fnum_Number n) as (m & k & Hk & _ & [E N] & V).
    { change (2 ^ 53)%Z with 9007199254740992%Z. lia. }
    unfold fv. rewrite E. cbn [okb sval]. split; [split; [exact N|lia]|exact V].
Qed.

Lemma near_fv (v K : R) (x : float) :
  near v (Prim2SF x) -> Rabs v <= K ->
  - (K / 9007199254740992) <= fv x - v <= K / 9007199254740992.
Proof. apply near_abs. Qed.

Lemma F2R_frac (m : positive) (k : Z) :
  (0 <= k)%Z -> F2R m (- k) = IZR (Zpos m) / IZR (2 ^ k).
Proof.
  intro Hk. unfold F2R. rewrite bpow_opp, (bpow_IZR k) by exact Hk. reflexivity.
Qed.

End PrimFacts.

(** ** The pixel loop: the byte it stores *)

Module PixelFacts.
Import FloatFacts Signed SignedFacts PrimFacts.
Local Open Scope R_scope.

Ltac const_tac m k :=
  split; [vm_compute; reflexivity|];
  unfold fv;
  match goal with
  | |- sval (Prim2SF ?c) = _ =>
      replace (Prim2SF c) with (S754_finite false m (- k)) by (vm_compute; reflexivity)
  end;
  cbn [sval]; exact (F2R_frac m k ltac:(discriminate)).

Lemma const_0299 :
  Prim2SF 0.299 = S754_finite false 5386305154335113 (-54) /\
  fv 0.299 = 5386305154335113 / IZR (2 ^ 54).
Proof. const_tac 5386305154335113%positive 54%Z. Qed.

Lemma const_0587 :
  Prim2SF 0.587 = S754_finite false 5287225962532962 (-53) /\
  fv 0.587 = 5287225962532962 / IZR (2 ^ 53).
Proof. const_tac 5287225962532962%positive 53%Z. Qed.

Lemma const_0114 :
  Prim2SF 0.114 = S754_finite false 8214565720323785 (-56) /\
  fv 0.114 = 8214565720323785 / IZR (2 ^ 56).
Proof. const_tac 8214565720323785%positive 56%Z. Qed.

Lemma const_128 :
  Prim2SF 128 = S754_finite false 4503599627370496 (-45) /\
  fv 128 = 4503599627370496 / IZR (2 ^ 45).
Proof. const_tac 4503599627370496%positive 45%Z. Qed.

Lemma const_115 :
  Prim2SF 1.15 = S754_finite false 5179139571476070 (-52) /\
  fv 1.15 = 5179139571476070 / IZR (2 ^ 52).
Proof. const_tac 5179139571476070%positive 52%Z. Qed.

Lemma const_ok (c : float) (m : positive) (e : Z) :
  Prim2SF c = S754_finite false m e ->
  (Z.leb (2 ^ 52) (Zpos m) && Z.ltb (Zpos m) (2 ^ 53) && Z.leb (-56) e && Z.leb e 56 = true)%Z ->
  okb 56 (Prim2SF c).
Proof.
  intros E H. rewrite E. cbn [okb].
  repeat (apply andb_true_iff in H as [H ?]).
  apply Z.leb_le in H, H1, H0. apply Z.ltb_lt in H2.
  unfold normal. lia.
Qed.

(** The number before the clamp, against the exact value of the formula. *)
Lemma contrast_near (r g b : Z) :
  (0 <= r <= 255)%Z -> (0 <= g <= 255)%Z -> (0 <= b <= 255)%Z ->
  let gray := (0.299 * Number r + 0.587 * Number g + 0.114 * Number b)%float in
  let y := ((gray - 128) * 1.15 + 128)%float in
  okb 900 (Prim2SF y) /\
  Rabs (fv y - IZR (23 * (299 * r + 587 * g + 114 * b) - 384000) / 20000)
    <= / 10000000000.
Proof.
  intros Hr Hg Hb gray y.
  destruct (Number_byte r Hr) as [Or Vr].
  destruct (Number_byte g Hg) as [Og Vg].
  destruct (Number_byte b Hb) as [Ob Vb].
  destruct const_0299 as [E1 V1]. destruct const_0587 as [E2 V2].
  destruct const_0114 as [E3 V3]. destruct const_128 as [E4 V4].
  destruct const_115 as [E5 V5].
  pose proof (const_ok _ _ _ E1 eq_refl) as O1.
  pose proof (const_ok _ _ _ E2 eq_refl) as O2.
  pose proof (const_ok _ _ _ E3 eq_refl) as O3.
  pose proof (const_ok _ _ _ E4 eq_refl) as O4.
  pose proof (const_ok _ _ _ E5 eq_refl) as O5.
  destruct (fmul_near 56 52 _ _ ltac:(lia) ltac:(lia) ltac:(lia) O1 Or) as [Op1 Np1].
  destruct (fmul_near 56 52 _ _ ltac:(lia) ltac:(lia) ltac:(lia) O2 Og) as [Op2 Np2].
  destruct (fmul_near 56 52 _ _ ltac:(lia) ltac:(lia) ltac:(lia) O3 Ob) as [Op3 Np3].
  cbn [Z.add Pos.add Pos.succ Pos.add_carry] in Op1, Op2, Op3.
  destruct (fadd_near 162 _ _ ltac:(lia) Op1 Op2) as [Os1 Ns1].
  destruct (fadd_near 216 _ _ ltac:(lia) Os1 (okb_mono 162 216 _ ltac:(lia) Op3))
    as [Ogr Ngr].
  fold gray in Ogr, Ngr.
  destruct (fsub_near 270 _ _ ltac:(lia) Ogr (okb_mono 56 270 _ ltac:(lia) O4)) as [Od Nd].
  destruct (fmul_near 324 56 _ _ ltac:(lia) ltac:(lia) ltac:(lia) Od O5) as [Oe Ne].
  destruct (fadd_near 434 _ _ ltac:(lia) Oe (okb_mono 56 434 _ ltac:(lia) O4)) as [Oy Ny].
  fold y in Oy, Ny.
  split; [exact (okb_mono (434 + 54) 900 _ ltac:(lia) Oy)|].
  rewrite Vr, V1 in Np1. rewrite Vg, V2 in Np2. rewrite Vb, V3 in Np3.
  rewrite V4 in Nd, Ny. rewrite V5 in Ne.
  change (IZR (2 ^ 54)) with 18014398509481984 in *.
  change (IZR (2 ^ 53)) with 9007199254740992 in *.
  change (IZR (2 ^ 56)) with 72057594037927936 in *.
  change (IZR (2 ^ 45)) with 35184372088832 in *.
  change (IZR (2 ^ 52)) with 4503599627370496 in *.
  assert (Xr : 0 <= IZR r <= 255) by (split; apply IZR_le; lia).
  assert (Xg : 0 <= IZR g <= 255) by (split; apply IZR_le; lia).
  assert (Xb : 0 <= IZR b <= 255) by (split; apply IZR_le; lia).
  rewrite minus_IZR, mult_IZR, !plus_IZR, !mult_IZR.
  set (x1 := IZR r) in *. set (x2 := IZR g) in *. set (x3 := IZR b) in *.
  apply (near_fv _ 512) in Np1; [|apply Rabs_le; lra].
  apply (near_fv _ 512) in Np2; [|apply Rabs_le; lra].
  apply (near_fv _ 512) in Np3; [|apply Rabs_le; lra].
  apply (near_fv _ 512) in Ns1; [|apply Rabs_le; lra].
  apply (near_fv _ 512) in Ngr; [|apply Rabs_le; lra].
  apply (near_fv _ 512) in Nd; [|apply Rabs_le; lra].
  apply (near_fv _ 512) in Ne; [|apply Rabs_le; lra].
  apply (near_fv _ 512) in Ny; [|apply Rabs_le; lra].
  apply Rabs_le. lra.
Qed.


Lemma ok_not_nan (B : Z) (x : float) : okb B (Prim2SF x) -> PrimFloat.is_nan x = false.
Proof.
  unfold Prim2SF. destruct (PrimFloat.is_nan x); [intro H; exact (False_ind _ H)|reflexivity].
Qed.

Lemma fnum_255 : fnum 255 8972014882652160 (-45).
Proof. ConfidenceFacts.fnum_tac. Qed.

Lemma F2R_255 : F2R 8972014882652160 (-45) = 255.
Proof.
  change (-45)%Z with (- (45))%Z. rewrite F2R_frac by lia.
  change (IZR (2 ^ 45)) with 35184372088832. lra.
Qed.

(** The clamp of a number that is not positive is 0. *)
Lemma clamp_not_positive (B : Z) (y : float) :
  okb B (Prim2SF y) ->
  match Prim2SF y with S754_finite false _ _ => False | _ => True end ->
  Math_max 0 (Math_min 255 y) = 0%float.
Proof.
  intros Hok Hs. pose proof (ok_not_nan B y Hok) as Hn.
  assert (H1 : (255 <? y)%float = false).
  { rewrite FloatAxioms.ltb_spec.
    replace (Prim2SF 255) with (S754_finite false 8972014882652160 (-45)) by reflexivity.
    destruct (Prim2SF y) as [s| | |[|] m e];
      try (exfalso; exact Hok); try (exfalso; exact Hs); reflexivity. }
  assert (H2 : (y <? 255)%float = true).
  { rewrite FloatAxioms.ltb_spec.
    replace (Prim2SF 255) with (S754_finite false 8972014882652160 (-45)) by reflexivity.
    destruct (Prim2SF y) as [s| | |[|] m e];
      try (exfalso; exact Hok); try (exfalso; exact Hs); reflexivity. }
  assert (E : Math_min 255 y = y).
  { unfold Math_min. rewrite Hn, H1, H2. reflexivity. }
  rewrite E. unfold Math_max. rewrite Hn.
  replace (PrimFloat.is_nan 0) with false by reflexivity. cbn [orb].
  assert (H3 : (0 <? y)%float = false).
  { rewrite FloatAxioms.ltb_spec.
    replace (Prim2SF 0) with (S754_zero false) by reflexivity.
    destruct (Prim2SF y) as [s| | |[|] m e];
      try (exfalso; exact Hok); try (exfalso; exact Hs); reflexivity. }
  rewrite H3. destruct (y <? 0)%float; reflexivity.
Qed.

(** The clamp of a positive number. *)
Lemma clamp_positive (y : float) (m : positive) (e : Z) :
  fnum y m e ->
  (255 <= F2R m e /\ Math_max 0 (Math_min 255 y) = 255%float) \/
  (F2R m e <= 255 /\ Math_max 0 (Math_min 255 y) = y).
Proof.
  intro Fy.
  assert (Hpos : forall z mz ez, fnum z mz ez -> Math_max 0 z = z).
  { intros z mz ez Fz. unfold Math_max.
    destruct (fnum_not_special z mz ez Fz) as [-> _].
    replace (PrimFloat.is_nan 0) with false by reflexivity. cbn [orb].
    assert (H : (0 <? z)%float = true).
    { rewrite FloatAxioms.ltb_spec, (proj1 Fz). reflexivity. }
    now rewrite H. }
  destruct (Math_min_fnum _ _ _ _ _ _ fnum_255 Fy) as [[E L]|[E L]]; rewrite E.
  - left. rewrite F2R_255 in L. split; [exact L|]. apply (Hpos _ _ _ fnum_255).
  - right. rewrite F2R_255 in L. split; [exact L|]. apply (Hpos _ _ _ Fy).
Qed.

(** The byte stored for a positive number of at most 255 is within one half
    of it. *)
Lemma ToUint8Clamp_near (y : float) (m : positive) (e : Z) :
  fnum y m e -> F2R m e <= 255 ->
  (0 <= ToUint8Clamp y <= 255)%Z /\
  - / 2 <= IZR (ToUint8Clamp y) - F2R m e <= / 2.
Proof.
  intros [E [Hm He]] Hle.
  pose proof (mantissa_bounds _ Hm) as Mb.
  assert (Hneg : (e < 0)%Z).
  { destruct (Z_lt_le_dec e 0) as [|Hge]; [assumption|exfalso].
    pose proof (bpow_ge_1 e Hge). unfold F2R in Hle. nra. }
  unfold ToUint8Clamp. rewrite E.
  destruct (Z.leb_spec 0 e); [lia|].
  set (P := (2 ^ (- e))%Z).
  assert (HP : (0 < P)%Z) by (apply Z.pow_pos_nonneg; lia).
  rewrite Z.shiftr_div_pow2 by lia. fold P.
  rewrite !Z.shiftl_mul_pow2 by lia. fold P.
  set (f := (Zpos m / P)%Z).
  pose proof (Z_div_mod_eq_full (Zpos m) P) as Hdm. fold f in Hdm.
  pose proof (Z.mod_pos_bound (Zpos m) P HP) as Hmod.
  set (r := (Zpos m - f * P)%Z).
  assert (Hr : (0 <= r < P)%Z) by (unfold r; lia).
  assert (Hf : (0 <= f)%Z) by (apply Z.div_pos; lia).
  assert (V : F2R m e = IZR f + IZR r / IZR P).
  { unfold F2R. replace e with (- (- e))%Z at 1 by lia.
    rewrite bpow_opp, (bpow_IZR (- e)) by lia. fold P.
    assert (IZR P <> 0) by (apply not_0_IZR; lia).
    replace (Zpos m) with (f * P + r)%Z by (unfold r; lia).
    rewrite plus_IZR, mult_IZR. field. assumption. }
  assert (PR : 0 < IZR P) by (apply IZR_lt; lia).
  assert (RR : 0 <= IZR r < IZR P) by (split; [apply IZR_le|apply IZR_lt]; lia).
  assert (Q : 0 <= IZR r / IZR P < 1).
  { split.
    - apply Rmult_le_pos; [lra|]. apply Rlt_le, Rinv_0_lt_compat, PR.
    - apply Rmult_lt_reg_r with (IZR P); [exact PR|].
      replace (IZR r / IZR P * IZR P) with (IZR r) by (field; lra). lra. }
  assert (FR : 0 <= IZR f) by (apply IZR_le; lia).
  destruct (Z.leb_spec 255 f) as [H255|H255].
  - split; [lia|]. assert (255 <= IZR f) by (apply IZR_le; lia). lra.
  - assert (F255 : IZR f + 1 <= 255).
    { replace 255 with (IZR 255) by reflexivity. rewrite <- plus_IZR. apply IZR_le. lia. }
    replace (1 * P)%Z with P by lia.
    destruct (Z.compare_spec (2 * r) P) as [Heq|Hlt|Hgt].
    + assert (Hh : IZR r / IZR P = / 2).
      { apply (f_equal IZR) in Heq. rewrite mult_IZR in Heq.
        apply Rmult_eq_reg_r with (IZR P); [|lra].
        replace (IZR r / IZR P * IZR P) with (IZR r) by (field; lra). lra. }
      destruct (Z.even f); (split; [lia|]); rewrite ?plus_IZR; lra.
    + assert (Hh : IZR r / IZR P < / 2).
      { apply IZR_lt in Hlt. rewrite mult_IZR in Hlt.
        apply Rmult_lt_reg_r with (IZR P); [exact PR|].
        replace (IZR r / IZR P * IZR P) with (IZR r) by (field; lra). lra. }
      split; [lia|]. lra.
    + assert (Hh : / 2 < IZR r / IZR P).
      { apply IZR_lt in Hgt. rewrite mult_IZR in Hgt.
        apply Rmult_lt_reg_r with (IZR P); [exact PR|].
        replace (IZR r / IZR P * IZR P) with (IZR r) by (field; lra). lra. }
      split; [lia|]. rewrite plus_IZR. lra.
Qed.


(** The byte the loop stores, against the exact value of the formula. *)
Lemma gray_level_near (r g b : Z) :
  (0 <= r <= 255)%Z -> (0 <= g <= 255)%Z -> (0 <= b <= 255)%Z ->
  let N := (23 * (299 * r + 587 * g + 114 * b) - 384000)%Z in
  (0 <= gray_level r g b <= 255)%Z /\
  (Z.abs (20000 * gray_level r g b - Z.max 0 (Z.min 5100000 N)) <= 10000)%Z.
Proof.
  intros Hr Hg Hb N.
  destruct (contrast_near r g b Hr Hg Hb) as [Oy Hy]. cbv zeta in Oy, Hy. fold N in Hy.
  unfold gray_level.
  set (y := ((0.299 * Number r + 0.587 * Number g + 0.114 * Number b - 128) * 1.15 + 128)%float)
    in *.
  apply Rabs_le_inv in Hy. unfold fv in Hy.
  assert (Hnp : match Prim2SF y with S754_finite false _ _ => False | _ => True end ->
                sval (Prim2SF y) <= 0 ->
                (0 <= ToUint8Clamp (Math_max 0 (Math_min 255 y)) <= 255)%Z /\
                (Z.abs (20000 * ToUint8Clamp (Math_max 0 (Math_min 255 y)) -
                        Z.max 0 (Z.min 5100000 N)) <= 10000)%Z).
  { intros Hs Hv. rewrite (clamp_not_positive 900 y Oy Hs).
    replace (ToUint8Clamp 0) with 0%Z by reflexivity.
    assert (HN : IZR N < IZR 1) by (replace (IZR 1) with 1 by reflexivity; lra).
    apply lt_IZR in HN. lia. }
  destruct (Prim2SF y) as [s| | |[|] m e] eqn:Ey; try (exfalso; exact Oy).
  - apply Hnp; [exact I|cbn [sval]; lra].
  - apply Hnp; [exact I|]. cbn [sval]. pose proof (ConfidenceFacts.F2R_pos m e). lra.
  - clear Hnp. cbn [sval] in Hy.
    assert (Fy : fnum y m e) by (split; [exact Ey|exact (proj1 Oy)]).
    destruct (clamp_positive y m e Fy) as [[L E]|[L E]]; rewrite E.
    + replace (ToUint8Clamp 255) with 255%Z by reflexivity.
      assert (HN : IZR 5099999 < IZR N) by (replace (IZR 5099999) with 5099999 by reflexivity; lra).
      apply lt_IZR in HN. lia.
    + destruct (ToUint8Clamp_near y m e Fy L) as [Bv Ev].
      set (v := ToUint8Clamp y) in *.
      pose proof (ConfidenceFacts.F2R_pos m e) as Hp.
      split; [exact Bv|].
      assert (H1 : IZR (20000 * v - N) < IZR 10001).
      { rewrite minus_IZR, mult_IZR. replace (IZR 10001) with 10001 by reflexivity.
        replace (IZR 20000) with 20000 by reflexivity. lra. }
      assert (H2 : IZR (- 10001) < IZR (20000 * v - N)).
      { rewrite minus_IZR, mult_IZR. replace (IZR (- 10001)) with (- 10001) by (simpl; lra).
        replace (IZR 20000) with 20000 by reflexivity. lra. }
      assert (H3 : IZR N < IZR 5100001).
      { replace (IZR 5100001) with 5100001 by reflexivity. lra. }
      apply lt_IZR in H1, H2, H3.
      destruct (Z_lt_le_dec N 0) as [Nneg|Nnn]; [|lia].
      assert (H4 : IZR v < IZR 1).
      { replace (IZR 1) with 1 by reflexivity.
        assert (IZR N < 0) by (replace 0 with (IZR 0) by reflexivity; apply IZR_lt; lia). lra. }
      apply lt_IZR in H4. lia.
Qed.

End PixelFacts.

(** X22: every pixel of channels from 0 to 255 comes out of the loop with
    its three channels set to one byte [v] and its fourth channel as it was,
    and [v] is within one half of the value of
    ((0.299 R + 0.587 G + 0.114 B) - 128) * 1.15 + 128, clamped to [0, 255]:
    the nearest integer, or either neighbour at a tie.  That value is
    [N / 20000] for the integer [N] below. *)
Theorem pixel_loop_values (k : nat) (before rest : list Z) (r g b a : Z) :
  List.length before = (4 * k)%nat ->
  0 <= r <= 255 -> 0 <= g <= 255 -> 0 <= b <= 255 ->
  let N := 23 * (299 * r + 587 * g + 114 * b) - 384000 in
  exists v,
    grayscale_contrast (before ++ r :: g :: b :: a :: rest) =
      grayscale_contrast before ++ v :: v :: v :: a :: grayscale_contrast rest /\
    0 <= v <= 255 /\
    Z.abs (20000 * v - Z.max 0 (Z.min 5100000 N)) <= 10000.
Proof.
  intros Hlen Hr Hg Hb N. exists (gray_level r g b). split.
  - rewrite (grayscale_contrast_app k before _ Hlen).
    now rewrite grayscale_contrast_pixel.
  - exact (PixelFacts.gray_level_near r g b Hr Hg Hb).
Qed.

Lemma pixel_loop_values_witness :
  exists v,
    grayscale_contrast ([] ++ [100; 150; 200; 9]) =
      grayscale_contrast [] ++ [v; v; v; 9] ++ grayscale_contrast [] /\
    0 <= v <= 255 /\
    Z.abs (20000 * v - Z.max 0 (Z.min 5100000 2853250)) <= 10000.
Proof.
  assert (H1 : 0 <= 100 <= 255) by (vm_compute; split; discriminate).
  assert (H2 : 0 <= 150 <= 255) by (vm_compute; split; discriminate).
  assert (H3 : 0 <= 200 <= 255) by (vm_compute; split; discriminate).
  exact (pixel_loop_values 0 [] [] 100 150 200 9 eq_refl H1 H2 H3).
Defined.

(** ** The page: the name of the file it sends *)

Import Client.

Section Names.

Lemma strip_ext_dot (base ext : jsstring) :
  ext <> [] -> forallb is_word_char ext = true ->
  strip_ext (base ++ 46%N :: ext) = base.
Proof.
  intros Hne Hw. induction base as [|c base IH]; cbn [app strip_ext].
  - unfold ext_at. rewrite Hw. destruct ext; [now contradiction Hne|reflexivity].
  - assert (E : ext_at (c :: base ++ 46%N :: ext) = false).
    { unfold ext_at. rewrite forallb_app. cbn [forallb].
      change (is_word_char 46%N) with false.
      now rewrite andb_false_r, andb_false_r. }
    rewrite E, IH. reflexivity.
Qed.

Lemma strip_ext_cases (name : jsstring) :
  strip_ext name = name \/
  exists base ext,
    name = base ++ 46%N :: ext /\ ext <> [] /\ forallb is_word_char ext = true.
Proof.
  induction name as [|c name IH]; [left; reflexivity|].
  cbn [strip_ext]. destruct (ext_at (c :: name)) eqn:E.
  - right. unfold ext_at in E.
    apply andb_true_iff in E as [E Hw]. apply andb_true_iff in E as [Ec Hn].
    apply N.eqb_eq in Ec. subst c.
    exists [], name. split; [reflexivity|]. split; [|exact Hw].
    destruct name; [discriminate|discriminate].
  - destruct IH as [->|(base & ext & -> & Hne & Hw)]; [left; reflexivity|].
    right. exists (c :: base), ext. auto.
Qed.

End Names.

(** X11: the name of the file sent is the name of the selected file with
    its extension replaced by [.png], where the extension is a last dot
    followed by letters, digits or underscores, one at least; a name
    without such an extension gets [.png] appended; and renaming a name
    twice gives the same as renaming it once. *)
Theorem png_name_replaces_extension (name : jsstring) :
  ((exists base ext,
      name = base ++ 46%N :: ext /\ ext <> [] /\ forallb is_word_char ext = true /\
      png_name name = base ++ str ".png") \/
   ((forall base ext,
       name = base ++ 46%N :: ext -> ext <> [] -> forallb is_word_char ext = false) /\
    png_name name = name ++ str ".png")) /\
  png_name (png_name name) = png_name name.
Proof.
  split.
  - destruct (strip_ext_cases name) as [E|(base & ext & -> & Hne & Hw)].
    + right. split; [|unfold png_name; now rewrite E].
      intros base ext -> Hne. destruct (forallb is_word_char ext) eqn:Hw; [|reflexivity].
      assert (E2 : base = base ++ 46%N :: ext).
      { etransitivity; [symmetry; exact (strip_ext_dot base ext Hne Hw)|exact E]. }
      apply (f_equal (@List.length _)) in E2. rewrite length_app in E2.
      cbn [List.length] in E2. lia.
    + left. exists base, ext. repeat split; try assumption.
      exact (f_equal (fun x => x ++ str ".png") (strip_ext_dot base ext Hne Hw)).
  - assert (Hpng : str "png" <> []) by discriminate.
    exact (f_equal (fun x => x ++ str ".png")
             (strip_ext_dot (strip_ext name) (str "png") Hpng eq_refl)).
Qed.

(** ** The page: what holds after every action *)

Section Reachable.

Variable createObjectURL : File -> jsstring.
Variable processed_png : jsstring -> list Byte.byte.

Let step := step createObjectURL.
Let run := run createObjectURL.
Let invariant := invariant createObjectURL.

Lemma invariant_initial : invariant initial.
Proof.
  unfold invariant, Client.invariant, initial. cbn.
  repeat split; try discriminate; auto.
Qed.

Lemma invariant_select (f : File) (p : page) :
  is_image f = true -> invariant p -> invariant (select createObjectURL f p).
Proof.
  intros Hf (I1 & I2 & I3 & I4 & I5 & I6). unfold invariant, Client.invariant, select. cbn.
  repeat split; try assumption.
  - intros f' E. now injection E as <-.
  - destruct (isProcessing p); cbn; auto.
Qed.

Lemma invariant_step (p : page) (a : action) : invariant p -> invariant (step p a).
Proof.
  intros Hinv. unfold invariant, step in *.
  pose proof Hinv as (I1 & I2 & I3 & I4 & I5 & I6).
  destruct a as [[f|]|[f|]| |k|k r|s]; cbn [Client.step];
    try exact Hinv.
  - unfold handleFileSelect. destruct (is_image f) eqn:Hf; cbn [negb].
    + now apply invariant_select.
    + exact Hinv.
  - unfold handleDrop. destruct (is_image f) eqn:Hf; [|exact Hinv].
    now apply invariant_select.
  - unfold click_extract, extract_disabled, extractText.
    destruct (selectedFile p) as [f|] eqn:Hsel; [|exact Hinv].
    destruct (isProcessing p) eqn:Hproc; [exact Hinv|].
    destruct (flights p) as [|fl fls] eqn:Hfl; [|cbn in I5; discriminate].
    unfold Client.invariant. cbn. rewrite ?Hsel, ?Hfl, ?Hproc. cbn.
    repeat split; try assumption; auto.
    constructor; [|constructor]. cbn. now apply I1.
  - unfold tick.
    destruct (nth_error (flights p) k) as [fl|] eqn:Hk; [|exact Hinv].
    destruct (nth_error stages (idx fl)) as [[pr m]|] eqn:Hs; [|exact Hinv].
    destruct (flights p) as [|fl0 [|fl1 fls]] eqn:Hfl; cbn [List.length] in I4;
      [destruct k; cbn in Hk; discriminate| |lia].
    destruct k as [|k]; [|destruct k; cbn in Hk; discriminate].
    cbn in Hk. injection Hk as ->.
    unfold Client.invariant. cbn. rewrite ?Hfl, ?I5. cbn.
    repeat split; try assumption; auto.
    + constructor; [|constructor]. cbn. now inversion I3.
    + right. right. now apply nth_error_In in Hs.
  - unfold settle.
    destruct (nth_error (flights p) k) as [fl|] eqn:Hk; [|exact Hinv].
    destruct (flights p) as [|fl0 [|fl1 fls]] eqn:Hfl; cbn [List.length] in I4;
      [destruct k; cbn in Hk; discriminate| |lia].
    destruct k as [|k]; [|destruct k; cbn in Hk; discriminate].
    destruct r as [d|]; unfold Client.invariant; cbn; rewrite ?Hfl; cbn;
      repeat split; auto.
Qed.

Lemma invariant_run (acts : list action) (p : page) :
  invariant p -> invariant (run p acts).
Proof.
  revert p. induction acts as [|a acts IH]; intros p Hp; [exact Hp|].
  unfold run. cbn. apply IH. now apply invariant_step.
Qed.

End Reachable.

(** X12: whatever happens to the page, the selected file, if there is one,
    has a type that starts with [image/], the preview is the object URL of
    the selected file, and every file that is sent has a type that starts
    with [image/]. *)
Theorem only_images_are_sent (createObjectURL : File -> jsstring)
    (processed_png : jsstring -> list Byte.byte) (acts : list action) :
  let p := run createObjectURL initial acts in
  (forall f, selectedFile p = Some f -> is_image f = true) /\
  previewUrl p = option_map createObjectURL (selectedFile p) /\
  Forall (fun fl => is_image (fileToSend processed_png fl) = true) (flights p).
Proof.
  intro p.
  destruct (invariant_run createObjectURL acts initial (invariant_initial createObjectURL))
    as (I1 & I2 & I3 & _).
  fold p in I1, I2, I3. split; [exact I1|]. split; [exact I2|].
  apply Forall_forall. intros fl Hin.
  pose proof (proj1 (Forall_forall _ _) I3 fl Hin) as Hf. cbv beta in Hf.
  unfold fileToSend. destruct (url fl) as [u|]; [|exact Hf].
  destruct (truthy_string u); [reflexivity|exact Hf].
Qed.

(** X13: whatever happens to the page, at most one call of [extractText] is
    under way, and [isProcessing] is set exactly while one is. *)
Theorem one_extraction_at_a_time (createObjectURL : File -> jsstring)
    (acts : list action) :
  let p := run createObjectURL initial acts in
  (List.length (flights p) <= 1)%nat /\
  (isProcessing p = true <-> flights p <> []).
Proof.
  intro p.
  destruct (invariant_run createObjectURL acts initial (invariant_initial createObjectURL))
    as (_ & _ & _ & I4 & I5 & _).
  fold p in I4, I5. split; [exact I4|].
  rewrite I5. destruct (flights p); cbn; split; congruence.
Qed.

(** X14: whatever happens to the page, while an extraction is under way the
    progress is 0, 20, 55 or 85, with the message of its stage or none, so
    never 100; otherwise it is 0 with no message or 100 with [Completed]. *)
Theorem progress_on_display (createObjectURL : File -> jsstring)
    (acts : list action) :
  let p := run createObjectURL initial acts in
  In (processingProgress p, progressMessage p)
     (if isProcessing p then while_processing else while_idle) /\
  (isProcessing p = true -> processingProgress p <= 85) /\
  (processingProgress p = 100 <-> progressMessage p = str "Completed").
Proof.
  intro p.
  destruct (invariant_run createObjectURL acts initial (invariant_initial createObjectURL))
    as (_ & _ & _ & _ & _ & I6).
  fold p in I6. split; [exact I6|].
  destruct (isProcessing p); cbn in I6.
  - split.
    + intros _.
      repeat (destruct I6 as [I6|I6]; [injection I6 as <- _; lia|]). contradiction.
    + repeat (destruct I6 as [I6|I6];
              [injection I6 as <- <-; split; intro; discriminate|]). contradiction.
  - split; [discriminate|].
    destruct I6 as [I6|[I6|[]]]; injection I6 as <- <-; split; intro;
      reflexivity || discriminate.
Qed.

(** ** The page and the handler together *)

Section RoundTrip.

Variable createObjectURL : File -> jsstring.
Variable processed_png : jsstring -> list Byte.byte.

Let run := run createObjectURL.

(** The ticks of the interval touch the progress, the message and the
    index only. *)
Lemma ticks_keep (n : nat) :
  forall (p : page) (fl : flight),
    flights p = [fl] ->
    let p' := run p (repeat (Tick 0) n) in
    selectedFile p' = selectedFile p /\ previewUrl p' = previewUrl p /\
    extractedText p' = extractedText p /\ isProcessing p' = isProcessing p /\
    confidence p' = confidence p /\ toasts p' = toasts p /\
    exists i, flights p' = [{| file := file fl; url := url fl; idx := i |}].
Proof.
  induction n as [|n IH]; intros p fl Hfl; cbn [repeat].
  - cbn. repeat split; try reflexivity. exists (idx fl). rewrite Hfl. now destruct fl.
  - unfold run, Client.run. cbn [fold_left Client.step].
    assert (Ht : exists i,
               selectedFile (tick 0 p) = selectedFile p /\
               previewUrl (tick 0 p) = previewUrl p /\
               extractedText (tick 0 p) = extractedText p /\
               isProcessing (tick 0 p) = isProcessing p /\
               confidence (tick 0 p) = confidence p /\
               toasts (tick 0 p) = toasts p /\
               flights (tick 0 p) = [{| file := file fl; url := url fl; idx := i |}]).
    { unfold tick. rewrite Hfl. cbn [nth_error].
      destruct (nth_error stages (idx fl)) as [[pr m]|].
      - exists (S (idx fl)). cbn. repeat split; reflexivity.
      - exists (idx fl). rewrite Hfl. repeat split; try reflexivity. now destruct fl. }
    destruct Ht as (i & T1 & T2 & T3 & T4 & T5 & T6 & T7).
    destruct (IH (tick 0 p) _ T7) as (H1 & H2 & H3 & H4 & H5 & H6 & j & H7).
    cbv zeta in *. unfold run, Client.run in *. cbn [file url] in H7.
    rewrite H1, H2, H3, H4, H5, H6, T1, T2, T3, T4, T5, T6.
    repeat split; try reflexivity. now exists j.
Qed.

End RoundTrip.

(** The file of the request does not depend on the ticks. *)
Lemma request_file_idx (load : jsstring -> option Normalizer.image)
    (png_of : Normalizer.canvas -> list Byte.byte) (f : File) (u : option jsstring)
    (i j : nat) :
  request_file load png_of {| file := f; url := u; idx := i |} =
  request_file load png_of {| file := f; url := u; idx := j |}.
Proof. reflexivity. Qed.

Section Possible.

Variable createObjectURL : File -> jsstring.
Variable awaits : flight -> bool.

Lemma possible_run_app (p : page) (a b : list action) :
  possible_run createObjectURL awaits p (a ++ b) =
    possible_run createObjectURL awaits p a &&
    possible_run createObjectURL awaits (run createObjectURL p a) b.
Proof.
  revert p; induction a as [|x a IH]; intro p; [reflexivity|].
  cbn [app possible_run]. rewrite IH, andb_assoc. reflexivity.
Qed.

(** Ticks are possible while a call is under way. *)
Lemma ticks_possible (n : nat) :
  forall (p : page) (fl : flight),
    flights p = [fl] ->
    possible_run createObjectURL awaits p (repeat (Tick 0) n) = true.
Proof.
  induction n as [|n IH]; intros p fl Hfl; [reflexivity|].
  cbn [repeat possible_run possible]. rewrite Hfl. cbn [nth_error andb].
  destruct (ticks_keep createObjectURL 1 p fl Hfl) as (_ & _ & _ & _ & _ & _ & i & H).
  cbv zeta in H. exact (IH _ _ H).
Qed.

End Possible.

(** X15: the page and the handler together, for an image for which
    [preprocessToPngDataUrl] resolves with a canvas.  From any state of the
    page in which no extraction is under way, selecting the image and
    clicking the button sends the PNG of that canvas under the name of the
    selected file with the extension [.png], so the first call of the model
    carries a data URL of type [image/png].  The ticks and the end of the
    call are then possible, and when the answer of the handler to that file
    comes, after any number of ticks, the extraction ends: an answer with the
    status 200 puts on display the trimmed text that the last call of the
    model resolved with, and the confidence of that text, with the progress
    100; any other answer leaves the text empty and the confidence unset
    with the progress 0. *)
Theorem extraction_round_trip (createObjectURL : File -> jsstring)
    (load : jsstring -> option Normalizer.image)
    (png_of : Normalizer.canvas -> list Byte.byte)
    (gen : nat -> gen_request -> outcome)
    (acts : list action) (f : File) (n : nat) (c : Normalizer.canvas)
    (res : response) (tr : list event) :
  let p0 := run createObjectURL initial acts in
  let fl := {| file := f; url := Some (createObjectURL f); idx := 0 |} in
  let sent := {| file_name := png_name (file_name f); file_type := str "image/png";
                 file_bytes := png_of c |} in
  let p1 := run createObjectURL p0 [FileSelect (Some f); ClickExtract] in
  let rest := repeat (Tick 0) n ++ [Settle 0 (fetched_of res)] in
  let p2 := run createObjectURL p1 rest in
  isProcessing p0 = false ->
  is_image f = true ->
  createObjectURL f <> [] ->
  Normalizer.preprocessToPngDataUrl (load (createObjectURL f)) = Some c ->
  POST gen (Some sent) [] = (Normal res, tr) ->
  flights p1 = [fl] /\
  request_file load png_of fl = Some sent /\
  possible_run createObjectURL (awaits_resolve load png_of) p1 rest = true /\
  (exists rest',
     tr = Call (request_for (str "data:image/png;base64," ++ base64 (png_of c))
                  PRIMARY_MODEL) :: rest') /\
  selectedFile p2 = Some f /\ isProcessing p2 = false /\ flights p2 = [] /\
  (status res = 200 ->
   exists pre req text,
     tr = pre ++ [Call req] /\
     gen (ncalls pre) req = Resolves (Some text) /\
     text <> [] /\
     extractedText p2 = trim text /\
     confidence p2 = Some (calculateConfidence text) /\
     processingProgress p2 = 100 /\ progressMessage p2 = str "Completed") /\
  (status res <> 200 ->
   extractedText p2 = [] /\ confidence p2 = None /\
   processingProgress p2 = 0 /\ progressMessage p2 = []).
Proof.
  intros p0 fl sent p1 rest p2 Hidle Hf Hurl Hpre Hpost.
  destruct (invariant_run createObjectURL acts initial (invariant_initial createObjectURL))
    as (_ & _ & _ & _ & I5 & _).
  fold p0 in I5. rewrite Hidle in I5.
  assert (Hfl0 : flights p0 = []) by (destruct (flights p0); [reflexivity|discriminate]).
  assert (Esent : forall i,
            request_file load png_of {| file := f; url := Some (createObjectURL f); idx := i |} =
              Some sent).
  { intro i. unfold request_file, fileToSend. cbn [url file]. rewrite Hpre.
    destruct (createObjectURL f); [now contradiction Hurl|reflexivity]. }
  (* the selection and the click *)
  assert (E1 : p1 =
    {| selectedFile := Some f; previewUrl := Some (createObjectURL f);
       extractedText := []; isProcessing := true; confidence := None;
       processingProgress := 0;
       progressMessage := str "Optimizing image" ++ [ellipsis];
       flights := [fl]; toasts := toasts p0 |}).
  { unfold p1, run. cbn [fold_left step]. unfold handleFileSelect. rewrite Hf. cbn [negb].
    unfold click_extract, extract_disabled, extractText, select.
    cbn [selectedFile isProcessing previewUrl flights extractedText confidence toasts].
    rewrite Hidle, Hfl0. reflexivity. }
  assert (F1 : flights p1 = [fl]) by (rewrite E1; reflexivity).
  (* the ticks *)
  destruct (ticks_keep createObjectURL n p1 fl F1)
    as (K1 & K2 & K3 & K4 & K5 & K6 & i & K7).
  cbv zeta in K1, K2, K3, K4, K5, K6, K7.
  set (pt := run createObjectURL p1 (repeat (Tick 0) n)) in *.
  rewrite E1 in K1, K2, K3, K4, K5, K6.
  cbn [selectedFile previewUrl extractedText isProcessing confidence toasts] in *.
  cbn [file url fl] in K7.
  assert (E2 : p2 = settle 0 (fetched_of res) pt).
  { unfold p2, rest, run. rewrite fold_left_app. reflexivity. }
  (* the answer of the handler *)
  rewrite POST_answer in Hpost. injection Hpost as Hres Htr.
  split; [exact F1|]. split; [apply Esent|].
  split.
  { unfold rest. rewrite possible_run_app, (ticks_possible _ _ n p1 fl F1).
    fold pt. cbn [andb possible_run possible]. rewrite K7. cbn [nth_error].
    unfold awaits_resolve. now rewrite Esent. }
  split.
  { destruct (invoke_models_first_call gen sent) as [rest' Hrest].
    exists rest'. rewrite <- Htr, Hrest. reflexivity. }
  rewrite E2. unfold settle. rewrite K7. cbn [nth_error firstn skipn app].
  destruct (invoke_models_shape gen (dataUrl_of sent) []) as (evs & Hevs & Hr).
  cbn [app] in Hevs. rewrite Htr in Hevs. subst evs.
  destruct (fst (invoke_models gen (dataUrl_of sent) [])) as [[[|ch t]|]|e];
    cbn [answer truthy_string] in Hres; subst res;
    cbn [fetched_of failure_response status json Z.leb Z.compare Pos.compare
         Pos.compare_cont andb data_of data_text data_confidence];
    cbn [selectedFile isProcessing flights extractedText confidence
         processingProgress progressMessage];
    (split; [exact K1|]); (split; [reflexivity|]); (split; [reflexivity|]);
    split; intro Hs; try (now contradiction Hs); try discriminate;
    try (repeat split; assumption || reflexivity).
  destruct Hr as (evs0 & req & -> & _ & Hg). cbn in Hg.
  exists evs0, req, (ch :: t). repeat split; try reflexivity; try assumption.
  discriminate.
Qed.

(** X19: a selection does not cancel the extraction under way.  If another
    image is selected after the click, the answer to the first image, when it
    comes, is put on display with the second image selected: its text, its
    confidence and the progress 100. *)
Theorem selection_does_not_cancel (createObjectURL : File -> jsstring)
    (acts : list action) (f1 f2 : File) (n : nat) (d : data) :
  let p0 := run createObjectURL initial acts in
  let p1 := run createObjectURL p0 [FileSelect (Some f1); ClickExtract] in
  let p2 := run createObjectURL p1
              (FileSelect (Some f2) :: repeat (Tick 0) n ++ [Settle 0 (Fulfilled d)]) in
  isProcessing p0 = false ->
  is_image f1 = true -> is_image f2 = true ->
  flights p1 = [{| file := f1; url := Some (createObjectURL f1); idx := 0 |}] /\
  selectedFile p2 = Some f2 /\
  previewUrl p2 = Some (createObjectURL f2) /\
  extractedText p2 = match data_text d with Some t => t | None => [] end /\
  confidence p2 = data_confidence d /\
  processingProgress p2 = 100 /\
  isProcessing p2 = false /\ flights p2 = [].
Proof.
  intros p0 p1 p2 Hidle Hf1 Hf2.
  destruct (invariant_run createObjectURL acts initial (invariant_initial createObjectURL))
    as (_ & _ & _ & _ & I5 & _).
  fold p0 in I5. rewrite Hidle in I5.
  assert (Hfl0 : flights p0 = []) by (destruct (flights p0); [reflexivity|discriminate]).
  set (fl := {| file := f1; url := Some (createObjectURL f1); idx := 0 |}).
  assert (E1 : flights p1 = [fl]).
  { unfold p1, run. cbn [fold_left step]. unfold handleFileSelect. rewrite Hf1. cbn [negb].
    unfold click_extract, extract_disabled, extractText, select.
    cbn [selectedFile isProcessing previewUrl flights extractedText confidence toasts].
    rewrite Hidle, Hfl0. reflexivity. }
  split; [exact E1|].
  set (ps := step createObjectURL p1 (FileSelect (Some f2))).
  assert (Es : ps = select createObjectURL f2 p1).
  { unfold ps. cbn [step]. unfold handleFileSelect. now rewrite Hf2. }
  destruct (ticks_keep createObjectURL n ps fl ltac:(rewrite Es; exact E1))
    as (K1 & K2 & _ & _ & _ & _ & i & K7).
  cbv zeta in K1, K2, K7.
  set (pt := run createObjectURL ps (repeat (Tick 0) n)) in *.
  assert (E2 : p2 = settle 0 (Fulfilled d) pt).
  { unfold p2, run. cbn [fold_left]. fold ps. rewrite fold_left_app. reflexivity. }
  rewrite E2. unfold settle. rewrite K7. cbn [nth_error firstn skipn app].
  cbn [selectedFile previewUrl isProcessing flights extractedText confidence
       processingProgress].
  rewrite K1, K2, Es. cbn. repeat split; reflexivity.
Qed.

Lemma selection_does_not_cancel_witness :
  let p1 := run blob_url (run blob_url initial []) [FileSelect (Some a_png); ClickExtract] in
  let d := {| data_text := Some (str "hello"); data_confidence := Some 0.25%float |} in
  let p2 := run blob_url p1
              (FileSelect (Some a_jpg) :: repeat (Tick 0) 1 ++ [Settle 0 (Fulfilled d)]) in
  selectedFile p2 = Some a_jpg /\ extractedText p2 = str "hello".
Proof.
  assert (H1 : isProcessing (run blob_url initial []) = false) by reflexivity.
  assert (H2 : is_image a_png = true) by reflexivity.
  assert (H3 : is_image a_jpg = true) by reflexivity.
  pose proof (selection_does_not_cancel blob_url [] a_png a_jpg 1
                {| data_text := Some (str "hello"); data_confidence := Some 0.25%float |}
                H1 H2 H3) as H.
  cbv zeta in H. cbv zeta.
  exact (conj (proj1 (proj2 H)) (proj1 (proj2 (proj2 (proj2 H))))).
Defined.

Lemma extraction_round_trip_witness :
  let p1 := run blob_url (run blob_url initial []) [FileSelect (Some a_png); ClickExtract] in
  let res := {| status := 200; json := Extracted (str "hello") 0.25 |} in
  let p2 := run blob_url p1 (repeat (Tick 0) 2 ++ [Settle 0 (fetched_of res)]) in
  selectedFile p2 = Some a_png /\ isProcessing p2 = false /\ flights p2 = [].
Proof.
  assert (H1 : isProcessing (run blob_url initial []) = false) by reflexivity.
  assert (H2 : is_image a_png = true) by reflexivity.
  assert (H3 : blob_url a_png <> []) by discriminate.
  assert (H4 : Normalizer.preprocessToPngDataUrl (loads_small (blob_url a_png)) =
               Some small_canvas) by reflexivity.
  pose proof (extraction_round_trip blob_url loads_small canvas_bytes reads_hello [] a_png 2
                small_canvas
                {| status := 200; json := Extracted (str "hello") 0.25 |}
                [Call (request_for
                         (str "data:image/png;base64," ++ base64 (canvas_bytes small_canvas))
                         PRIMARY_MODEL)]
                H1 H2 H3 H4 eq_refl) as H.
  cbv zeta in H. cbv zeta.
  exact (conj (proj1 (proj2 (proj2 (proj2 (proj2 H)))))
           (conj (proj1 (proj2 (proj2 (proj2 (proj2 (proj2 H))))))
                 (proj1 (proj2 (proj2 (proj2 (proj2 (proj2 (proj2 H))))))))).
Defined.

(** X21: an extraction whose image never gets through
    [preprocessToPngDataUrl] never ends.  If the promise does not resolve
    (the image does not load, or a side of its canvas is 0), nothing is sent,
    and whatever happens to the page afterwards the call stays under way,
    [isProcessing] stays set and the button stays disabled. *)
Theorem extraction_never_ends (createObjectURL : File -> jsstring)
    (load : jsstring -> option Normalizer.image)
    (png_of : Normalizer.canvas -> list Byte.byte)
    (acts later : list action) (f : File) :
  let p0 := run createObjectURL initial acts in
  let fl := {| file := f; url := Some (createObjectURL f); idx := 0 |} in
  let p1 := run createObjectURL p0 [FileSelect (Some f); ClickExtract] in
  let p := run createObjectURL p1 later in
  isProcessing p0 = false ->
  is_image f = true ->
  createObjectURL f <> [] ->
  Normalizer.preprocessToPngDataUrl (load (createObjectURL f)) = None ->
  possible_run createObjectURL (awaits_resolve load png_of) p1 later = true ->
  flights p1 = [fl] /\
  request_file load png_of fl = None /\
  isProcessing p = true /\ extract_disabled p = true /\
  exists i, flights p = [{| file := f; url := Some (createObjectURL f); idx := i |}].
Proof.
  intros p0 fl p1 p Hidle Hf Hurl Hpre Hposs.
  destruct (invariant_run createObjectURL acts initial (invariant_initial createObjectURL))
    as (_ & _ & _ & _ & I5 & _).
  fold p0 in I5. rewrite Hidle in I5.
  assert (Hfl0 : flights p0 = []) by (destruct (flights p0); [reflexivity|discriminate]).
  assert (Enone : forall i,
            awaits_resolve load png_of
              {| file := f; url := Some (createObjectURL f); idx := i |} = false).
  { intro i. unfold awaits_resolve, request_file. cbn [url file]. rewrite Hpre.
    destruct (createObjectURL f); [now contradiction Hurl|reflexivity]. }
  assert (F1 : flights p1 = [fl] /\ isProcessing p1 = true).
  { unfold p1, run. cbn [fold_left step]. unfold handleFileSelect. rewrite Hf. cbn [negb].
    unfold click_extract, extract_disabled, extractText, select.
    cbn [selectedFile isProcessing previewUrl flights extractedText confidence toasts].
    rewrite Hidle, Hfl0. split; reflexivity. }
  split; [exact (proj1 F1)|].
  split.
  { specialize (Enone 0%nat). unfold awaits_resolve in Enone. fold fl in Enone.
    destruct (request_file load png_of fl); [discriminate|reflexivity]. }
  assert (Hstuck : forall (later : list action) (q : page),
            (exists i, flights q = [{| file := f; url := Some (createObjectURL f); idx := i |}]) ->
            isProcessing q = true ->
            possible_run createObjectURL (awaits_resolve load png_of) q later = true ->
            isProcessing (run createObjectURL q later) = true /\
            exists i, flights (run createObjectURL q later) =
                        [{| file := f; url := Some (createObjectURL f); idx := i |}]).
  { clear - Enone. intros later. induction later as [|a later IH]; intros q [i Hq] Hproc Hposs.
    - split; [exact Hproc|now exists i].
    - cbn [possible_run] in Hposs. apply andb_true_iff in Hposs as [Ha Hposs].
      unfold run. cbn [fold_left]. apply IH; [| |exact Hposs].
      + destruct a as [[g|]|[g|]| |k|k r|s]; cbn [step].
        * unfold handleFileSelect. destruct (negb (is_image g)); now exists i.
        * now exists i.
        * unfold handleDrop. destruct (is_image g); now exists i.
        * now exists i.
        * unfold click_extract, extract_disabled. rewrite Hproc.
          destruct (selectedFile q); now exists i.
        * unfold tick. rewrite Hq. destruct k as [|k]; [|destruct k; now exists i].
          cbn [nth_error].
          destruct (nth_error stages (idx _)) as [[pr m]|]; [|now exists i].
          cbn. now eexists.
        * exfalso. cbn [possible] in Ha. rewrite Hq in Ha.
          destruct k as [|k]; [|destruct k; discriminate].
          cbn [nth_error] in Ha. rewrite Enone in Ha. discriminate.
        * now exists i.
      + destruct a as [[g|]|[g|]| |k|k r|s]; cbn [step]; try exact Hproc.
        * unfold handleFileSelect. destruct (negb (is_image g)); exact Hproc.
        * unfold handleDrop. destruct (is_image g); exact Hproc.
        * unfold click_extract, extract_disabled. rewrite Hproc.
          destruct (selectedFile q); exact Hproc.
        * unfold tick. destruct (nth_error (flights q) k) as [fl'|]; [|exact Hproc].
          destruct (nth_error stages (idx fl')) as [[pr m]|]; exact Hproc.
        * exfalso. cbn [possible] in Ha. rewrite Hq in Ha.
          destruct k as [|k]; [|destruct k; discriminate].
          cbn [nth_error] in Ha. rewrite Enone in Ha. discriminate. }
  destruct (Hstuck later p1 (ex_intro _ 0%nat (proj1 F1)) (proj2 F1) Hposs) as [Hp Hf'].
  fold p in Hp, Hf'. split; [exact Hp|]. split; [|exact Hf'].
  unfold extract_disabled. rewrite Hp. now destruct (selectedFile p).
Qed.

Lemma extraction_never_ends_witness :
  let p1 := run blob_url (run blob_url initial []) [FileSelect (Some a_png); ClickExtract] in
  let p := run blob_url p1 [Tick 0; FileSelect (Some a_jpg); ClickExtract; Tick 0] in
  isProcessing p = true /\ extract_disabled p = true.
Proof.
  assert (H1 : isProcessing (run blob_url initial []) = false) by reflexivity.
  assert (H2 : is_image a_png = true) by reflexivity.
  assert (H3 : blob_url a_png <> []) by discriminate.
  assert (H4 : Normalizer.preprocessToPngDataUrl (loads_thin (blob_url a_png)) = None)
    by reflexivity.
  pose proof (extraction_never_ends blob_url loads_thin canvas_bytes []
                [Tick 0; FileSelect (Some a_jpg); ClickExtract; Tick 0] a_png
                H1 H2 H3 H4 eq_refl) as H.
  cbv zeta in H. cbv zeta.
  exact (conj (proj1 (proj2 (proj2 H))) (proj1 (proj2 (proj2 (proj2 H))))).
Defined.

(** ** The page: the badge of a confidence the handler sends *)

Module DisplayFacts.
Import FloatFacts ConfidenceFacts PageFacts.
Local Open Scope R_scope.

(** The confidence of a text is a positive normal number from 0.05 to 0.65. *)
Lemma confidence_real_bounds (text : jsstring) :
  (length text <= Estimator.max_length)%Z ->
  exists mr er, fnum (calculateConfidence text) mr er /\
    value 0.05 <= F2R mr er <= value 0.65.
Proof.
  intro Hlen.
  destruct (confidence_value text Hlen) as (mr & er & Fr & H).
  exists mr, er. split; [exact Fr|].
  destruct H as [[_ ->]|[_ (mc & ec & vy & Fc & Hy & -> & _)]].
  - pose proof value_005_le_065. lra.
  - split; [apply clamp_value_bounds|].
    apply clamp_value_le; [apply value_005_le_065|].
    destruct (base_of_fnum text) as (mc' & ec' & Fc' & _ & _ & L).
    pose proof (fnum_leb_true _ _ _ _ _ _ Fc' fnum_065 L) as Hc.
    destruct Fc as [E1 _], Fc' as [E2 _]. rewrite E1 in E2. injection E2 as <- <-.
    rewrite (value_fnum _ _ _ fnum_065). lra.
Qed.

Lemma fnum_07 : fnum 0.7 6305039478318694 (-53).
Proof. fnum_tac. Qed.

Lemma fnum_100 : fnum 100 7036874417766400 (-46).
Proof. fnum_tac. Qed.

Lemma F2R_100 : F2R 7036874417766400 (-46) = 100.
Proof.
  unfold F2R. change (bpow (-46)) with (bpow (- (46))).
  rewrite bpow_opp, (bpow_IZR 46) by lia.
  change (2 ^ 46)%Z with 70368744177664%Z. lra.
Qed.

Lemma value_005 : value 0.05 = 7205759403792794 / 144115188075855872.
Proof.
  rewrite (value_fnum _ _ _ fnum_005).
  unfold F2R. change (bpow (-57)) with (bpow (- (57))).
  rewrite bpow_opp, (bpow_IZR 57) by lia.
  change (2 ^ 57)%Z with 144115188075855872%Z. reflexivity.
Qed.

Lemma value_065 : value 0.65 = 5854679515581645 / 9007199254740992.
Proof.
  rewrite (value_fnum _ _ _ fnum_065).
  unfold F2R. change (bpow (-53)) with (bpow (- (53))).
  rewrite bpow_opp, (bpow_IZR 53) by lia.
  change (2 ^ 53)%Z with 9007199254740992%Z. reflexivity.
Qed.

(** A confidence is below 0.7. *)
Lemma confidence_below_07 (text : jsstring) :
  (length text <= Estimator.max_length)%Z ->
  (0.7 <=? calculateConfidence text)%float = false.
Proof.
  intro Hlen. destruct (confidence_real_bounds text Hlen) as (mr & er & Fr & _ & Hle).
  destruct (0.7 <=? calculateConfidence text)%float eqn:E; [|reflexivity].
  pose proof (fnum_leb_true _ _ _ _ _ _ fnum_07 Fr E) as H.
  assert (L : F2R 5854679515581645 (-53) < F2R 6305039478318694 (-53)).
  { apply (fnum_ltb_true _ _ _ _ _ _ fnum_065 fnum_07). vm_compute. reflexivity. }
  rewrite (value_fnum _ _ _ fnum_065) in Hle. lra.
Qed.

(** The percent of a confidence. *)
Lemma percent_bounds (text : jsstring) :
  (length text <= Estimator.max_length)%Z ->
  exists n : Z, (5 <= n <= 65)%Z /\ percent (calculateConfidence text) = Number n.
Proof.
  intro Hlen. destruct (confidence_real_bounds text Hlen) as (mr & er & Fr & Hlo & Hhi).
  rewrite value_005 in Hlo. rewrite value_065 in Hhi.
  assert (Her : (er <= -53)%Z).
  { destruct (Z_le_gt_dec er (-53)) as [|Hgt]; [assumption|exfalso].
    pose proof (mantissa_bounds _ (proj1 (proj2 Fr))) as Mb.
    pose proof (bpow_le (-52) er ltac:(lia)) as Hb.
    pose proof F2R_1 as H1. unfold F2R in H1.
    pose proof (bpow_gt_0 (-52)) as P.
    assert (1 <= F2R mr er); [|lra].
    unfold F2R. nra. }
  pose proof (proj2 (proj2 Fr)) as Ner.
  destruct (fnum_mul _ _ _ _ _ _ Fr fnum_100 ltac:(lia)) as (mt & et & Ft & Rt & Bt).
  rewrite F2R_100 in Rt.
  pose proof (rounds_to_error _ _ Rt) as Et. apply Rabs_le_inv in Et.
  destruct (Math_round_fnum _ _ _ Ft ltac:(lia)) as (Hn & Hn0 & Er).
  set (n := Z.shiftr (2 * Zpos mt + Z.shiftl 1 (- et)) (1 - et)) in *.
  assert (H5 : (5 <= n)%Z).
  { assert (4 < IZR n) by lra. apply lt_IZR in H. lia. }
  assert (H65 : (n <= 65)%Z).
  { assert (IZR n < 66) by lra. apply lt_IZR in H. lia. }
  exists n. split; [lia|].
  unfold percent. rewrite Er.
  destruct (Z.eqb_spec n 0); [lia|reflexivity].
Qed.

End DisplayFacts.

(** X16: for the confidence of any text, the badge is yellow or red and the
    icon is [AlertCircle]: the emerald and the blue badge, [Sparkles] and
    [CheckCircle] never show for a confidence the handler computed; and the
    number before the percent sign is an integer from 5 to 65. *)
Theorem badge_of_a_confidence (text : jsstring) :
  length text <= Estimator.max_length ->
  let conf := calculateConfidence text in
  (confBadge conf = yellow \/ confBadge conf = red) /\
  confIcon conf = AlertCircle /\
  exists n : Z, 5 <= n <= 65 /\ percent conf = Number n.
Proof.
  intros Hlen conf. subst conf.
  pose proof (DisplayFacts.confidence_below_07 text Hlen) as H07.
  assert (H085 : (0.85 <=? calculateConfidence text)%float = false).
  { destruct (DisplayFacts.confidence_real_bounds text Hlen) as (mr & er & Fr & _ & Hle).
    destruct (0.85 <=? calculateConfidence text)%float eqn:E; [|reflexivity].
    assert (F085 : FloatSpec.fnum 0.85 7656119366529843 (-53))
      by ConfidenceFacts.fnum_tac.
    pose proof (FloatFacts.fnum_leb_true _ _ _ _ _ _ F085 Fr E) as H.
    assert (L : (F2R 5854679515581645 (-53) < F2R 7656119366529843 (-53))%R).
    { apply (FloatFacts.fnum_ltb_true _ _ _ _ _ _ ConfidenceFacts.fnum_065 F085).
      vm_compute. reflexivity. }
    rewrite (ConfidenceFacts.value_fnum _ _ _ ConfidenceFacts.fnum_065) in Hle. lra. }
  unfold confBadge, confIcon. rewrite H085, H07.
  split; [|split; [reflexivity|exact (DisplayFacts.percent_bounds text Hlen)]].
  destruct (0.5 <=? calculateConfidence text)%float; auto.
Qed.

Lemma badge_of_a_confidence_witness :
  confIcon (calculateConfidence (str "total due 12.50")) = AlertCircle.
Proof.
  assert (H : length (str "total due 12.50") <= Estimator.max_length)
    by (vm_compute; discriminate).
  exact (proj1 (proj2 (badge_of_a_confidence (str "total due 12.50") H))).
Defined.
